(** * Temporal-difference update rules of mushroom (algorithms/value/td.py)

    A shallow embedding of the eleven TD update rules and of the stores
    they act on, followed by the properties of the rules.

    Numbers.  The program computes with numpy float64 values.  They are
    idealised here as real numbers ([R]): every arithmetic operation is the
    exact one, there is no rounding, no infinity and no NaN.  All statements
    below are statements about this exact-arithmetic reading of the code.

    Errors.  A Python exception aborts the call; it is modelled by the
    [Raise] constructor of [result], which carries the exception class.

    Randomness.  Values drawn from numpy's global random source are explicit
    arguments of the functions that consume them. *)

From Stdlib Require Import Reals Lra Lia List.
From stdpp Require Import base list.
Import ListNotations.

Local Open Scope R_scope.

(** ** Exceptions *)

Inductive Err : Type :=
  | IndexError
  | ValueError
  | NotImplementedError
  | AssertionError
  | TypeError.

Inductive result (A : Type) : Type :=
  | Ok (a : A)
  | Raise (e : Err).

Arguments Ok {A} a.
Arguments Raise {A} e.

Definition bind {A B : Type} (m : result A) (f : A -> result B) : result B :=
  match m with
  | Ok a => f a
  | Raise e => Raise e
  end.

Notation "'let*' x ':=' m 'in' k" := (bind m (fun x => k))
  (at level 10, x name, m at level 200, k at level 200,
   format "'[v' 'let*'  x  :=  m  'in' '/' k ']'").

(** ** The numpy operations used by the rules *)

Module np.

(** [np.max(v)]: the largest element; an empty array raises ValueError. *)
Definition max (v : list R) : result R :=
  match v with
  | [] => Raise ValueError
  | x :: xs => Ok (foldl Rmax x xs)
  end.

(** [np.argwhere(v == m).ravel()]: the indices, in increasing order, of
    the entries equal to [m]. *)
Fixpoint argwhere_from (i : nat) (v : list R) (m : R) : list nat :=
  match v with
  | [] => []
  | x :: xs =>
      if Req_dec_T x m then i :: argwhere_from (S i) xs m
      else argwhere_from (S i) xs m
  end.

Definition argwhere_eq (v : list R) (m : R) : list nat :=
  argwhere_from 0 v m.

(** [np.argmax(v)]: the first index holding the maximum. *)
Definition argmax (v : list R) : result nat :=
  let* m := max v in
  match argwhere_eq v m with
  | i :: _ => Ok i
  | [] => Raise ValueError
  end.

(** [np.random.choice(v)] where the random source picks position [k]
    (numpy draws [k] uniformly in [range(len(v))]); an empty array raises
    ValueError. *)
Definition random_choice {A : Type} (v : list A) (k : nat) : result A :=
  match v !! k with
  | Some x => Ok x
  | None => Raise ValueError
  end.

Definition sum (v : list R) : R := foldr Rplus 0 v.

(** [np.dot(u, v)] on two vectors; different sizes raise ValueError. *)
Definition dot (u v : list R) : result R :=
  if Nat.eqb (length u) (length v) then Ok (sum (zip_with Rmult u v))
  else Raise ValueError.

(** [c * v] for a scalar [c]. *)
Definition scale (c : R) (v : list R) : list R := map (Rmult c) v.

(** [u + v] for two vectors.  Two vectors of the same size are added
    entry by entry; a vector of size 1 is broadcast against the other
    operand, whose size the result takes; any other pair of sizes raises
    ValueError. *)
Definition add (u v : list R) : result (list R) :=
  if Nat.eqb (length u) (length v) then Ok (zip_with Rplus u v)
  else if Nat.eqb (length u) 1 then Ok (map (Rplus (hd 0 u)) v)
  else if Nat.eqb (length v) 1 then Ok (map (fun x => x + hd 0 v) u)
  else Raise ValueError.

(** [u += v] for two vectors: the in-place sum keeps the size of [u], so
    that only [v] can be broadcast. *)
Definition iadd (u v : list R) : result (list R) :=
  if Nat.eqb (length u) (length v) then Ok (zip_with Rplus u v)
  else if Nat.eqb (length v) 1 then Ok (map (fun x => x + hd 0 v) u)
  else Raise ValueError.

Definition zeros (n : nat) : list R := replicate n 0.

End np.

(** ** Value stores

    Modelled from the spec: the class [Table] (mushroom/utils/table.py) is
    not among the sources.  A value store owns a dense array indexed by
    (state, action), of a shape fixed at construction, with every entry
    initialised to one constant; it is read by state and action (one
    scalar) or by state (the whole action row) and written by state and
    action.  An index outside the shape is an index error. *)

Abbreviation Table := (list (list R)).

Definition Table_new (shape : nat * nat) (initial_value : R) : Table :=
  replicate (fst shape) (replicate (snd shape) initial_value).

(** [T[state, :]] *)
Definition getrow (T : Table) (s : nat) : result (list R) :=
  match T !! s with
  | Some row => Ok row
  | None => Raise IndexError
  end.

(** [T[state, action]] *)
Definition getitem (T : Table) (s a : nat) : result R :=
  let* row := getrow T s in
  match row !! a with
  | Some v => Ok v
  | None => Raise IndexError
  end.

(** [T[state, action] = v] *)
Definition setitem (T : Table) (s a : nat) (v : R) : result Table :=
  let* row := getrow T s in
  match row !! a with
  | Some _ => Ok (<[s := <[a := v]> row]> T)
  | None => Raise IndexError
  end.

(** The shape invariant of a store. *)
Definition has_shape (shape : nat * nat) (T : Table) : Prop :=
  length T = fst shape /\ Forall (fun row => length row = snd shape) T.

(** ** Collaborators

    The MDP descriptor, the parameter schedules and the policy are defined
    outside the sources read here; the rules use them through the
    interfaces below. *)

Record MDPInfo : Type := {
  size : nat * nat;      (* (number of states, number of actions) *)
  gamma : R
}.

Definition n_actions (m : MDPInfo) : nat := snd (size m).

(** A parameter schedule is a stateful callable
    [schedule(state, action, target=None, factor=None) -> float]:
    a call returns the coefficient and the schedule's next state.  [St] is
    the type of the states of the MDP. *)
Class Schedule (St S : Type) : Type :=
  call : S -> St -> nat -> option R -> option R -> R * S.

(** A policy over a tabular value store [Q] (installed by
    [policy.set_q]): [draw_action(state)] draws an action, possibly
    consuming randomness kept in the policy's own state, and
    [policy(state)] is the probability vector over the actions. *)
Class Policy (P : Type) : Type := {
  draw_action : P -> Table -> nat -> nat * P;
  policy_call : P -> Table -> nat -> list R
}.

(** Modelled from the spec: the class [Agent] (mushroom/algorithms/agent.py)
    is not among the sources.  The rules record in [next_action] the action
    selected at the next state, so that the caller can act on it at the next
    step: [draw_action] of the agent hands out a recorded next action and
    clears the record, and asks the policy only when no action is
    recorded.  Every rule that calls it assigns the result to
    [next_action] at once, so only the action and the state of the policy
    are returned here. *)
Module Agent.
Definition draw_action {P : Type} (next_action : option nat) (policy : P)
    (policy_draw_action : P -> nat * P) : nat * P :=
  match next_action with
  | None => policy_draw_action policy
  | Some action => (action, policy)
  end.
End Agent.

(** One step of an episode, as [TD._parse] reads it from the dataset. *)
Record Transition (St : Type) : Type := {
  state : St;
  action : nat;
  reward : R;
  next_state : St;
  absorbing : bool
}.

Arguments state {St} _.
Arguments action {St} _.
Arguments reward {St} _.
Arguments next_state {St} _.
Arguments absorbing {St} _.

(** [TD.fit]: the dataset holds exactly one sample, which is handed to the
    rule's [_update]. *)
Definition fit {Agent St : Type}
    (_update : Agent -> St -> nat -> R -> St -> bool -> result Agent)
    (ag : Agent) (dataset : list (Transition St)) : result Agent :=
  match dataset with
  | [sample] =>
      _update ag (state sample) (action sample) (reward sample)
        (next_state sample) (absorbing sample)
  | _ => Raise AssertionError
  end.

(** ** Q-Learning *)

Module QLearning.
Section Rule.
Context {S : Type} `{Schedule nat S}.
Variable mdp_info : MDPInfo.

Record agent : Type := { Q : Table; alpha : S }.

Definition __init__ (learning_rate : S) : agent :=
  {| Q := Table_new (size mdp_info) 0; alpha := learning_rate |}.

Definition q_next (ag : agent) (ns : nat) (ab : bool) : result R :=
  if negb ab then let* row := getrow (Q ag) ns in np.max row else Ok 0.

Definition _update (ag : agent) (s a : nat) (r : R) (ns : nat) (ab : bool)
    : result agent :=
  let* q_current := getitem (Q ag) s a in
  let* q_nxt := q_next ag ns ab in
  let (al, alpha') := call (alpha ag) s a None None in
  let* Q' := setitem (Q ag) s a
               (q_current + al * (r + gamma mdp_info * q_nxt - q_current)) in
  Ok {| Q := Q'; alpha := alpha' |}.
End Rule.
End QLearning.

(** ** Ensemble stores

    Modelled from the spec: the class [EnsembleTable]
    (mushroom/utils/table.py) is not among the sources.  An ensemble store
    is an ordered collection of independently initialised value stores of
    equal shape; [Q[i]] is its member [i]. *)

Definition EnsembleTable (n_models : nat) (shape : nat * nat) : list Table :=
  replicate n_models (Table_new shape 0).

Definition member {A : Type} (l : list A) (i : nat) : result A :=
  match l !! i with
  | Some x => Ok x
  | None => Raise IndexError
  end.

(** ** Double Q-Learning

    The two values taken from the random source by one call are arguments
    of [_update]: [u] is the value of [np.random.uniform()], a real of the
    interval [0, 1), and [k] is the position picked by [np.random.choice]
    in the array of maximising actions. *)

Module DoubleQLearning.
Section Rule.
Context {S : Type} `{Schedule nat S}.
Variable mdp_info : MDPInfo.

Record agent : Type := { Q : list Table; alpha : list S }.

Definition __init__ (learning_rate : S) : result agent :=
  let Q0 := EnsembleTable 2 (size mdp_info) in
  let alpha0 := [learning_rate; learning_rate] in
  if Nat.eqb (length Q0) 2 then Ok {| Q := Q0; alpha := alpha0 |}
  else Raise AssertionError.

Definition approximator_idx (u : R) : nat :=
  if Rlt_dec u (1 / 2) then 0%nat else 1%nat.

(** The actions among which the bootstrap action is drawn:
    [np.argwhere(q_ss == max_q).ravel()]. *)
Definition candidates (ag : agent) (i ns : nat) : result (list nat) :=
  let* Qi := member (Q ag) i in
  let* q_ss := getrow Qi ns in
  let* max_q := np.max q_ss in
  Ok (np.argwhere_eq q_ss max_q).

Definition a_n (ag : agent) (i ns k : nat) : result nat :=
  let* c := candidates ag i ns in
  np.random_choice c k.

Definition q_next (ag : agent) (i ns k : nat) (ab : bool) : result R :=
  if negb ab then
    let* an := a_n ag i ns k in
    let* Qo := member (Q ag) (1 - i) in
    getitem Qo ns an
  else Ok 0.

Definition _update (u : R) (k : nat) (ag : agent) (s a : nat) (r : R)
    (ns : nat) (ab : bool) : result agent :=
  let i := approximator_idx u in
  let* Qi := member (Q ag) i in
  let* q_current := getitem Qi s a in
  let* q_nxt := q_next ag i ns k ab in
  let* alpha_i := member (alpha ag) i in
  let (al, alpha_i') := call alpha_i s a None None in
  let q := q_current + al * (r + gamma mdp_info * q_nxt - q_current) in
  let* Qi' := setitem Qi s a q in
  Ok {| Q := <[i := Qi']> (Q ag); alpha := <[i := alpha_i']> (alpha ag) |}.
End Rule.
End DoubleQLearning.

(** ** Weighted Q-Learning

    The random source gives, for trial [j] and action [a], the standard
    normal value [normal j a] from which [np.random.normal(loc, scale)]
    makes the sample [loc + scale * normal j a] (a negative scale raises
    ValueError), and the action [choice] drawn by
    [np.random.choice(n, p=w)]. *)

Fixpoint mapM {A B : Type} (f : A -> result B) (l : list A) : result (list B) :=
  match l with
  | [] => Ok []
  | x :: xs =>
      let* y := f x in
      let* ys := mapM f xs in
      Ok (y :: ys)
  end.

Record Draws : Type := { normal : nat -> nat -> R; choice : nat }.

Module WeightedQLearning.
Section Rule.
Context {S : Type} `{Schedule nat S}.
Variable mdp_info : MDPInfo.

Record agent : Type := {
  Q : Table;
  alpha : S;
  _sampling : bool;
  _precision : nat;
  _n_updates : Table;
  _sigma : Table;
  _Q : Table;
  _Q2 : Table;
  _weights_var : Table;
  _use_weighted_policy : bool;
  _w : option (list R);
  next_action : option nat
}.

Definition __init__ (learning_rate : S) (sampling : bool) (precision : nat)
    (weighted_policy : bool) : result agent :=
  Ok {| Q := Table_new (size mdp_info) 0;
        alpha := learning_rate;
        _sampling := sampling;
        _precision := precision;
        _n_updates := Table_new (size mdp_info) 0;
        _sigma := Table_new (size mdp_info) 1e10;
        _Q := Table_new (size mdp_info) 0;
        _Q2 := Table_new (size mdp_info) 0;
        _weights_var := Table_new (size mdp_info) 0;
        _use_weighted_policy := weighted_policy;
        _w := None;
        next_action := None |}.

(** One row of [np.random.normal(means, sigmas)]. *)
Definition normal_row (means sigmas : list R) (z : nat -> R) : list R :=
  imap (fun a ms => fst ms + snd ms * z a) (zip means sigmas).

Definition weights (d : Draws) (precision : nat) (means sigmas : list R)
    : result (list R) :=
  if negb (Nat.eqb (length means) (length sigmas)) then Raise ValueError
  else if existsb (fun sg => if Rlt_dec sg 0 then true else false) sigmas
  then Raise ValueError
  else
    let* max_idx :=
      mapM (fun j => np.argmax (normal_row means sigmas (normal d j)))
           (seq 0 precision) in
    Ok (map (fun a => INR (count_occ Nat.eq_dec max_idx a) / INR precision)
            (seq 0 (length means))).

Definition _next_q (d : Draws) (ag : agent) (ns : nat)
    : result (R * agent) :=
  let* means := getrow (Q ag) ns in
  let* sigmas :=
    mapM (fun a => getitem (_sigma ag) ns a)
         (seq 0 (n_actions mdp_info)) in
  let* w :=
    if _sampling ag then weights d (_precision ag) means sigmas
    else Raise NotImplementedError in
  let next_action' :=
    if _use_weighted_policy ag then Some (choice d) else next_action ag in
  let* q := np.dot w means in
  Ok (q, {| Q := Q ag; alpha := alpha ag; _sampling := _sampling ag;
            _precision := _precision ag; _n_updates := _n_updates ag;
            _sigma := _sigma ag; _Q := _Q ag; _Q2 := _Q2 ag;
            _weights_var := _weights_var ag;
            _use_weighted_policy := _use_weighted_policy ag;
            _w := Some w; next_action := next_action' |}).

(** The value written to [_sigma[state, action]] once the entry has been
    updated more than once: [n] the count, [m] and [m2] the running means
    of the target and of its square, [wv] the weight accumulator. *)
Definition new_sigma (n m m2 wv : R) : R :=
  let var := n * (m2 - m ^ 2) / (n - 1) in
  let var_estimator := var * wv in
  let var_estimator := Rmax var_estimator 1e-10 in
  sqrt var_estimator.

Definition q_next (d : Draws) (ag : agent) (ns : nat) (ab : bool)
    : result (R * agent) :=
  if negb ab then _next_q d ag ns else Ok (0, ag).

Definition _update (d : Draws) (ag : agent) (s a : nat) (r : R) (ns : nat)
    (ab : bool) : result agent :=
  let* q_current := getitem (Q ag) s a in
  let* qa := q_next d ag ns ab in
  let q_nxt := fst qa in
  let ag := snd qa in
  let target := r + gamma mdp_info * q_nxt in
  let (al, alpha') := call (alpha ag) s a None None in
  let* Q' := setitem (Q ag) s a (q_current + al * (target - q_current)) in
  let* n0 := getitem (_n_updates ag) s a in
  let* N' := setitem (_n_updates ag) s a (n0 + 1) in
  let* n := getitem N' s a in
  let* m0 := getitem (_Q ag) s a in
  let* M' := setitem (_Q ag) s a (m0 + (target - m0) / n) in
  let* m20 := getitem (_Q2 ag) s a in
  let* M2' := setitem (_Q2 ag) s a (m20 + (target ^ 2 - m20) / n) in
  let* wv0 := getitem (_weights_var ag) s a in
  let* WV' := setitem (_weights_var ag) s a
                ((1 - al) ^ 2 * wv0 + al ^ 2) in
  let* Sg' :=
    if Rlt_dec 1 n then
      let* m := getitem M' s a in
      let* m2 := getitem M2' s a in
      let* wv := getitem WV' s a in
      setitem (_sigma ag) s a (new_sigma n m m2 wv)
    else Ok (_sigma ag) in
  Ok {| Q := Q'; alpha := alpha'; _sampling := _sampling ag;
        _precision := _precision ag; _n_updates := N'; _sigma := Sg';
        _Q := M'; _Q2 := M2'; _weights_var := WV';
        _use_weighted_policy := _use_weighted_policy ag;
        _w := _w ag; next_action := next_action ag |}.
End Rule.
End WeightedQLearning.

(** ** Speedy Q-Learning

    [deepcopy] returns a store that shares nothing with its argument; as
    stores are values here, the copy is the value itself. *)

Definition deepcopy {A : Type} (x : A) : A := x.

Module SpeedyQLearning.
Section Rule.
Context {S : Type} `{Schedule nat S}.
Variable mdp_info : MDPInfo.

Record agent : Type := { Q : Table; old_q : Table; alpha : S }.

Definition __init__ (learning_rate : S) : agent :=
  let Q0 := Table_new (size mdp_info) 0 in
  {| Q := Q0; old_q := deepcopy Q0; alpha := learning_rate |}.

Definition max_q (T : Table) (ns : nat) (ab : bool) : result R :=
  if negb ab then let* row := getrow T ns in np.max row else Ok 0.

Definition _update (ag : agent) (s a : nat) (r : R) (ns : nat) (ab : bool)
    : result agent :=
  let old_q' := deepcopy (Q ag) in
  let* max_q_cur := max_q (Q ag) ns ab in
  let* max_q_old := max_q (old_q ag) ns ab in
  let target_cur := r + gamma mdp_info * max_q_cur in
  let target_old := r + gamma mdp_info * max_q_old in
  let (al, alpha') := call (alpha ag) s a None None in
  let* q_cur := getitem (Q ag) s a in
  let* Q' := setitem (Q ag) s a
               (q_cur + al * (target_old - q_cur)
                + (1 - al) * (target_cur - target_old)) in
  Ok {| Q := Q'; old_q := old_q'; alpha := alpha' |}.
End Rule.
End SpeedyQLearning.

(** ** SARSA *)

Module SARSA.
Section Rule.
Context {S P : Type} `{Schedule nat S} `{Policy P}.
Variable mdp_info : MDPInfo.

Record agent : Type := {
  Q : Table;
  alpha : S;
  policy : P;
  next_action : option nat
}.

Definition __init__ (pi : P) (learning_rate : S) : agent :=
  {| Q := Table_new (size mdp_info) 0; alpha := learning_rate;
     policy := pi; next_action := None |}.

(** [self.draw_action(state)] *)
Definition draw_action (ag : agent) (s : nat) : nat * P :=
  Agent.draw_action (next_action ag) (policy ag)
    (fun pi => draw_action pi (Q ag) s).

Definition q_next (ag : agent) (ns na : nat) (ab : bool) : result R :=
  if negb ab then getitem (Q ag) ns na else Ok 0.

Definition _update (ag : agent) (s a : nat) (r : R) (ns : nat) (ab : bool)
    : result agent :=
  let* q_current := getitem (Q ag) s a in
  let (na, policy') := draw_action ag ns in
  let* q_nxt := q_next ag ns na ab in
  let (al, alpha') := call (alpha ag) s a None None in
  let* Q' := setitem (Q ag) s a
               (q_current + al * (r + gamma mdp_info * q_nxt - q_current)) in
  Ok {| Q := Q'; alpha := alpha'; policy := policy';
        next_action := Some na |}.
End Rule.
End SARSA.

(** ** Eligibility traces

    Modelled from the spec: the class [EligibilityTrace]
    (mushroom/utils/eligibility_trace.py) is not among the sources.  A
    trace has the shape of its value store and starts, and is reset, at
    zero everywhere; a visit sets the visited entry to 1 (replacing) or
    increments it by 1 (accumulating). *)

Inductive trace_kind : Type := replacing | accumulating.

Module EligibilityTrace.
Definition __init__ (shape : nat * nat) : Table := Table_new shape 0.

Definition reset (shape : nat * nat) : Table := Table_new shape 0.

Definition update (kind : trace_kind) (e : Table) (s a : nat)
    : result Table :=
  match kind with
  | replacing => setitem e s a 1
  | accumulating => let* v := getitem e s a in setitem e s a (v + 1)
  end.
End EligibilityTrace.

(** Whole-array arithmetic on stores: [c * T] and [T += U].  A store and
    its trace have the shape of the MDP by construction, and the sum is
    taken entry by entry; two arrays of different shapes, which no
    constructor produces, are a ValueError. *)
Definition table_scale (c : R) (T : Table) : Table := map (np.scale c) T.

Definition row_add (u v : list R) : result (list R) :=
  if Nat.eqb (length u) (length v) then Ok (zip_with Rplus u v)
  else Raise ValueError.

Definition table_add (T U : Table) : result Table :=
  if Nat.eqb (length T) (length U)
  then mapM (fun ru => row_add (fst ru) (snd ru)) (zip T U)
  else Raise ValueError.

(** ** SARSA(lambda), discrete *)

Module SARSALambdaDiscrete.
Section Rule.
Context {S P : Type} `{Schedule nat S} `{Policy P}.
Variable mdp_info : MDPInfo.

Record agent : Type := {
  Q : Table;
  alpha : S;
  policy : P;
  next_action : option nat;
  _lambda : R;
  trace : trace_kind;
  e : Table
}.

Definition __init__ (pi : P) (learning_rate : S) (lambda_coeff : R)
    (trace : trace_kind) : agent :=
  {| Q := Table_new (size mdp_info) 0; alpha := learning_rate;
     policy := pi; next_action := None; _lambda := lambda_coeff;
     trace := trace; e := EligibilityTrace.__init__ (size mdp_info) |}.

(** [self.draw_action(state)] *)
Definition draw_action (ag : agent) (s : nat) : nat * P :=
  Agent.draw_action (next_action ag) (policy ag)
    (fun pi => draw_action pi (Q ag) s).

Definition q_next (ag : agent) (ns na : nat) (ab : bool) : result R :=
  if negb ab then getitem (Q ag) ns na else Ok 0.

Definition _update (ag : agent) (s a : nat) (r : R) (ns : nat) (ab : bool)
    : result agent :=
  let* q_current := getitem (Q ag) s a in
  let (na, policy') := draw_action ag ns in
  let* q_nxt := q_next ag ns na ab in
  let delta := r + gamma mdp_info * q_nxt - q_current in
  let* e1 := EligibilityTrace.update (trace ag) (e ag) s a in
  let (al, alpha') := call (alpha ag) s a None None in
  let* Q' := table_add (Q ag) (table_scale (al * delta) e1) in
  let e2 := table_scale (gamma mdp_info * _lambda ag) e1 in
  Ok {| Q := Q'; alpha := alpha'; policy := policy';
        next_action := Some na; _lambda := _lambda ag;
        trace := trace ag; e := e2 |}.

Definition episode_start (ag : agent) : agent :=
  {| Q := Q ag; alpha := alpha ag; policy := policy ag;
     next_action := next_action ag; _lambda := _lambda ag;
     trace := trace ag; e := EligibilityTrace.reset (size mdp_info) |}.
End Rule.
End SARSALambdaDiscrete.

(** ** Expected SARSA *)

Module ExpectedSARSA.
Section Rule.
Context {S P : Type} `{Schedule nat S} `{Policy P}.
Variable mdp_info : MDPInfo.

Record agent : Type := { Q : Table; alpha : S; policy : P }.

Definition __init__ (pi : P) (learning_rate : S) : agent :=
  {| Q := Table_new (size mdp_info) 0; alpha := learning_rate;
     policy := pi |}.

Definition q_next (ag : agent) (ns : nat) (ab : bool) : result R :=
  if negb ab then
    let* row := getrow (Q ag) ns in
    np.dot row (policy_call (policy ag) (Q ag) ns)
  else Ok 0.

Definition _update (ag : agent) (s a : nat) (r : R) (ns : nat) (ab : bool)
    : result agent :=
  let* q_current := getitem (Q ag) s a in
  let* q_nxt := q_next ag ns ab in
  let (al, alpha') := call (alpha ag) s a None None in
  let* Q' := setitem (Q ag) s a
               (q_current + al * (r + gamma mdp_info * q_nxt - q_current)) in
  Ok {| Q := Q'; alpha := alpha'; policy := policy ag |}.
End Rule.
End ExpectedSARSA.

(** ** Regressors and features

    The regressor, the feature map and the policy that reads the regressor
    are defined outside the sources read here.  A regressor is its weight
    vector ([get_weights] / [set_weights]) together with [predict] and
    [diff], which read the weights. *)

Class Approximator (St : Type) : Type := {
  phi : St -> list R;
  predict : list R -> list R -> nat -> R;
  diff : list R -> list R -> nat -> list R;
  get_action_features : list R -> nat -> nat -> list R
}.

Class RegressorPolicy (St P : Type) : Type :=
  draw_action_w : P -> list R -> St -> nat * P.

(** ** SARSA(lambda), continuous *)

Module SARSALambdaContinuous.
Section Rule.
Context {St S P : Type} `{Schedule St S} `{Approximator St}
        `{RegressorPolicy St P}.
Variable mdp_info : MDPInfo.

Record agent : Type := {
  weights : list R;
  alpha : S;
  policy : P;
  next_action : option nat;
  _lambda : R;
  e : list R
}.

Definition __init__ (weights0 : list R) (pi : P) (learning_rate : S)
    (lambda_coeff : R) : agent :=
  {| weights := weights0; alpha := learning_rate; policy := pi;
     next_action := None; _lambda := lambda_coeff;
     e := np.zeros (length weights0) |}.

(** [self.draw_action(state)] *)
Definition draw_action (ag : agent) (s : St) : nat * P :=
  Agent.draw_action (next_action ag) (policy ag)
    (fun pi => draw_action_w pi (weights ag) s).

Definition q_next (ag : agent) (ns : St) (na : nat) (ab : bool) : R :=
  if negb ab then predict (weights ag) (phi ns) na else 0.

Definition _update (ag : agent) (s : St) (a : nat) (r : R) (ns : St)
    (ab : bool) : result agent :=
  let phi_state := phi s in
  let q_current := predict (weights ag) phi_state a in
  let (al, alpha') := call (alpha ag) s a None None in
  let* e' := np.add (np.scale (gamma mdp_info * _lambda ag) (e ag))
                    (diff (weights ag) phi_state a) in
  let (na, policy') := draw_action ag ns in
  let q_nxt := q_next ag ns na ab in
  let delta := r + gamma mdp_info * q_nxt - q_current in
  let* theta := np.iadd (weights ag) (np.scale (al * delta) e') in
  Ok {| weights := theta; alpha := alpha'; policy := policy';
        next_action := Some na; _lambda := _lambda ag; e := e' |}.

Definition episode_start (ag : agent) : agent :=
  {| weights := weights ag; alpha := alpha ag; policy := policy ag;
     next_action := next_action ag; _lambda := _lambda ag;
     e := np.zeros (length (weights ag)) |}.
End Rule.
End SARSALambdaContinuous.

(** ** True Online SARSA(lambda) *)

Module TrueOnlineSARSALambda.
Section Rule.
Context {St S P : Type} `{Schedule St S} `{Approximator St}
        `{RegressorPolicy St P}.
Variable mdp_info : MDPInfo.

Record agent : Type := {
  weights : list R;
  alpha : S;
  policy : P;
  next_action : option nat;
  _lambda : R;
  e : list R;
  _q_old : option R
}.

Definition __init__ (weights0 : list R) (pi : P) (learning_rate : S)
    (lambda_coeff : R) : agent :=
  {| weights := weights0; alpha := learning_rate; policy := pi;
     next_action := None; _lambda := lambda_coeff;
     e := np.zeros (length weights0); _q_old := None |}.

(** [self.draw_action(state)] *)
Definition draw_action (ag : agent) (s : St) : nat * P :=
  Agent.draw_action (next_action ag) (policy ag)
    (fun pi => draw_action_w pi (weights ag) s).

Definition q_next (ag : agent) (ns : St) (na : nat) (ab : bool) : R :=
  if negb ab then predict (weights ag) (phi ns) na else 0.

Definition _update (ag : agent) (s : St) (a : nat) (r : R) (ns : St)
    (ab : bool) : result agent :=
  let phi_state := phi s in
  let phi_state_action :=
    get_action_features phi_state a (n_actions mdp_info) in
  let q_current := predict (weights ag) phi_state a in
  let q_old := match _q_old ag with Some q => q | None => q_current end in
  let (al, alpha') := call (alpha ag) s a None None in
  let gl := gamma mdp_info * _lambda ag in
  let* e_phi := np.dot (e ag) phi_state_action in
  let* e' := np.add (np.scale gl (e ag))
                    (np.scale (al * (1 - gl * e_phi)) phi_state_action) in
  let (na, policy') := draw_action ag ns in
  let q_nxt := q_next ag ns na ab in
  let delta := r + gamma mdp_info * q_nxt - q_old in
  let* step := np.add (np.scale delta e')
                      (np.scale (al * (q_old - q_current))
                                phi_state_action) in
  let* theta := np.iadd (weights ag) step in
  Ok {| weights := theta; alpha := alpha'; policy := policy';
        next_action := Some na; _lambda := _lambda ag; e := e';
        _q_old := Some q_nxt |}.

Definition episode_start (ag : agent) : agent :=
  {| weights := weights ag; alpha := alpha ag; policy := policy ag;
     next_action := next_action ag; _lambda := _lambda ag;
     e := np.zeros (length (weights ag)); _q_old := None |}.
End Rule.
End TrueOnlineSARSALambda.

(** ** R-Learning *)

Module RLearning.
Section Rule.
Context {S : Type} `{Schedule nat S}.
Variable mdp_info : MDPInfo.

Record agent : Type := { Q : Table; alpha : S; _rho : R; beta : S }.

Definition __init__ (learning_rate beta : S) : agent :=
  {| Q := Table_new (size mdp_info) 0; alpha := learning_rate;
     _rho := 0; beta := beta |}.

Definition q_next (ag : agent) (ns : nat) (ab : bool) : result R :=
  if negb ab then let* row := getrow (Q ag) ns in np.max row else Ok 0.

Definition _update (ag : agent) (s a : nat) (r : R) (ns : nat) (ab : bool)
    : result agent :=
  let* q_current := getitem (Q ag) s a in
  let* q_nxt := q_next ag ns ab in
  let delta := r - _rho ag + q_nxt - q_current in
  let (al, alpha') := call (alpha ag) s a None None in
  let q_new := q_current + al * delta in
  let* Q' := setitem (Q ag) s a q_new in
  let* row := getrow Q' s in
  let* q_max := np.max row in
  if Req_dec_T q_new q_max then
    let delta := r + q_nxt - q_max - _rho ag in
    let (b, beta') := call (beta ag) s a None None in
    Ok {| Q := Q'; alpha := alpha'; _rho := _rho ag + b * delta;
          beta := beta' |}
  else
    Ok {| Q := Q'; alpha := alpha'; _rho := _rho ag; beta := beta ag |}.
End Rule.
End RLearning.

(** ** RQ-Learning *)

Module RQLearning.
Section Rule.
Context {S P : Type} `{Schedule nat S} `{Policy P}.
Variable mdp_info : MDPInfo.

Record agent : Type := {
  off_policy : bool;
  delta : option S;
  beta : option S;
  Q : Table;
  Q_tilde : Table;
  R_tilde : Table;
  alpha : S;
  policy : P;
  next_action : option nat
}.

Definition __init__ (pi : P) (learning_rate : S) (off_policy : bool)
    (beta delta : option S) : result agent :=
  let* db :=
    match delta, beta with
    | Some d, None => Ok (Some d, None)
    | None, Some b => Ok (None, Some b)
    | _, _ => Raise ValueError
    end in
  Ok {| off_policy := off_policy; delta := fst db; beta := snd db;
        Q := Table_new (size mdp_info) 0;
        Q_tilde := Table_new (size mdp_info) 0;
        R_tilde := Table_new (size mdp_info) 0;
        alpha := learning_rate; policy := pi; next_action := None |}.

(** [self.draw_action(state)] *)
Definition draw_action (ag : agent) (s : nat) : nat * P :=
  Agent.draw_action (next_action ag) (policy ag)
    (fun pi => draw_action pi (Q ag) s).

(** [_next_q]: the value, the policy after the draw and the recorded
    next action. *)
Definition _next_q (ag : agent) (ns : nat)
    : result (R * P * option nat) :=
  if off_policy ag then
    let* row := getrow (Q ag) ns in
    let* m := np.max row in
    Ok (m, policy ag, next_action ag)
  else
    let (na, policy') := draw_action ag ns in
    let* q := getitem (Q ag) ns na in
    Ok (q, policy', Some na).

(** The rate of the [Q_tilde] update: [alpha * delta(...)] when the
    [delta] schedule is set, [beta(...)] otherwise. *)
Definition rate (ag : agent) (s a : nat) (al q_nxt : R)
    : result (R * option S * option S) :=
  match delta ag with
  | Some d =>
      let (x, d') := call d s a (Some q_nxt) (Some al) in
      Ok (al * x, Some d', beta ag)
  | None =>
      match beta ag with
      | Some b =>
          let (x, b') := call b s a (Some q_nxt) None in
          Ok (x, None, Some b')
      | None => Raise TypeError
      end
  end.

Definition _update (ag : agent) (s a : nat) (r : R) (ns : nat) (ab : bool)
    : result agent :=
  let (al, alpha') := call (alpha ag) s a (Some r) None in
  let* r0 := getitem (R_tilde ag) s a in
  let* R' := setitem (R_tilde ag) s a (r0 + al * (r - r0)) in
  let* upd :=
    if negb ab then
      let* nq := _next_q ag ns in
      let q_nxt := fst (fst nq) in
      let* rt := rate ag s a al q_nxt in
      let b := fst (fst rt) in
      let* q0 := getitem (Q_tilde ag) s a in
      let* Qt' := setitem (Q_tilde ag) s a (q0 + b * (q_nxt - q0)) in
      Ok (Qt', snd (fst rt), snd rt, snd (fst nq), snd nq)
    else Ok (Q_tilde ag, delta ag, beta ag, policy ag, next_action ag) in
  let '(Qt', delta', beta', policy', next_action') := upd in
  let* rt := getitem R' s a in
  let* qt := getitem Qt' s a in
  let* Q' := setitem (Q ag) s a (rt + gamma mdp_info * qt) in
  Ok {| off_policy := off_policy ag; delta := delta'; beta := beta';
        Q := Q'; Q_tilde := Qt'; R_tilde := R'; alpha := alpha';
        policy := policy'; next_action := next_action' |}.
End Rule.
End RQLearning.

(** ** Learning runs and store predicates *)

(** A learning run: [fit] is called on one sample after another; the
    first exception ends the run. *)
Fixpoint run {Agent St : Type}
    (_update : Agent -> St -> nat -> R -> St -> bool -> result Agent)
    (ag : Agent) (samples : list (Transition St)) : result Agent :=
  match samples with
  | [] => Ok ag
  | sample :: rest =>
      let* ag1 := fit _update ag [sample] in
      run _update ag1 rest
  end.

(** [T'] agrees with [T] on every entry other than [(s, a)]. *)
Definition unchanged_except (T T' : Table) (s a : nat) : Prop :=
  forall s' a', (s', a') <> (s, a) -> getitem T' s' a' = getitem T s' a'.

(** The identity [Q = R_tilde + gamma * Q_tilde] of RQ-Learning at every
    pair, for three stores of the shape of the MDP. *)
Definition rq_invariant {S P : Type} (mdp_info : MDPInfo)
    (ag : @RQLearning.agent S P) : Prop :=
  has_shape (size mdp_info) (RQLearning.Q ag) /\
  has_shape (size mdp_info) (RQLearning.Q_tilde ag) /\
  has_shape (size mdp_info) (RQLearning.R_tilde ag) /\
  forall s a q qt rt,
    getitem (RQLearning.Q ag) s a = Ok q ->
    getitem (RQLearning.Q_tilde ag) s a = Ok qt ->
    getitem (RQLearning.R_tilde ag) s a = Ok rt ->
    q = rt + gamma mdp_info * qt.

(** A learning run of Weighted Q-Learning: each call comes with the
    values it takes from the random source. *)
Fixpoint weighted_run {S : Type} `{Schedule nat S} (mdp_info : MDPInfo)
    (ag : WeightedQLearning.agent)
    (steps : list (Draws * Transition nat))
    : result WeightedQLearning.agent :=
  match steps with
  | [] => Ok ag
  | (d, sample) :: rest =>
      let* ag1 := fit (WeightedQLearning._update mdp_info d) ag [sample] in
      weighted_run mdp_info ag1 rest
  end.

(** Every entry of the store is at least [sqrt 1e-10]. *)
Definition above_floor (T : Table) : Prop :=
  Forall (Forall (fun x => sqrt 1e-10 <= x)) T.


(** [m] is the maximum of the vector: one of its entries, and at least
    every entry. *)
Definition is_max (v : list R) (m : R) : Prop :=
  m ∈ v /\ forall x, x ∈ v -> x <= m.

(** Every entry of the store lies in [[-B, B]]. *)
Definition bounded (B : R) (T : Table) : Prop :=
  Forall (Forall (fun x => - B <= x <= B)) T.

(** A schedule whose states satisfying [good] return coefficients of
    [[0, 1]] and stay in [good]. *)
Definition unit_schedule {St S : Type} `{Schedule St S} (good : S -> Prop)
    : Prop :=
  forall st s a tg fc, good st ->
    0 <= fst (call st s a tg fc) <= 1 /\ good (snd (call st s a tg fc)).

(** A probability vector: entries that are not negative and sum to 1. *)
Definition prob_vector (p : list R) : Prop :=
  Forall (fun x => 0 <= x) p /\ np.sum p = 1.

(** The vector is 1 at position [j] and 0 everywhere else. *)
Definition one_hot (p : list R) (j : nat) : Prop :=
  p !! j = Some 1 /\ forall i x, i <> j -> p !! i = Some x -> x = 0.

(** The number of steps of a run that update the pair [(s, a)]. *)
Fixpoint visits (s a : nat) (steps : list (Draws * Transition nat)) : nat :=
  match steps with
  | [] => 0
  | (_, sample) :: rest =>
      (if Nat.eqb (state sample) s && Nat.eqb (action sample) a
       then 1 else 0) + visits s a rest
  end.

(** Every entry of the store lies in [[0, 1]]. *)
Definition in_unit_interval (T : Table) : Prop :=
  Forall (Forall (fun x => 0 <= x <= 1)) T.

(** ** Concrete collaborators

    Instances of the collaborator interfaces on which the rules are run in
    the examples: a schedule that replays a fixed list of coefficients
    (and returns 0 once the list is exhausted), and a policy that always
    draws the same action and announces a fixed probability vector. *)

#[export] Instance replay_schedule {St : Type} : Schedule St (list R) :=
  fun l _ _ _ _ =>
    match l with
    | [] => (0, [])
    | c :: l' => (c, l')
    end.

Record FixedPolicy : Type := { fixed_action : nat; fixed_probs : list R }.

#[export] Instance fixed_policy : Policy FixedPolicy := {
  draw_action := fun p _ _ => (fixed_action p, p);
  policy_call := fun p _ _ => fixed_probs p
}.

(** A regressor with one action over states that are their own feature
    vector: the prediction is the inner product of the weights and the
    features, its gradient is the feature vector. *)
#[export] Instance inner_product_approximator : Approximator (list R) := {
  phi := fun s => s;
  predict := fun w f _ => np.sum (zip_with Rmult w f);
  diff := fun _ f _ => f;
  get_action_features := fun f _ _ => f
}.

#[export] Instance fixed_regressor_policy {St : Type}
    : RegressorPolicy St FixedPolicy :=
  fun p _ _ => (fixed_action p, p).

(** * Properties *)

(** ** The error monad *)

Lemma bind_Ok {A B : Type} (m : result A) (f : A -> result B) (b : B) :
  bind m f = Ok b -> exists a, m = Ok a /\ f a = Ok b.
Proof. destruct m as [a|err]; simpl; [eauto | discriminate]. Qed.

Ltac inv_bind H :=
  let x := fresh "x" in
  let Hx := fresh "E" in
  apply bind_Ok in H; destruct H as (x & Hx & H).

Ltac inv_binds :=
  repeat match goal with
  | H : bind _ _ = Ok _ |- _ => inv_bind H
  | H : Ok _ = Ok _ |- _ => injection H as H; try subst
  | H : Raise _ = Ok _ |- _ => discriminate H
  end.

(** ** Stores *)

Lemma getrow_Ok (T : Table) (s : nat) (row : list R) :
  getrow T s = Ok row <-> T !! s = Some row.
Proof.
  unfold getrow. destruct (T !! s); split; intros E; congruence.
Qed.

Lemma getitem_Ok (T : Table) (s a : nat) (v : R) :
  getitem T s a = Ok v <->
  exists row, T !! s = Some row /\ row !! a = Some v.
Proof.
  unfold getitem, getrow. split.
  - destruct (T !! s) as [row|]; simpl; [|discriminate].
    destruct (row !! a) eqn:E; [|discriminate].
    intros [= ->]. eauto.
  - intros (row & -> & E). simpl. now rewrite E.
Qed.

Lemma setitem_Ok (T T' : Table) (s a : nat) (v : R) :
  setitem T s a v = Ok T' <->
  exists row v0, T !! s = Some row /\ row !! a = Some v0 /\
                 T' = <[s := <[a := v]> row]> T.
Proof.
  unfold setitem, getrow. split.
  - destruct (T !! s) as [row|]; simpl; [|discriminate].
    destruct (row !! a) as [v0|] eqn:E; [|discriminate].
    intros [= <-]. eauto.
  - intros (row & v0 & -> & E & ->). simpl. now rewrite E.
Qed.

(** Writing succeeds exactly where reading does. *)
Lemma setitem_total (T : Table) (s a : nat) (v0 v : R) :
  getitem T s a = Ok v0 -> exists T', setitem T s a v = Ok T'.
Proof.
  intros (row & Hs & Ha)%getitem_Ok. eexists. apply setitem_Ok. eauto.
Qed.

Lemma getitem_setitem_eq (T T' : Table) (s a : nat) (v : R) :
  setitem T s a v = Ok T' -> getitem T' s a = Ok v.
Proof.
  intros (row & v0 & Hs & Ha & ->)%setitem_Ok. apply getitem_Ok.
  exists (<[a := v]> row). split.
  - apply list_lookup_insert_eq. eapply lookup_lt_Some; eauto.
  - apply list_lookup_insert_eq. eapply lookup_lt_Some; eauto.
Qed.

Lemma getrow_setitem_ne (T T' : Table) (s a s' : nat) (v : R) :
  setitem T s a v = Ok T' -> s' <> s -> getrow T' s' = getrow T s'.
Proof.
  intros (row & v0 & Hs & Ha & ->)%setitem_Ok Hne. unfold getrow.
  rewrite list_lookup_insert_ne; [reflexivity | congruence].
Qed.

Lemma getitem_setitem_ne (T T' : Table) (s a s' a' : nat) (v : R) :
  setitem T s a v = Ok T' -> (s', a') <> (s, a) ->
  getitem T' s' a' = getitem T s' a'.
Proof.
  intros Hset Hne. destruct (decide (s' = s)) as [->|Hs].
  - apply setitem_Ok in Hset as (row & v0 & Hs & Ha & ->).
    unfold getitem, getrow. rewrite Hs.
    rewrite list_lookup_insert_eq by (eapply lookup_lt_Some; eauto).
    simpl. rewrite list_lookup_insert_ne; [reflexivity | congruence].
  - unfold getitem. now rewrite (getrow_setitem_ne _ _ _ _ _ _ Hset Hs).
Qed.


Lemma setitem_shape (shape : nat * nat) (T T' : Table) (s a : nat) (v : R) :
  has_shape shape T -> setitem T s a v = Ok T' -> has_shape shape T'.
Proof.
  intros [Hl Hr] (row & v0 & Hs & Ha & ->)%setitem_Ok. split.
  - now rewrite length_insert.
  - apply Forall_insert; [assumption|]. rewrite length_insert.
    eapply Forall_lookup_1 in Hr; eauto.
Qed.

Lemma Table_new_shape (shape : nat * nat) (v : R) :
  has_shape shape (Table_new shape v).
Proof.
  split.
  - apply length_replicate.
  - apply Forall_replicate, length_replicate.
Qed.

Lemma getitem_Table_new (shape : nat * nat) (v : R) (s a : nat) :
  (s < fst shape)%nat -> (a < snd shape)%nat ->
  getitem (Table_new shape v) s a = Ok v.
Proof.
  intros Hs Ha. apply getitem_Ok. exists (replicate (snd shape) v).
  split; apply lookup_replicate; auto.
Qed.

Lemma getitem_Table_new_inv (shape : nat * nat) (v x : R) (s a : nat) :
  getitem (Table_new shape v) s a = Ok x -> x = v.
Proof.
  intros (row & Hs & Ha)%getitem_Ok.
  apply lookup_replicate in Hs as [-> _].
  now apply lookup_replicate in Ha as [-> _].
Qed.

(** Reading inside the shape succeeds. *)
Lemma getitem_in_shape (shape : nat * nat) (T : Table) (s a : nat) :
  has_shape shape T -> (s < fst shape)%nat -> (a < snd shape)%nat ->
  exists v, getitem T s a = Ok v.
Proof.
  intros [Hl Hr] Hs Ha.
  destruct (lookup_lt_is_Some_2 T s) as [row Hrow]; [lia|].
  pose proof (Forall_lookup_1 _ _ _ _ Hr Hrow) as Hlen.
  destruct (lookup_lt_is_Some_2 row a) as [v Hv]; [simpl in *; lia|].
  exists v. apply getitem_Ok. eauto.
Qed.

(** ** The one-step rules: Q-Learning, SARSA, Expected SARSA *)

Section OneStep.
Context {S P : Type} `{Schedule nat S} `{Policy P}.
Variable mdp_info : MDPInfo.

(** What a completed Q-Learning update has read and written. *)
Lemma QLearning_update_inv (ag ag' : QLearning.agent) s a r ns ab :
  QLearning._update mdp_info ag s a r ns ab = Ok ag' ->
  exists q_current q_nxt,
    getitem (QLearning.Q ag) s a = Ok q_current /\
    QLearning.q_next ag ns ab = Ok q_nxt /\
    setitem (QLearning.Q ag) s a
      (q_current + fst (call (QLearning.alpha ag) s a None None)
                   * (r + gamma mdp_info * q_nxt - q_current))
    = Ok (QLearning.Q ag') /\
    QLearning.alpha ag' = snd (call (QLearning.alpha ag) s a None None).
Proof.
  unfold QLearning._update. intros Hu.
  inv_bind Hu. inv_bind Hu.
  destruct (call (QLearning.alpha ag) s a None None) as [al alpha'].
  inv_binds. simpl. eauto 10.
Qed.

Lemma QLearning_update_total (ag : QLearning.agent) s a r ns ab q0 qn :
  getitem (QLearning.Q ag) s a = Ok q0 ->
  QLearning.q_next ag ns ab = Ok qn ->
  exists ag', QLearning._update mdp_info ag s a r ns ab = Ok ag'.
Proof.
  intros Hq Hn. unfold QLearning._update. rewrite Hq, Hn. simpl.
  destruct (call (QLearning.alpha ag) s a None None) as [al alpha'].
  destruct (setitem_total (QLearning.Q ag) s a q0
              (q0 + al * (r + gamma mdp_info * qn - q0)) Hq) as [T' ->].
  simpl. eauto.
Qed.

Lemma SARSA_update_inv (ag ag' : SARSA.agent) s a r ns ab :
  SARSA._update mdp_info ag s a r ns ab = Ok ag' ->
  exists q_current q_nxt,
    getitem (SARSA.Q ag) s a = Ok q_current /\
    SARSA.q_next ag ns
      (fst (SARSA.draw_action ag ns)) ab
    = Ok q_nxt /\
    setitem (SARSA.Q ag) s a
      (q_current + fst (call (SARSA.alpha ag) s a None None)
                   * (r + gamma mdp_info * q_nxt - q_current))
    = Ok (SARSA.Q ag') /\
    SARSA.next_action ag'
    = Some (fst (SARSA.draw_action ag ns)).
Proof.
  unfold SARSA._update. intros Hu. inv_bind Hu.
  destruct (SARSA.draw_action ag ns) as [na pi'].
  inv_bind Hu.
  destruct (call (SARSA.alpha ag) s a None None) as [al alpha'].
  inv_binds. simpl. eauto 10.
Qed.

Lemma SARSA_update_total (ag : SARSA.agent) s a r ns ab q0 qn :
  getitem (SARSA.Q ag) s a = Ok q0 ->
  SARSA.q_next ag ns
    (fst (SARSA.draw_action ag ns)) ab = Ok qn ->
  exists ag', SARSA._update mdp_info ag s a r ns ab = Ok ag'.
Proof.
  intros Hq Hn. unfold SARSA._update. rewrite Hq. simpl.
  destruct (SARSA.draw_action ag ns) as [na pi'].
  simpl in Hn. rewrite Hn. simpl.
  destruct (call (SARSA.alpha ag) s a None None) as [al alpha'].
  destruct (setitem_total (SARSA.Q ag) s a q0
              (q0 + al * (r + gamma mdp_info * qn - q0)) Hq) as [T' ->].
  simpl. eauto.
Qed.

Lemma ExpectedSARSA_update_inv (ag ag' : ExpectedSARSA.agent) s a r ns ab :
  ExpectedSARSA._update mdp_info ag s a r ns ab = Ok ag' ->
  exists q_current q_nxt,
    getitem (ExpectedSARSA.Q ag) s a = Ok q_current /\
    ExpectedSARSA.q_next ag ns ab = Ok q_nxt /\
    setitem (ExpectedSARSA.Q ag) s a
      (q_current + fst (call (ExpectedSARSA.alpha ag) s a None None)
                   * (r + gamma mdp_info * q_nxt - q_current))
    = Ok (ExpectedSARSA.Q ag').
Proof.
  unfold ExpectedSARSA._update. intros Hu.
  inv_bind Hu. inv_bind Hu.
  destruct (call (ExpectedSARSA.alpha ag) s a None None) as [al alpha'].
  inv_binds. simpl. eauto 10.
Qed.

Lemma ExpectedSARSA_update_total (ag : ExpectedSARSA.agent)
    s a r ns ab q0 qn :
  getitem (ExpectedSARSA.Q ag) s a = Ok q0 ->
  ExpectedSARSA.q_next ag ns ab = Ok qn ->
  exists ag', ExpectedSARSA._update mdp_info ag s a r ns ab = Ok ag'.
Proof.
  intros Hq Hn. unfold ExpectedSARSA._update. rewrite Hq, Hn. simpl.
  destruct (call (ExpectedSARSA.alpha ag) s a None None) as [al alpha'].
  destruct (setitem_total (ExpectedSARSA.Q ag) s a q0
              (q0 + al * (r + gamma mdp_info * qn - q0)) Hq) as [T' ->].
  simpl. eauto.
Qed.
End OneStep.

(** C4.  Residual-update law.  For Q-Learning, SARSA and Expected SARSA:
    whenever the entry [Q(s,a)] and the bootstrap value [q_next] can be
    read, one call to [_update] returns, and the new entry is
    [Q_before(s,a) + alpha * (target - Q_before(s,a))] with
    [target = reward + gamma * q_next]; for [Q_before = 2], [alpha = 0.5],
    [reward = 1], [gamma = 0.9] and [q_next = 4] the target is 4.6 and the
    new entry is 3.3. *)
Theorem residual_update_law {S P : Type} `{Schedule nat S} `{Policy P}
    (mdp_info : MDPInfo) (s a : nat) (r : R) (ns : nat) (ab : bool) :
  (forall (ag : QLearning.agent) (q_before q_nxt : R),
     getitem (QLearning.Q ag) s a = Ok q_before ->
     QLearning.q_next ag ns ab = Ok q_nxt ->
     let al := fst (call (QLearning.alpha ag) s a None None) in
     let target := r + gamma mdp_info * q_nxt in
     exists ag',
       QLearning._update mdp_info ag s a r ns ab = Ok ag' /\
       getitem (QLearning.Q ag') s a
       = Ok (q_before + al * (target - q_before)) /\
       (q_before = 2 -> al = 0.5 -> r = 1 -> gamma mdp_info = 0.9 ->
        q_nxt = 4 ->
        target = 4.6 /\ getitem (QLearning.Q ag') s a = Ok 3.3)) /\
  (forall (ag : SARSA.agent) (q_before q_nxt : R),
     getitem (SARSA.Q ag) s a = Ok q_before ->
     SARSA.q_next ag ns
       (fst (SARSA.draw_action ag ns)) ab
     = Ok q_nxt ->
     let al := fst (call (SARSA.alpha ag) s a None None) in
     let target := r + gamma mdp_info * q_nxt in
     exists ag',
       SARSA._update mdp_info ag s a r ns ab = Ok ag' /\
       getitem (SARSA.Q ag') s a
       = Ok (q_before + al * (target - q_before)) /\
       (q_before = 2 -> al = 0.5 -> r = 1 -> gamma mdp_info = 0.9 ->
        q_nxt = 4 ->
        target = 4.6 /\ getitem (SARSA.Q ag') s a = Ok 3.3)) /\
  (forall (ag : ExpectedSARSA.agent) (q_before q_nxt : R),
     getitem (ExpectedSARSA.Q ag) s a = Ok q_before ->
     ExpectedSARSA.q_next ag ns ab = Ok q_nxt ->
     let al := fst (call (ExpectedSARSA.alpha ag) s a None None) in
     let target := r + gamma mdp_info * q_nxt in
     exists ag',
       ExpectedSARSA._update mdp_info ag s a r ns ab = Ok ag' /\
       getitem (ExpectedSARSA.Q ag') s a
       = Ok (q_before + al * (target - q_before)) /\
       (q_before = 2 -> al = 0.5 -> r = 1 -> gamma mdp_info = 0.9 ->
        q_nxt = 4 ->
        target = 4.6 /\ getitem (ExpectedSARSA.Q ag') s a = Ok 3.3)).
Proof.
  assert (literal : forall q al tg g qn : R,
             q = 2 -> al = 0.5 -> r = 1 -> g = 0.9 -> qn = 4 ->
             tg = r + g * qn -> tg = 4.6 /\ q + al * (tg - q) = 3.3)
    by (intros; subst; split; lra).
  split; [|split]; intros ag q_before q_nxt Hq Hn al target.
  - destruct (QLearning_update_total mdp_info ag s a r ns ab _ _ Hq Hn)
      as [ag' Hu].
    exists ag'. split; [exact Hu|].
    apply QLearning_update_inv in Hu as (q0 & qn & Hq' & Hn' & Hset & _).
    assert (q0 = q_before) as -> by congruence.
    assert (qn = q_nxt) as -> by congruence.
    apply getitem_setitem_eq in Hset.
    replace (q_before + al * (target - q_before))
      with (q_before + al * (r + gamma mdp_info * q_nxt - q_before))
      by reflexivity.
    split; [exact Hset|]. intros E1 E2 E3 E4 E5.
    destruct (literal q_before al target (gamma mdp_info) q_nxt)
      as [Ht Hv]; auto.
    split; [exact Ht|]. rewrite Hset. f_equal. exact Hv.
  - destruct (SARSA_update_total mdp_info ag s a r ns ab _ _ Hq Hn)
      as [ag' Hu].
    exists ag'. split; [exact Hu|].
    apply SARSA_update_inv in Hu as (q0 & qn & Hq' & Hn' & Hset & _).
    assert (q0 = q_before) as -> by congruence.
    assert (qn = q_nxt) as -> by congruence.
    apply getitem_setitem_eq in Hset.
    replace (q_before + al * (target - q_before))
      with (q_before + al * (r + gamma mdp_info * q_nxt - q_before))
      by reflexivity.
    split; [exact Hset|]. intros E1 E2 E3 E4 E5.
    destruct (literal q_before al target (gamma mdp_info) q_nxt)
      as [Ht Hv]; auto.
    split; [exact Ht|]. rewrite Hset. f_equal. exact Hv.
  - destruct (ExpectedSARSA_update_total mdp_info ag s a r ns ab _ _ Hq Hn)
      as [ag' Hu].
    exists ag'. split; [exact Hu|].
    apply ExpectedSARSA_update_inv in Hu as (q0 & qn & Hq' & Hn' & Hset).
    assert (q0 = q_before) as -> by congruence.
    assert (qn = q_nxt) as -> by congruence.
    apply getitem_setitem_eq in Hset.
    replace (q_before + al * (target - q_before))
      with (q_before + al * (r + gamma mdp_info * q_nxt - q_before))
      by reflexivity.
    split; [exact Hset|]. intros E1 E2 E3 E4 E5.
    destruct (literal q_before al target (gamma mdp_info) q_nxt)
      as [Ht Hv]; auto.
    split; [exact Ht|]. rewrite Hset. f_equal. exact Hv.
Qed.

(** The literal instance of the law, run on a store with two states and two
    actions: [Q(0,0) = 2], next state 1. *)
Lemma residual_update_law_witness :
  let mdp := {| size := (2%nat, 2%nat); gamma := 0.9 |} in
  (exists ag',
     QLearning._update mdp
       {| QLearning.Q := [[2; 0]; [4; 1]]; QLearning.alpha := [0.5] |}
       0%nat 0%nat 1 1%nat false = Ok ag' /\
     getitem (QLearning.Q ag') 0%nat 0%nat = Ok 3.3) /\
  (exists ag',
     SARSA._update mdp
       {| SARSA.Q := [[2; 0]; [1; 4]]; SARSA.alpha := [0.5];
          SARSA.policy := {| fixed_action := 1; fixed_probs := [] |};
          SARSA.next_action := None |}
       0%nat 0%nat 1 1%nat false = Ok ag' /\
     getitem (SARSA.Q ag') 0%nat 0%nat = Ok 3.3) /\
  (exists ag',
     ExpectedSARSA._update mdp
       {| ExpectedSARSA.Q := [[2; 0]; [6; 2]];
          ExpectedSARSA.alpha := [0.5];
          ExpectedSARSA.policy :=
            {| fixed_action := 0; fixed_probs := [0.5; 0.5] |} |}
       0%nat 0%nat 1 1%nat false = Ok ag' /\
     getitem (ExpectedSARSA.Q ag') 0%nat 0%nat = Ok 3.3).
Proof.
  intros mdp.
  pose proof (@residual_update_law (list R) FixedPolicy _ _ mdp
                0%nat 0%nat 1 1%nat false) as (HQ & HS & HE).
  split; [|split].
  - destruct (HQ {| QLearning.Q := [[2; 0]; [4; 1]];
                    QLearning.alpha := [0.5] |} 2 4) as (ag' & Hu & _ & L).
    + reflexivity.
    + unfold QLearning.q_next. simpl. f_equal. apply Rmax_left. lra.
    + exists ag'. split; [exact Hu|]. apply L; reflexivity.
  - destruct (HS {| SARSA.Q := [[2; 0]; [1; 4]]; SARSA.alpha := [0.5];
                    SARSA.policy :=
                      {| fixed_action := 1; fixed_probs := [] |};
                    SARSA.next_action := None |} 2 4)
      as (ag' & Hu & _ & L).
    + reflexivity.
    + reflexivity.
    + exists ag'. split; [exact Hu|]. apply L; reflexivity.
  - destruct (HE {| ExpectedSARSA.Q := [[2; 0]; [6; 2]];
                    ExpectedSARSA.alpha := [0.5];
                    ExpectedSARSA.policy :=
                      {| fixed_action := 0; fixed_probs := [0.5; 0.5] |} |}
                 2 4) as (ag' & Hu & _ & L).
    + reflexivity.
    + unfold ExpectedSARSA.q_next. simpl. unfold np.dot. simpl.
      f_equal. unfold np.sum. simpl. lra.
    + exists ag'. split; [exact Hu|]. apply L; reflexivity.
Defined.

(** ** Speedy Q-Learning *)

Lemma np_max_total (v : list R) :
  v <> [] -> exists m, np.max v = Ok m.
Proof. destruct v; [congruence | simpl; eauto]. Qed.

Lemma getrow_setitem_eq (T T' : Table) (s a : nat) (v : R) :
  setitem T s a v = Ok T' ->
  exists row, getrow T s = Ok row /\ getrow T' s = Ok (<[a := v]> row) /\
              (a < length row)%nat.
Proof.
  intros (row & v0 & Hs & Ha & ->)%setitem_Ok. exists row.
  split; [now apply getrow_Ok|]. split.
  - apply getrow_Ok, list_lookup_insert_eq. eapply lookup_lt_Some; eauto.
  - eapply lookup_lt_Some; eauto.
Qed.

(** ** The maximum of a row *)

Lemma foldl_Rmax_ge (xs : list R) :
  forall x, x <= foldl Rmax x xs /\
            (forall y, y ∈ xs -> y <= foldl Rmax x xs) /\
            (foldl Rmax x xs = x \/ foldl Rmax x xs ∈ xs).
Proof.
  induction xs as [|y ys IH]; intros x; simpl.
  - split; [lra|]. split; [|now left].
    intros y Hy. inversion Hy.
  - destruct (IH (Rmax x y)) as (H1 & H2 & H3).
    pose proof (Rmax_l x y). pose proof (Rmax_r x y).
    split; [lra|]. split.
    + intros z [->|Hz]%elem_of_cons; [lra | auto].
    + destruct H3 as [H3|H3].
      * rewrite H3. unfold Rmax. destruct (Rle_dec x y).
        -- right. left.
        -- now left.
      * right. now right.
Qed.

(** [np.max] returns an element of the array that bounds all of them. *)
Lemma np_max_spec (v : list R) (m : R) :
  np.max v = Ok m -> m ∈ v /\ forall x, x ∈ v -> x <= m.
Proof.
  destruct v as [|x xs]; simpl; [discriminate|]. intros [= <-].
  destruct (foldl_Rmax_ge xs x) as (H1 & H2 & H3). split.
  - destruct H3 as [->|H3]; [left | now right].
  - intros y [->|Hy]%elem_of_cons; auto.
Qed.

Lemma np_max_is_max (v : list R) (m : R) :
  is_max v m -> np.max v = Ok m.
Proof.
  intros [Hin Hle].
  destruct (np_max_total v) as [m' Hm'].
  { intros ->. inversion Hin. }
  rewrite Hm'. f_equal.
  destruct (np_max_spec v m' Hm') as [Hin' Hle'].
  apply Rle_antisym; auto.
Qed.

(** C3.  Speedy Q-Learning.  Let [q_cur] be the entry [Q(s,a)], and let
    [max_q_cur] and [max_q_old] be the maxima of the row of the next state
    in the current store and in the previous store (both 0 when the
    transition is absorbing).  Then the update returns; it writes
    [q_cur + alpha * (target_old - q_cur)
     + (1 - alpha) * (target_cur - target_old)] to [Q(s,a)], where
    [target_old = reward + gamma * max_q_old] is the max-bootstrap target
    of the previous store and [target_cur = reward + gamma * max_q_cur]
    that of the current one, it leaves every other entry of the current
    store as it was, and the previous store becomes the current store as
    it was before the update. *)
Theorem speedy_update_law {S : Type} `{Schedule nat S} (mdp_info : MDPInfo)
    (ag : SpeedyQLearning.agent) (s a : nat) (r : R) (ns : nat) (ab : bool)
    (row_cur row_old : list R) (max_q_cur max_q_old q_cur : R) :
  getitem (SpeedyQLearning.Q ag) s a = Ok q_cur ->
  (if ab then max_q_cur = 0 /\ max_q_old = 0
   else getrow (SpeedyQLearning.Q ag) ns = Ok row_cur /\
        is_max row_cur max_q_cur /\
        getrow (SpeedyQLearning.old_q ag) ns = Ok row_old /\
        is_max row_old max_q_old) ->
  let al := fst (call (SpeedyQLearning.alpha ag) s a None None) in
  let target_cur := r + gamma mdp_info * max_q_cur in
  let target_old := r + gamma mdp_info * max_q_old in
  exists ag',
    SpeedyQLearning._update mdp_info ag s a r ns ab = Ok ag' /\
    getitem (SpeedyQLearning.Q ag') s a
    = Ok (q_cur + al * (target_old - q_cur)
          + (1 - al) * (target_cur - target_old)) /\
    (forall s' a', (s', a') <> (s, a) ->
       getitem (SpeedyQLearning.Q ag') s' a'
       = getitem (SpeedyQLearning.Q ag) s' a') /\
    SpeedyQLearning.old_q ag' = SpeedyQLearning.Q ag.
Proof.
  intros Hq Hmax al target_cur target_old.
  assert (Hc : SpeedyQLearning.max_q (SpeedyQLearning.Q ag) ns ab
               = Ok max_q_cur /\
               SpeedyQLearning.max_q (SpeedyQLearning.old_q ag) ns ab
               = Ok max_q_old).
  { unfold SpeedyQLearning.max_q. destruct ab; simpl.
    - destruct Hmax as [-> ->]. auto.
    - destruct Hmax as (-> & Hmc & -> & Hmo). simpl.
      split; now apply np_max_is_max. }
  destruct Hc as [Hc Ho].
  unfold SpeedyQLearning._update. rewrite Hc, Ho. simpl.
  subst al. destruct (call (SpeedyQLearning.alpha ag) s a None None)
    as [al alpha']. simpl. rewrite Hq. simpl.
  destruct (setitem_total (SpeedyQLearning.Q ag) s a q_cur
              (q_cur + al * (target_old - q_cur)
               + (1 - al) * (target_cur - target_old)) Hq) as [Q' HQ'].
  subst target_cur target_old. rewrite HQ'. simpl.
  eexists. split; [reflexivity|]. simpl. split; [|split].
  - eapply getitem_setitem_eq; eauto.
  - intros s' a' Hne. eapply getitem_setitem_ne; eauto.
  - reflexivity.
Qed.

(** A store with one state and two actions whose previous snapshot
    differs from the current store; in both, the maximum of the row is
    its second entry.  With [alpha = 0.25] the two targets are 2 and 3,
    and the update writes [1 + 0.25 * (3 - 1) + 0.75 * (2 - 3) = 0.75]. *)
Lemma speedy_update_law_witness :
  let mdp := {| size := (1%nat, 2%nat); gamma := 0.5 |} in
  let ag := {| SpeedyQLearning.Q := [[1; 2]];
               SpeedyQLearning.old_q := [[0; 4]];
               SpeedyQLearning.alpha := [0.25] |} in
  exists ag',
    SpeedyQLearning._update mdp ag 0%nat 0%nat 1 0%nat false = Ok ag' /\
    getitem (SpeedyQLearning.Q ag') 0%nat 0%nat = Ok 0.75 /\
    getitem (SpeedyQLearning.Q ag') 0%nat 1%nat = Ok 2 /\
    SpeedyQLearning.old_q ag' = [[1; 2]].
Proof.
  intros mdp ag.
  destruct (speedy_update_law mdp ag 0%nat 0%nat 1 0%nat false
              [1; 2] [0; 4] 2 4 1)
    as (ag' & Hu & Hv & Hfr & Ho).
  - reflexivity.
  - simpl. repeat split; try reflexivity.
    + right. left.
    + intros x Hx. repeat (apply elem_of_cons in Hx as [->|Hx]; [lra|]).
      inversion Hx.
    + right. left.
    + intros x Hx. repeat (apply elem_of_cons in Hx as [->|Hx]; [lra|]).
      inversion Hx.
  - exists ag'. split; [exact Hu|]. split; [|split; [|exact Ho]].
    + rewrite Hv. f_equal. simpl. lra.
    + rewrite (Hfr 0%nat 1%nat) by congruence. reflexivity.
Defined.

(** ** R-Learning *)

(** C6.  R-Learning.  Whenever the entry and the bootstrap value can be
    read, the update returns and writes the residual update [q_new] to
    [Q(s,a)]; with [q_max] the maximum of the row of [s] after the write,
    [rho] becomes [rho + beta(s,a) * (reward + q_next - q_max - rho)] when
    [q_new] equals [q_max], and [rho] and the [beta] schedule are left as
    they were when it does not. *)
Theorem rlearning_rho_update {S : Type} `{Schedule nat S}
    (ag : RLearning.agent) (s a : nat) (r : R)
    (ns : nat) (ab : bool) (q_current q_nxt : R) :
  getitem (RLearning.Q ag) s a = Ok q_current ->
  RLearning.q_next ag ns ab = Ok q_nxt ->
  let rho := RLearning._rho ag in
  let al := fst (call (RLearning.alpha ag) s a None None) in
  let q_new := q_current + al * (r - rho + q_nxt - q_current) in
  exists ag' q_max,
    RLearning._update ag s a r ns ab = Ok ag' /\
    setitem (RLearning.Q ag) s a q_new = Ok (RLearning.Q ag') /\
    (let* row := getrow (RLearning.Q ag') s in np.max row) = Ok q_max /\
    (q_new = q_max ->
       RLearning._rho ag'
       = rho + fst (call (RLearning.beta ag) s a None None)
               * (r + q_nxt - q_max - rho)) /\
    (q_new <> q_max ->
       RLearning._rho ag' = rho /\ RLearning.beta ag' = RLearning.beta ag).
Proof.
  intros Hq Hn rho al q_new.
  unfold RLearning._update. rewrite Hq, Hn. simpl.
  subst q_new al rho.
  destruct (call (RLearning.alpha ag) s a None None) as [al alpha']. simpl.
  set (q_new := q_current + al * (r - RLearning._rho ag + q_nxt - q_current)).
  destruct (setitem_total (RLearning.Q ag) s a q_current q_new Hq)
    as [Q' HQ'].
  rewrite HQ'. simpl.
  destruct (getrow_setitem_eq _ _ _ _ _ HQ') as (row & _ & Hrow & Hlt).
  rewrite Hrow. simpl.
  destruct (np_max_total (<[a := q_new]> row)) as [q_max Hmax].
  { intros E. apply (f_equal length) in E. rewrite length_insert in E.
    simpl in E. lia. }
  rewrite Hmax. simpl.
  destruct (Req_dec_T q_new q_max) as [E|E].
  - destruct (call (RLearning.beta ag) s a None None) as [b beta'].
    eexists _, q_max. split; [reflexivity|]. simpl.
    rewrite Hrow. simpl.
    split; [reflexivity|].
    split; [exact Hmax|]. split; [reflexivity | contradiction].
  - eexists _, q_max. split; [reflexivity|]. simpl.
    rewrite Hrow. simpl.
    split; [reflexivity|].
    split; [exact Hmax|]. split; [contradiction | auto].
Qed.

(** The greedy-rho scenario: one state, two actions, [Q = [0, 0]], reward
    1, [beta = 0.1].  Updating action 0 makes it the new maximum and [rho]
    moves from 0 to 0.05; then updating action 1, which stays below the
    maximum, leaves [rho] at 0.05. *)
Lemma rlearning_rho_update_witness :
  let ag0 := {| RLearning.Q := [[0; 0]]; RLearning.alpha := [0.5; 0.1];
                RLearning._rho := 0; RLearning.beta := [0.1; 0.1] |} in
  let ag1 := {| RLearning.Q := [[0.5; 0]]; RLearning.alpha := [0.1];
                RLearning._rho := 0.05; RLearning.beta := [0.1] |} in
  (exists ag', RLearning._update ag0 0%nat 0%nat 1 0%nat false = Ok ag' /\
               RLearning._rho ag' = 0.05) /\
  (exists ag', RLearning._update ag1 0%nat 1%nat 1 0%nat false = Ok ag' /\
               RLearning._rho ag' = 0.05).
Proof.
  intros ag0 ag1. split.
  - destruct (rlearning_rho_update ag0 0%nat 0%nat 1 0%nat false 0 0)
      as (ag' & q_max & Hu & Hset & Hmax & Heq & _).
    + reflexivity.
    + unfold RLearning.q_next. simpl. f_equal. apply Rmax_left. lra.
    + exists ag'. split; [exact Hu|].
      simpl in Hset. injection Hset as Hset. rewrite <- Hset in Hmax.
      simpl in Hmax. injection Hmax as Hmax.
      assert (Hm : q_max = 0.5) by (rewrite <- Hmax; rewrite Rmax_left; lra).
      simpl in Heq. rewrite Heq by lra. lra.
  - destruct (rlearning_rho_update ag1 0%nat 1%nat 1 0%nat false 0 0.5)
      as (ag' & q_max & Hu & Hset & Hmax & _ & Hne).
    + reflexivity.
    + unfold RLearning.q_next. simpl. f_equal. apply Rmax_left. lra.
    + exists ag'. split; [exact Hu|].
      simpl in Hset. injection Hset as Hset. rewrite <- Hset in Hmax.
      simpl in Hmax. injection Hmax as Hmax.
      assert (Hm : q_max = 0.5) by (rewrite <- Hmax; rewrite Rmax_left; lra).
      simpl in Hne. apply Hne. lra.
Defined.

(** ** RQ-Learning *)

(** C8.  RQ-Learning configuration guard.  The constructor raises
    ValueError when both [beta] and [delta] are supplied and when neither
    is, so that no agent exists on which an update could run; with exactly
    one of the two it returns an agent holding that schedule and three
    all-zero stores. *)
Theorem rqlearning_configuration_guard {S P : Type} `{Schedule nat S}
    `{Policy P} (mdp_info : MDPInfo) (pi : P) (learning_rate : S)
    (off_policy : bool) (b d : S) :
  RQLearning.__init__ mdp_info pi learning_rate off_policy (Some b) (Some d)
  = Raise ValueError /\
  RQLearning.__init__ mdp_info pi learning_rate off_policy None None
  = Raise ValueError /\
  (exists ag,
     RQLearning.__init__ mdp_info pi learning_rate off_policy (Some b) None
     = Ok ag /\
     RQLearning.beta ag = Some b /\ RQLearning.delta ag = None /\
     RQLearning.Q ag = Table_new (size mdp_info) 0 /\
     RQLearning.Q_tilde ag = Table_new (size mdp_info) 0 /\
     RQLearning.R_tilde ag = Table_new (size mdp_info) 0) /\
  (exists ag,
     RQLearning.__init__ mdp_info pi learning_rate off_policy None (Some d)
     = Ok ag /\
     RQLearning.beta ag = None /\ RQLearning.delta ag = Some d /\
     RQLearning.Q ag = Table_new (size mdp_info) 0 /\
     RQLearning.Q_tilde ag = Table_new (size mdp_info) 0 /\
     RQLearning.R_tilde ag = Table_new (size mdp_info) 0).
Proof.
  repeat split; try reflexivity.
  - eexists. repeat split; reflexivity.
  - eexists. repeat split; reflexivity.
Qed.

Lemma setitem_unchanged_except (T T' : Table) (s a : nat) (v : R) :
  setitem T s a v = Ok T' -> unchanged_except T T' s a.
Proof. intros Hset s' a' Hne. eapply getitem_setitem_ne; eauto. Qed.

Lemma unchanged_except_refl (T : Table) (s a : nat) :
  unchanged_except T T s a.
Proof. intros s' a' _. reflexivity. Qed.

Section RQ.
Context {S P : Type} `{Schedule nat S} `{Policy P}.
Variable mdp_info : MDPInfo.

(** What a completed RQ-Learning update has read and written. *)
Lemma RQLearning_update_inv (ag ag' : RQLearning.agent) s a r ns ab :
  RQLearning._update mdp_info ag s a r ns ab = Ok ag' ->
  let al := fst (call (RQLearning.alpha ag) s a (Some r) None) in
  exists r0 rt qt,
    getitem (RQLearning.R_tilde ag) s a = Ok r0 /\
    setitem (RQLearning.R_tilde ag) s a (r0 + al * (r - r0))
    = Ok (RQLearning.R_tilde ag') /\
    getitem (RQLearning.R_tilde ag') s a = Ok rt /\
    getitem (RQLearning.Q_tilde ag') s a = Ok qt /\
    setitem (RQLearning.Q ag) s a (rt + gamma mdp_info * qt)
    = Ok (RQLearning.Q ag') /\
    (if ab then RQLearning.Q_tilde ag' = RQLearning.Q_tilde ag
     else exists nq rt q0,
         RQLearning._next_q ag ns = Ok nq /\
         RQLearning.rate ag s a al (fst (fst nq)) = Ok rt /\
         getitem (RQLearning.Q_tilde ag) s a = Ok q0 /\
         setitem (RQLearning.Q_tilde ag) s a
           (q0 + fst (fst rt) * (fst (fst nq) - q0))
         = Ok (RQLearning.Q_tilde ag')).
Proof.
  intros Hu al. subst al. unfold RQLearning._update in Hu.
  destruct (call (RQLearning.alpha ag) s a (Some r) None) as [al alpha'].
  inv_bind Hu. inv_bind Hu. inv_bind Hu.
  destruct x1 as [[[[Qt' d'] b'] p'] na'].
  inv_bind Hu. inv_bind Hu. inv_bind Hu.
  injection Hu as <-. simpl.
  exists x, x1, x2. repeat (split; [assumption|]).
  destruct ab; simpl in E1.
  - now injection E1 as <- _ _ _ _.
  - inv_bind E1. inv_bind E1. inv_bind E1. inv_bind E1.
    injection E1 as <- _ _ _ _. eauto 10.
Qed.

Lemma RQLearning_update_invariant (ag ag' : RQLearning.agent) s a r ns ab :
  RQLearning._update mdp_info ag s a r ns ab = Ok ag' ->
  rq_invariant mdp_info ag -> rq_invariant mdp_info ag'.
Proof.
  intros Hu (HQ & HQt & HRt & Hid).
  apply RQLearning_update_inv in Hu
    as (r0 & rt & qt & Hr0 & HsetR & Hrt & Hqt & HsetQ & Hab).
  assert (HQt' : has_shape (size mdp_info) (RQLearning.Q_tilde ag') /\
                 unchanged_except (RQLearning.Q_tilde ag)
                   (RQLearning.Q_tilde ag') s a).
  { destruct ab.
    - rewrite Hab. split; [assumption | apply unchanged_except_refl].
    - destruct Hab as (nq & rate & q0 & _ & _ & _ & Hset).
      split; [eapply setitem_shape; [exact HQt | exact Hset]
             | eapply setitem_unchanged_except; exact Hset]. }
  destruct HQt' as [HQt' HQtu].
  split; [eapply setitem_shape; [exact HQ | exact HsetQ]|].
  split; [exact HQt'|].
  split; [eapply setitem_shape; [exact HRt | exact HsetR]|].
  intros s' a' q' qt' rt' Hq' Hqt' Hrt'.
  destruct (decide ((s', a') = (s, a))) as [[= -> ->]|Hne].
  - apply getitem_setitem_eq in HsetQ. congruence.
  - rewrite (setitem_unchanged_except _ _ _ _ _ HsetQ _ _ Hne) in Hq'.
    rewrite (HQtu _ _ Hne) in Hqt'.
    rewrite (setitem_unchanged_except _ _ _ _ _ HsetR _ _ Hne) in Hrt'.
    eapply Hid; eauto.
Qed.

Lemma RQLearning_init_invariant (pi : P) (lr : S) off b d
    (ag : @RQLearning.agent S P) :
  RQLearning.__init__ mdp_info pi lr off b d = Ok ag ->
  rq_invariant mdp_info ag.
Proof.
  unfold RQLearning.__init__. intros Hi. inv_bind Hi.
  injection Hi as <-. simpl.
  repeat split; try apply Table_new_shape.
  intros s a q qt rt Hq Hqt Hrt.
  apply getitem_Table_new_inv in Hq, Hqt, Hrt. subst. lra.
Qed.

Lemma RQLearning_run_invariant (samples : list (Transition nat)) :
  forall ag ag' : @RQLearning.agent S P,
  run (RQLearning._update mdp_info) ag samples = Ok ag' ->
  rq_invariant mdp_info ag -> rq_invariant mdp_info ag'.
Proof.
  induction samples as [|sample rest IH]; simpl; intros ag ag' Hrun Hinv.
  - now injection Hrun as <-.
  - inv_bind Hrun. eapply IH; [exact Hrun|].
    eapply RQLearning_update_invariant; eauto.
Qed.
End RQ.

(** C10.  RQ-Learning keeps [Q = R_tilde + gamma * Q_tilde].  Along every
    run of completed updates that starts at a constructed agent, the three
    stores keep the shape of the MDP and every pair [(s, a)] inside it
    satisfies [Q(s,a) = R_tilde(s,a) + gamma * Q_tilde(s,a)]; and each
    completed update, absorbing or not and from any stores, ends with the
    identity at the updated pair and with every other entry of the three
    stores as it was. *)
Theorem rqlearning_identity_invariant {S P : Type} `{Schedule nat S}
    `{Policy P} (mdp_info : MDPInfo) :
  (forall (pi : P) (lr : S) off b d (ag0 ag : @RQLearning.agent S P)
          (samples : list (Transition nat)),
     RQLearning.__init__ mdp_info pi lr off b d = Ok ag0 ->
     run (RQLearning._update mdp_info) ag0 samples = Ok ag ->
     rq_invariant mdp_info ag /\
     forall s a, (s < fst (size mdp_info))%nat ->
                 (a < snd (size mdp_info))%nat ->
       exists q qt rt,
         getitem (RQLearning.Q ag) s a = Ok q /\
         getitem (RQLearning.Q_tilde ag) s a = Ok qt /\
         getitem (RQLearning.R_tilde ag) s a = Ok rt /\
         q = rt + gamma mdp_info * qt) /\
  (forall (ag ag' : @RQLearning.agent S P) s a r ns ab,
     RQLearning._update mdp_info ag s a r ns ab = Ok ag' ->
     (exists q qt rt,
        getitem (RQLearning.Q ag') s a = Ok q /\
        getitem (RQLearning.Q_tilde ag') s a = Ok qt /\
        getitem (RQLearning.R_tilde ag') s a = Ok rt /\
        q = rt + gamma mdp_info * qt) /\
     unchanged_except (RQLearning.Q ag) (RQLearning.Q ag') s a /\
     unchanged_except (RQLearning.Q_tilde ag) (RQLearning.Q_tilde ag') s a /\
     unchanged_except (RQLearning.R_tilde ag) (RQLearning.R_tilde ag') s a).
Proof.
  split.
  - intros pi lr off b d ag0 ag samples Hinit Hrun.
    assert (Hinv : rq_invariant mdp_info ag).
    { eapply RQLearning_run_invariant; [exact Hrun|].
      eapply RQLearning_init_invariant; exact Hinit. }
    split; [exact Hinv|]. intros s a Hs Ha.
    destruct Hinv as (HQ & HQt & HRt & Hid).
    destruct (getitem_in_shape _ _ s a HQ Hs Ha) as [q Hq].
    destruct (getitem_in_shape _ _ s a HQt Hs Ha) as [qt Hqt].
    destruct (getitem_in_shape _ _ s a HRt Hs Ha) as [rt Hrt].
    exists q, qt, rt. eauto using Hid.
  - intros ag ag' s a r ns ab Hu.
    apply RQLearning_update_inv in Hu
      as (r0 & rt & qt & Hr0 & HsetR & Hrt & Hqt & HsetQ & Hab).
    split; [|split; [|split]].
    + exists (rt + gamma mdp_info * qt), qt, rt.
      split; [eapply getitem_setitem_eq; exact HsetQ | auto].
    + eapply setitem_unchanged_except; exact HsetQ.
    + destruct ab.
      * rewrite Hab. apply unchanged_except_refl.
      * destruct Hab as (nq & rate & q0 & _ & _ & _ & Hset).
        eapply setitem_unchanged_except; exact Hset.
    + eapply setitem_unchanged_except; exact HsetR.
Qed.

(** Two updates of an off-policy agent built with a [beta] schedule, the
    second one absorbing. *)
Lemma rqlearning_identity_invariant_witness :
  let mdp := {| size := (1%nat, 2%nat); gamma := 0.5 |} in
  let pi := {| fixed_action := 0; fixed_probs := [] |} in
  let samples :=
    [ {| state := 0%nat; action := 1%nat; reward := 1;
         next_state := 0%nat; absorbing := false |};
      {| state := 0%nat; action := 0%nat; reward := 2;
         next_state := 0%nat; absorbing := true |} ] in
  exists ag0 ag : @RQLearning.agent (list R) FixedPolicy,
    RQLearning.__init__ mdp pi [0.5; 0.5] true (Some [0.5]) None = Ok ag0 /\
    run (RQLearning._update mdp) ag0 samples = Ok ag /\
    rq_invariant mdp ag.
Proof.
  intros mdp pi samples.
  assert (Hinit : exists ag0 : @RQLearning.agent (list R) FixedPolicy,
             RQLearning.__init__ mdp pi [0.5; 0.5] true (Some [0.5]) None
             = Ok ag0) by (eexists; reflexivity).
  destruct Hinit as [ag0 Hinit].
  assert (Hrun : exists ag, run (RQLearning._update mdp) ag0 samples = Ok ag).
  { injection Hinit as <-. eexists. reflexivity. }
  destruct Hrun as [ag Hrun].
  exists ag0, ag. split; [exact Hinit|]. split; [exact Hrun|].
  exact (proj1 (proj1 (rqlearning_identity_invariant mdp)
                  pi [0.5; 0.5] true (Some [0.5]) None ag0 ag samples
                  Hinit Hrun)).
Defined.

(** ** The numpy operations *)

Lemma argwhere_from_elem (v : list R) (m : R) :
  forall i a,
    a ∈ np.argwhere_from i v m <->
    exists j, a = (i + j)%nat /\ v !! j = Some m.
Proof.
  induction v as [|x xs IH]; intros i a; simpl.
  - split; [intros Hin; inversion Hin | intros (j & _ & Hj); discriminate].
  - destruct (Req_dec_T x m) as [->|Hne].
    + rewrite elem_of_cons, IH. split.
      * intros [->|(j & -> & Hj)].
        -- exists 0%nat. split; [lia | reflexivity].
        -- exists (Datatypes.S j). split; [lia | exact Hj].
      * intros ([|j] & -> & Hj).
        -- left. lia.
        -- right. exists j. split; [lia | exact Hj].
    + rewrite IH. split.
      * intros (j & -> & Hj). exists (Datatypes.S j). split; [lia | exact Hj].
      * intros ([|j] & -> & Hj).
        -- simpl in Hj. congruence.
        -- exists j. split; [lia | exact Hj].
Qed.

Lemma argwhere_from_NoDup (v : list R) (m : R) :
  forall i, NoDup (np.argwhere_from i v m).
Proof.
  induction v as [|x xs IH]; intros i; simpl.
  - constructor.
  - destruct (Req_dec_T x m); [|apply IH].
    constructor; [|apply IH].
    intros (j & Hj & _)%argwhere_from_elem. lia.
Qed.

Lemma argwhere_eq_elem (v : list R) (m : R) (a : nat) :
  a ∈ np.argwhere_eq v m <-> v !! a = Some m.
Proof.
  unfold np.argwhere_eq. rewrite argwhere_from_elem. split.
  - intros (j & -> & Hj). exact Hj.
  - intros Ha. exists a. split; [reflexivity | exact Ha].
Qed.

Lemma argwhere_max_nonempty (v : list R) (m : R) :
  np.max v = Ok m -> np.argwhere_eq v m <> [].
Proof.
  intros [Hin _]%np_max_spec.
  apply list_elem_of_lookup in Hin as [j Hj].
  apply argwhere_eq_elem in Hj. intros E. rewrite E in Hj. inversion Hj.
Qed.

(** ** Double Q-Learning *)

Lemma approximator_idx_cases (u : R) :
  (DoubleQLearning.approximator_idx u = 0%nat /\ u < 1 / 2) \/
  (DoubleQLearning.approximator_idx u = 1%nat /\ 1 / 2 <= u).
Proof.
  unfold DoubleQLearning.approximator_idx.
  destruct (Rlt_dec u (1 / 2)); [left | right]; split; auto; lra.
Qed.

(** C2.  Double Q-Learning.  With [u] the value drawn by
    [np.random.uniform()] and [k] the position drawn by
    [np.random.choice], one call to [_update]
    - selects member 0 when [u < 1/2] and member 1 when [1/2 <= u], two
      events of equal probability for a uniform [u];
    - when the transition is not absorbing, draws the bootstrap action
      among the actions that maximise [Q_i(next_state, .)]: the array of
      candidates holds exactly those actions, each once, and position [k]
      of it is the action drawn, so that a uniform position gives a
      uniform draw among the ties;
    - reads the bootstrap value in the other store, at the action drawn,
      and takes 0 when the transition is absorbing;
    - writes the residual update to [Q_i(s,a)] only, with the learning
      rate of schedule [i]; the other store and the other schedule are
      left as they were; the two schedules are two copies of the learning
      rate given at construction. *)
Theorem double_q_update {S : Type} `{Schedule nat S} (mdp_info : MDPInfo)
    (u : R) (k : nat) (ag : DoubleQLearning.agent) (s a : nat) (r : R)
    (ns : nat) (ab : bool) :
  let i := DoubleQLearning.approximator_idx u in
  ((i = 0%nat <-> u < 1 / 2) /\ (i = 1%nat <-> 1 / 2 <= u)) /\
  (forall Qi q_ss max_q,
     member (DoubleQLearning.Q ag) i = Ok Qi ->
     getrow Qi ns = Ok q_ss ->
     np.max q_ss = Ok max_q ->
     exists ties,
       DoubleQLearning.candidates ag i ns = Ok ties /\
       ties <> [] /\ NoDup ties /\
       (forall a', a' ∈ ties <-> q_ss !! a' = Some max_q) /\
       (forall x, x ∈ q_ss -> x <= max_q) /\
       (forall k' a', ties !! k' = Some a' <->
                      DoubleQLearning.a_n ag i ns k' = Ok a') /\
       (forall a', a' ∈ ties ->
          exists k', (k' < length ties)%nat /\
                     DoubleQLearning.a_n ag i ns k' = Ok a' /\
                     forall k'', DoubleQLearning.a_n ag i ns k'' = Ok a' ->
                                 k'' = k')) /\
  (DoubleQLearning.q_next ag i ns k true = Ok 0 /\
   forall a_star Qo,
     DoubleQLearning.a_n ag i ns k = Ok a_star ->
     member (DoubleQLearning.Q ag) (1 - i) = Ok Qo ->
     DoubleQLearning.q_next ag i ns k false = getitem Qo ns a_star) /\
  (forall Qi alpha_i q_current q_nxt,
     member (DoubleQLearning.Q ag) i = Ok Qi ->
     member (DoubleQLearning.alpha ag) i = Ok alpha_i ->
     getitem Qi s a = Ok q_current ->
     DoubleQLearning.q_next ag i ns k ab = Ok q_nxt ->
     exists ag' Qi',
       DoubleQLearning._update mdp_info u k ag s a r ns ab = Ok ag' /\
       setitem Qi s a
         (q_current + fst (call alpha_i s a None None)
                      * (r + gamma mdp_info * q_nxt - q_current))
       = Ok Qi' /\
       DoubleQLearning.Q ag' = <[i := Qi']> (DoubleQLearning.Q ag) /\
       DoubleQLearning.alpha ag'
       = <[i := snd (call alpha_i s a None None)]>
           (DoubleQLearning.alpha ag) /\
       DoubleQLearning.Q ag' !! (1 - i)%nat
       = DoubleQLearning.Q ag !! (1 - i)%nat /\
       DoubleQLearning.alpha ag' !! (1 - i)%nat
       = DoubleQLearning.alpha ag !! (1 - i)%nat) /\
  (forall learning_rate : S,
     exists ag0,
       DoubleQLearning.__init__ mdp_info learning_rate = Ok ag0 /\
       DoubleQLearning.alpha ag0 = [learning_rate; learning_rate] /\
       DoubleQLearning.Q ag0
       = [Table_new (size mdp_info) 0; Table_new (size mdp_info) 0]).
Proof.
  intros i.
  assert (Hi : (i = 0%nat /\ u < 1 / 2) \/ (i = 1%nat /\ 1 / 2 <= u))
    by apply approximator_idx_cases.
  split; [|split; [|split; [|split]]].
  - destruct Hi as [[-> Hu]|[-> Hu]]; repeat split; intros; auto;
      try lra; try discriminate.
  - intros Qi q_ss max_q HQi Hrow Hmax.
    exists (np.argwhere_eq q_ss max_q).
    assert (Hc : DoubleQLearning.candidates ag i ns
                 = Ok (np.argwhere_eq q_ss max_q)).
    { unfold DoubleQLearning.candidates. rewrite HQi. simpl.
      rewrite Hrow. simpl. rewrite Hmax. reflexivity. }
    assert (Han : forall k' a',
               np.argwhere_eq q_ss max_q !! k' = Some a' <->
               DoubleQLearning.a_n ag i ns k' = Ok a').
    { intros k' a'. unfold DoubleQLearning.a_n. rewrite Hc. simpl.
      unfold np.random_choice.
      destruct (np.argwhere_eq q_ss max_q !! k'); split; congruence. }
    split; [exact Hc|].
    split; [now apply argwhere_max_nonempty|].
    split; [apply argwhere_from_NoDup|].
    split; [intros a'; apply argwhere_eq_elem|].
    split; [apply np_max_spec; exact Hmax|].
    split; [exact Han|].
    intros a' Hin. apply list_elem_of_lookup in Hin as [k' Hk'].
    exists k'. split; [eapply lookup_lt_Some; exact Hk'|].
    split; [apply Han; exact Hk'|].
    intros k'' Hk''%Han.
    eapply NoDup_lookup; [apply argwhere_from_NoDup | exact Hk'' | exact Hk'].
  - split; [reflexivity|]. intros a_star Qo Han HQo.
    unfold DoubleQLearning.q_next. simpl. rewrite Han. simpl.
    rewrite HQo. reflexivity.
  - intros Qi alpha_i q_current q_nxt HQi Hal Hq Hn.
    unfold DoubleQLearning._update. fold i. cbv zeta.
    rewrite HQi. simpl. rewrite Hq. simpl. rewrite Hn. simpl.
    rewrite Hal. simpl.
    destruct (call alpha_i s a None None) as [al alpha_i']. simpl.
    destruct (setitem_total Qi s a q_current
                (q_current + al * (r + gamma mdp_info * q_nxt - q_current))
                Hq) as [Qi' HQi'].
    rewrite HQi'. simpl. eexists _, Qi'.
    split; [reflexivity|]. split; [reflexivity|]. simpl.
    split; [reflexivity|]. split; [reflexivity|].
    split; apply list_lookup_insert_ne;
      destruct Hi as [[-> _]|[-> _]]; simpl; lia.
  - intros learning_rate. eexists. split; [reflexivity|].
    split; reflexivity.
Qed.

(** A call that selects member 1 ([u = 0.75]), finds two tied maximising
    actions in [Q_1(1, .)] and draws the second ([k = 1]), reads the
    bootstrap value 9 in [Q_0] and writes 3.75 to [Q_1(0,0)]. *)
Lemma double_q_update_witness :
  let mdp := {| size := (2%nat, 2%nat); gamma := 0.5 |} in
  let ag := {| DoubleQLearning.Q := [[[1; 0]; [3; 9]]; [[2; 0]; [7; 7]]];
               DoubleQLearning.alpha := [[0.1]; [0.5]] |} in
  DoubleQLearning.approximator_idx 0.75 = 1%nat /\
  DoubleQLearning.candidates ag 1 1 = Ok [0%nat; 1%nat] /\
  DoubleQLearning.a_n ag 1 1 1 = Ok 1%nat /\
  exists ag' Q1',
    DoubleQLearning._update mdp 0.75 1 ag 0%nat 0%nat 1 1%nat false
    = Ok ag' /\
    DoubleQLearning.Q ag' = [[[1; 0]; [3; 9]]; Q1'] /\
    getitem Q1' 0%nat 0%nat = Ok 3.75 /\
    DoubleQLearning.alpha ag' = [[0.1]; []].
Proof.
  intros mdp ag.
  pose proof (double_q_update mdp 0.75 1 ag 0%nat 0%nat 1 1%nat false)
    as (HA & HB & HC & HD & _).
  assert (Hi : DoubleQLearning.approximator_idx 0.75 = 1%nat)
    by (apply HA; lra).
  cbv zeta in HB, HC, HD. rewrite Hi in HB, HC, HD.
  assert (Hc : DoubleQLearning.candidates ag 1 1 = Ok [0%nat; 1%nat]).
  { unfold DoubleQLearning.candidates, np.argwhere_eq. simpl.
    rewrite Rmax_left by lra. simpl.
    destruct (Req_dec_T 7 7) as [_|Hne]; [reflexivity | lra]. }
  destruct (HB [[2; 0]; [7; 7]] [7; 7] 7) as (ties & Hc' & _ & _ & _ & _ & Han & _).
  { reflexivity. }
  { reflexivity. }
  { simpl. f_equal. apply Rmax_left. lra. }
  assert (ties = [0%nat; 1%nat]) as -> by congruence.
  assert (Ha : DoubleQLearning.a_n ag 1 1 1 = Ok 1%nat)
    by (apply Han; reflexivity).
  split; [exact Hi|]. split; [exact Hc|]. split; [exact Ha|].
  destruct (HD [[2; 0]; [7; 7]] [0.5] 2 9) as (ag' & Q1' & Hu & Hset & HQ & Hal & _).
  { reflexivity. }
  { reflexivity. }
  { reflexivity. }
  { rewrite (proj2 HC 1%nat [[1; 0]; [3; 9]] Ha); reflexivity. }
  exists ag', Q1'. split; [exact Hu|]. split; [exact HQ|].
  split; [|exact Hal].
  apply getitem_setitem_eq in Hset. rewrite Hset. f_equal. simpl. lra.
Defined.

(** ** Weighted Q-Learning *)

Lemma new_sigma_floor (n m m2 wv : R) :
  sqrt 1e-10 <= WeightedQLearning.new_sigma n m m2 wv.
Proof.
  unfold WeightedQLearning.new_sigma. apply sqrt_le_1_alt, Rmax_r.
Qed.

(** A target sequence without variance puts the estimator at the floor. *)
Lemma new_sigma_degenerate (n m wv : R) :
  WeightedQLearning.new_sigma n m (m ^ 2) wv = sqrt 1e-10.
Proof.
  unfold WeightedQLearning.new_sigma. f_equal.
  replace (n * (m ^ 2 - m ^ 2) / (n - 1) * wv) with 0
    by (unfold Rdiv; ring).
  apply Rmax_right. lra.
Qed.

Lemma initial_sigma_floor : sqrt 1e-10 <= 1e10.
Proof.
  apply Rle_trans with (sqrt 1); [apply sqrt_le_1_alt; lra|].
  rewrite sqrt_1. lra.
Qed.

Lemma above_floor_getitem (T : Table) :
  above_floor T <->
  forall s a x, getitem T s a = Ok x -> sqrt 1e-10 <= x.
Proof.
  unfold above_floor. rewrite Forall_lookup. split.
  - intros HT s a x (row & Hs & Ha)%getitem_Ok.
    specialize (HT s row Hs). rewrite Forall_lookup in HT. eauto.
  - intros HT s row Hs. apply Forall_lookup. intros a x Ha.
    apply (HT s a x), getitem_Ok. eauto.
Qed.

Lemma above_floor_setitem (T T' : Table) (s a : nat) (v : R) :
  above_floor T -> sqrt 1e-10 <= v -> setitem T s a v = Ok T' ->
  above_floor T'.
Proof.
  intros HT Hv (row & v0 & Hs & Ha & ->)%setitem_Ok.
  apply Forall_insert; [exact HT|].
  apply Forall_insert; [|exact Hv].
  unfold above_floor in HT. rewrite Forall_lookup in HT. eauto.
Qed.

Lemma above_floor_new (shape : nat * nat) :
  above_floor (Table_new shape 1e10).
Proof.
  apply Forall_replicate, Forall_replicate, initial_sigma_floor.
Qed.

Section Weighted.
Context {S : Type} `{Schedule nat S}.
Variable mdp_info : MDPInfo.

(** [_next_q] only records the weights and, with the weighted policy,
    the next action. *)
Lemma Weighted_next_q_frame (d : Draws) (ag ag1 : @WeightedQLearning.agent S)
    ns q :
  WeightedQLearning._next_q mdp_info d ag ns = Ok (q, ag1) ->
  WeightedQLearning.Q ag1 = WeightedQLearning.Q ag /\
  WeightedQLearning.alpha ag1 = WeightedQLearning.alpha ag /\
  WeightedQLearning._sigma ag1 = WeightedQLearning._sigma ag /\
  WeightedQLearning._sampling ag1 = WeightedQLearning._sampling ag /\
  WeightedQLearning._sampling ag = true.
Proof.
  unfold WeightedQLearning._next_q. intros Hn.
  inv_bind Hn. inv_bind Hn. inv_bind Hn. inv_bind Hn.
  injection Hn as _ <-. simpl. repeat split.
  destruct (WeightedQLearning._sampling ag); [reflexivity | discriminate].
Qed.

Lemma Weighted_bootstrap_frame d (ag ag1 : @WeightedQLearning.agent S)
    ns ab q :
  WeightedQLearning.q_next mdp_info d ag ns ab = Ok (q, ag1) ->
  WeightedQLearning.Q ag1 = WeightedQLearning.Q ag /\
  WeightedQLearning.alpha ag1 = WeightedQLearning.alpha ag /\
  WeightedQLearning._sigma ag1 = WeightedQLearning._sigma ag /\
  WeightedQLearning._sampling ag1 = WeightedQLearning._sampling ag.
Proof.
  unfold WeightedQLearning.q_next. destruct ab; simpl.
  - intros [= _ <-]. auto.
  - intros Hn. apply Weighted_next_q_frame in Hn. tauto.
Qed.

(** What a completed Weighted Q-Learning update has read and written. *)
Lemma Weighted_update_inv d (ag ag' : @WeightedQLearning.agent S)
    s a r ns ab :
  WeightedQLearning._update mdp_info d ag s a r ns ab = Ok ag' ->
  exists q_current q_nxt ag1,
    getitem (WeightedQLearning.Q ag) s a = Ok q_current /\
    WeightedQLearning.q_next mdp_info d ag ns ab = Ok (q_nxt, ag1) /\
    setitem (WeightedQLearning.Q ag) s a
      (q_current + fst (call (WeightedQLearning.alpha ag) s a None None)
                   * (r + gamma mdp_info * q_nxt - q_current))
    = Ok (WeightedQLearning.Q ag') /\
    (WeightedQLearning._sigma ag' = WeightedQLearning._sigma ag \/
     exists n m m2 wv,
       setitem (WeightedQLearning._sigma ag) s a
         (WeightedQLearning.new_sigma n m m2 wv)
       = Ok (WeightedQLearning._sigma ag')).
Proof.
  unfold WeightedQLearning._update. intros Hu.
  inv_bind Hu. inv_bind Hu. destruct x0 as [q_nxt ag1].
  destruct (Weighted_bootstrap_frame _ _ _ _ _ _ E0)
    as (HQ & Hal & Hsg & _).
  cbn [fst snd] in Hu. rewrite HQ, Hal, Hsg in Hu.
  destruct (call (WeightedQLearning.alpha ag) s a None None)
    as [al alpha'].
  do 10 inv_bind Hu. inv_bind Hu. injection Hu as <-. simpl.
  exists x, q_nxt, ag1. repeat (split; [assumption|]).
  destruct (Rlt_dec 1 x3).
  - right. inv_bind E11. inv_bind E11. inv_bind E11. eauto.
  - left. now injection E11 as <-.
Qed.

Lemma Weighted_update_floor d (ag ag' : @WeightedQLearning.agent S)
    s a r ns ab :
  WeightedQLearning._update mdp_info d ag s a r ns ab = Ok ag' ->
  above_floor (WeightedQLearning._sigma ag) ->
  above_floor (WeightedQLearning._sigma ag').
Proof.
  intros Hu Hinv.
  apply Weighted_update_inv in Hu
    as (q0 & qn & ag1 & _ & _ & _ & [->|(n & m & m2 & wv & Hset)]).
  - exact Hinv.
  - eapply above_floor_setitem; [exact Hinv | | exact Hset].
    apply new_sigma_floor.
Qed.

Lemma Weighted_run_floor (steps : list (Draws * Transition nat)) :
  forall ag ag' : @WeightedQLearning.agent S,
  weighted_run mdp_info ag steps = Ok ag' ->
  above_floor (WeightedQLearning._sigma ag) ->
  above_floor (WeightedQLearning._sigma ag').
Proof.
  induction steps as [|[d sample] rest IH]; simpl; intros ag ag' Hrun Hinv.
  - now injection Hrun as <-.
  - inv_bind Hrun. eapply IH; [exact Hrun|].
    eapply Weighted_update_floor; eauto.
Qed.
End Weighted.

Section WeightedShape.
Context {S : Type} `{Schedule nat S}.
Variable mdp_info : MDPInfo.

Lemma Weighted_run_shape (steps : list (Draws * Transition nat)) :
  forall ag ag' : @WeightedQLearning.agent S,
  weighted_run mdp_info ag steps = Ok ag' ->
  has_shape (size mdp_info) (WeightedQLearning._sigma ag) ->
  has_shape (size mdp_info) (WeightedQLearning._sigma ag').
Proof.
  induction steps as [|[d sample] rest IH]; simpl; intros ag ag' Hrun Hinv.
  - now injection Hrun as <-.
  - inv_bind Hrun. eapply IH; [exact Hrun|].
    apply Weighted_update_inv in E
      as (q0 & qn & ag1 & _ & _ & _ & [->|(n & m & m2 & wv & Hset)]).
    + exact Hinv.
    + eapply setitem_shape; [exact Hinv | exact Hset].
Qed.
End WeightedShape.

(** C7.  Weighted Q-Learning variance floor.  Along every run of completed
    updates that starts at a constructed agent, whatever the transitions
    and the values drawn, the [sigma] store keeps the shape of the MDP and
    each of its entries is at least [sqrt 1e-10]; a recomputation from a
    target sequence without variance gives exactly [sqrt 1e-10]. *)
Theorem weighted_sigma_floor {S : Type} `{Schedule nat S}
    (mdp_info : MDPInfo) :
  (forall (learning_rate : S) sampling precision weighted_policy
          (ag0 ag : @WeightedQLearning.agent S)
          (steps : list (Draws * Transition nat)),
     WeightedQLearning.__init__ mdp_info learning_rate sampling precision
       weighted_policy = Ok ag0 ->
     weighted_run mdp_info ag0 steps = Ok ag ->
     (forall s a x, getitem (WeightedQLearning._sigma ag) s a = Ok x ->
                    sqrt 1e-10 <= x) /\
     (forall s a, (s < fst (size mdp_info))%nat ->
                  (a < snd (size mdp_info))%nat ->
        exists x, getitem (WeightedQLearning._sigma ag) s a = Ok x /\
                  sqrt 1e-10 <= x)) /\
  (forall n m wv : R,
     WeightedQLearning.new_sigma n m (m ^ 2) wv = sqrt 1e-10).
Proof.
  split; [|apply new_sigma_degenerate].
  intros lr sampling precision wp ag0 ag steps Hinit Hrun.
  injection Hinit as <-.
  assert (Hfloor : forall s a x,
             getitem (WeightedQLearning._sigma ag) s a = Ok x ->
             sqrt 1e-10 <= x).
  { apply above_floor_getitem.
    eapply Weighted_run_floor; [exact Hrun|]. apply above_floor_new. }
  split; [exact Hfloor|]. intros s a Hs Ha.
  assert (Hshape : has_shape (size mdp_info) (WeightedQLearning._sigma ag)).
  { eapply Weighted_run_shape; [exact Hrun|]. apply Table_new_shape. }
  destruct (getitem_in_shape _ _ s a Hshape Hs Ha) as [x Hx].
  exists x. split; [exact Hx | eapply Hfloor; exact Hx].
Qed.

(** A non-absorbing update, whose bootstrap value comes from two sampled
    trials, followed by an absorbing update of the same pair, which
    recomputes [sigma(0,0)]. *)
Lemma weighted_sigma_floor_witness :
  let mdp := {| size := (1%nat, 2%nat); gamma := 0.5 |} in
  let d := {| normal := fun _ _ => 0; choice := 0%nat |} in
  let steps :=
    [ (d, {| state := 0%nat; action := 0%nat; reward := 1;
             next_state := 0%nat; absorbing := false |});
      (d, {| state := 0%nat; action := 0%nat; reward := 1;
             next_state := 0%nat; absorbing := true |}) ] in
  exists ag0 ag : @WeightedQLearning.agent (list R),
    WeightedQLearning.__init__ mdp [0.5; 0.5] true 2 false = Ok ag0 /\
    weighted_run mdp ag0 steps = Ok ag /\
    forall s a x, getitem (WeightedQLearning._sigma ag) s a = Ok x ->
                  sqrt 1e-10 <= x.
Proof.
  intros mdp d steps.
  assert (Hinit : exists ag0 : @WeightedQLearning.agent (list R),
             WeightedQLearning.__init__ mdp [0.5; 0.5] true 2 false
             = Ok ag0) by (eexists; reflexivity).
  destruct Hinit as [ag0 Hinit].
  assert (Hrun : exists ag, weighted_run mdp ag0 steps = Ok ag).
  { injection Hinit as <-. eexists.
    unfold steps, weighted_run, fit, WeightedQLearning._update,
      WeightedQLearning.q_next, WeightedQLearning._next_q,
      WeightedQLearning.weights, np.argmax, np.argwhere_eq.
    simpl.
    destruct (Rlt_dec 1e10 0) as [Hlt|_]; [lra|]. simpl.
    rewrite Rmax_left by lra. simpl.
    destruct (Req_dec_T (0 + 1e10 * 0) (0 + 1e10 * 0)) as [_|Hne];
      [|lra].
    simpl.
    destruct (Rlt_dec 1 (0 + 1)) as [Hlt|_]; [lra|]. simpl.
    destruct (Rlt_dec 1 (0 + 1 + 1)) as [_|Hge]; [|lra]. simpl.
    reflexivity. }
  destruct Hrun as [ag Hrun].
  exists ag0, ag. split; [exact Hinit|]. split; [exact Hrun|].
  exact (proj1 (proj1 (weighted_sigma_floor mdp) [0.5; 0.5] true 2%nat
                  false ag0 ag steps Hinit Hrun)).
Defined.

Section WeightedSampling.
Context {S : Type} `{Schedule nat S}.
Variable mdp_info : MDPInfo.

(** Without sampling, [_next_q] raises NotImplementedError as soon as
    the means and the deviations have been read. *)
Lemma Weighted_next_q_not_supported d (ag : @WeightedQLearning.agent S)
    ns means sigmas :
  WeightedQLearning._sampling ag = false ->
  getrow (WeightedQLearning.Q ag) ns = Ok means ->
  mapM (fun a => getitem (WeightedQLearning._sigma ag) ns a)
       (seq 0 (n_actions mdp_info)) = Ok sigmas ->
  WeightedQLearning._next_q mdp_info d ag ns = Raise NotImplementedError.
Proof.
  intros Hs Hm Hsg. unfold WeightedQLearning._next_q.
  rewrite Hm. simpl. rewrite Hsg. simpl. rewrite Hs. reflexivity.
Qed.

Lemma Weighted_update_needs_sampling d (ag ag' : @WeightedQLearning.agent S)
    s a r ns :
  WeightedQLearning._update mdp_info d ag s a r ns false = Ok ag' ->
  WeightedQLearning._sampling ag = true.
Proof.
  intros Hu.
  apply Weighted_update_inv in Hu as (q0 & qn & ag1 & _ & Hn & _).
  unfold WeightedQLearning.q_next in Hn. simpl in Hn.
  apply Weighted_next_q_frame in Hn. tauto.
Qed.

(** An absorbing update inside the shape of the stores returns, whatever
    the value of the sampling flag. *)
Lemma Weighted_update_absorbing_total d (ag : @WeightedQLearning.agent S)
    s a r ns :
  has_shape (size mdp_info) (WeightedQLearning.Q ag) ->
  has_shape (size mdp_info) (WeightedQLearning._n_updates ag) ->
  has_shape (size mdp_info) (WeightedQLearning._sigma ag) ->
  has_shape (size mdp_info) (WeightedQLearning._Q ag) ->
  has_shape (size mdp_info) (WeightedQLearning._Q2 ag) ->
  has_shape (size mdp_info) (WeightedQLearning._weights_var ag) ->
  (s < fst (size mdp_info))%nat -> (a < snd (size mdp_info))%nat ->
  exists ag', WeightedQLearning._update mdp_info d ag s a r ns true = Ok ag'.
Proof.
  intros HQ HN HSg HM HM2 HWV Hs Ha.
  unfold WeightedQLearning._update, WeightedQLearning.q_next. simpl.
  destruct (getitem_in_shape _ _ s a HQ Hs Ha) as [q Hq].
  destruct (getitem_in_shape _ _ s a HN Hs Ha) as [n0 Hn0].
  destruct (getitem_in_shape _ _ s a HSg Hs Ha) as [sg Hsg].
  destruct (getitem_in_shape _ _ s a HM Hs Ha) as [m0 Hm0].
  destruct (getitem_in_shape _ _ s a HM2 Hs Ha) as [m20 Hm20].
  destruct (getitem_in_shape _ _ s a HWV Hs Ha) as [wv0 Hwv0].
  rewrite Hq. simpl.
  destruct (call (WeightedQLearning.alpha ag) s a None None)
    as [al alpha'].
  destruct (setitem_total _ s a q
              (q + al * (r + gamma mdp_info * 0 - q)) Hq) as [Q' ->].
  simpl. rewrite Hn0. simpl.
  destruct (setitem_total _ s a n0 (n0 + 1) Hn0) as [N' HN'].
  rewrite HN'. simpl.
  rewrite (getitem_setitem_eq _ _ _ _ _ HN'). simpl.
  rewrite Hm0. simpl.
  match goal with |- context [setitem (WeightedQLearning._Q ag) s a ?v] =>
    destruct (setitem_total _ s a m0 v Hm0) as [M' HM'] end.
  rewrite HM'. simpl. rewrite Hm20. simpl.
  match goal with |- context [setitem (WeightedQLearning._Q2 ag) s a ?v] =>
    destruct (setitem_total _ s a m20 v Hm20) as [M2' HM2'] end.
  rewrite HM2'. simpl. rewrite Hwv0. simpl.
  match goal with
  | |- context [setitem (WeightedQLearning._weights_var ag) s a ?v] =>
    destruct (setitem_total _ s a wv0 v Hwv0) as [WV' HWV'] end.
  rewrite HWV'. simpl.
  destruct (Rlt_dec 1 (n0 + 1)).
  - rewrite (getitem_setitem_eq _ _ _ _ _ HM'). simpl.
    rewrite (getitem_setitem_eq _ _ _ _ _ HM2'). simpl.
    rewrite (getitem_setitem_eq _ _ _ _ _ HWV'). simpl.
    match goal with
    | |- context [setitem (WeightedQLearning._sigma ag) s a ?v] =>
      destruct (setitem_total _ s a sg v Hsg) as [Sg' ->] end.
    simpl. eauto.
  - simpl. eauto.
Qed.
End WeightedSampling.

(** C9, as the code has it.  With [sampling=False] the constructor returns
    an agent; the unsupported estimator is signalled by [_next_q]: an
    update of a non-absorbing transition never completes, and it raises
    NotImplementedError once the entry [Q(s,a)], the means and the
    deviations of the next state have been read; an update of an absorbing
    transition inside the shape of the stores does not consult the
    estimator and returns. *)
Theorem weighted_non_sampling_mode {S : Type} `{Schedule nat S}
    (mdp_info : MDPInfo) :
  (forall (learning_rate : S) precision weighted_policy,
     exists ag0,
       WeightedQLearning.__init__ mdp_info learning_rate false precision
         weighted_policy = Ok ag0 /\
       WeightedQLearning._sampling ag0 = false) /\
  (forall d (ag : @WeightedQLearning.agent S) s a r ns,
     WeightedQLearning._sampling ag = false ->
     (forall ag',
        WeightedQLearning._update mdp_info d ag s a r ns false <> Ok ag') /\
     (forall q means sigmas,
        getitem (WeightedQLearning.Q ag) s a = Ok q ->
        getrow (WeightedQLearning.Q ag) ns = Ok means ->
        mapM (fun a => getitem (WeightedQLearning._sigma ag) ns a)
             (seq 0 (n_actions mdp_info)) = Ok sigmas ->
        WeightedQLearning._update mdp_info d ag s a r ns false
        = Raise NotImplementedError)) /\
  (forall d (learning_rate : S) precision weighted_policy ag0 s a r ns,
     WeightedQLearning.__init__ mdp_info learning_rate false precision
       weighted_policy = Ok ag0 ->
     (s < fst (size mdp_info))%nat -> (a < snd (size mdp_info))%nat ->
     exists ag',
       WeightedQLearning._update mdp_info d ag0 s a r ns true = Ok ag').
Proof.
  split; [|split].
  - intros lr precision wp. eexists. split; reflexivity.
  - intros d ag s a r ns Hs. split.
    + intros ag' Hu. apply Weighted_update_needs_sampling in Hu. congruence.
    + intros q means sigmas Hq Hm Hsg.
      unfold WeightedQLearning._update, WeightedQLearning.q_next.
      rewrite Hq. simpl.
      now rewrite (Weighted_next_q_not_supported _ d ag ns means sigmas).
  - intros d lr precision wp ag0 s a r ns Hinit Hs Ha.
    injection Hinit as <-.
    apply Weighted_update_absorbing_total; simpl;
      auto using Table_new_shape.
Qed.

(** An agent built without sampling on one state and two actions: its
    first non-absorbing update raises NotImplementedError, an absorbing
    one returns. *)
Lemma weighted_non_sampling_mode_witness :
  let mdp := {| size := (1%nat, 2%nat); gamma := 0.5 |} in
  let d := {| normal := fun _ _ => 0; choice := 0%nat |} in
  exists ag0 : @WeightedQLearning.agent (list R),
    WeightedQLearning.__init__ mdp [0.5] false 1000 false = Ok ag0 /\
    WeightedQLearning._update mdp d ag0 0%nat 0%nat 1 0%nat false
    = Raise NotImplementedError /\
    exists ag',
      WeightedQLearning._update mdp d ag0 0%nat 0%nat 1 0%nat true = Ok ag'.
Proof.
  intros mdp d.
  destruct (weighted_non_sampling_mode (S := list R) mdp)
    as (Hinit & Hraise & Hab).
  destruct (Hinit [0.5] 1000%nat false) as (ag0 & Hag0 & Hs).
  exists ag0. split; [exact Hag0|]. split.
  - apply (proj2 (Hraise d ag0 0%nat 0%nat 1 0%nat Hs) 0 [0; 0] [1e10; 1e10]);
      injection Hag0 as <-; reflexivity.
  - apply (Hab d [0.5] 1000%nat false ag0 0%nat 0%nat 1 0%nat Hag0);
      simpl; lia.
Defined.

(** C9 as stated fails: an agent configured with [sampling=False] is
    constructed without any error, and an update runs on it. *)
Lemma weighted_non_sampling_construction_succeeds :
  let mdp := {| size := (1%nat, 2%nat); gamma := 0.5 |} in
  let d := {| normal := fun _ _ => 0; choice := 0%nat |} in
  exists ag0 ag1 : @WeightedQLearning.agent (list R),
    WeightedQLearning.__init__ mdp [0.5] false 1000 false = Ok ag0 /\
    WeightedQLearning._sampling ag0 = false /\
    WeightedQLearning._update mdp d ag0 0%nat 0%nat 1 0%nat true = Ok ag1.
Proof.
  intros mdp d. eexists. eexists.
  split; [reflexivity|]. split; [reflexivity|].
  unfold WeightedQLearning._update. simpl.
  destruct (Rlt_dec 1 (0 + 1)) as [Hlt|_]; [lra|]. reflexivity.
Qed.

(** ** Vectors and whole-store arithmetic *)

Lemma row_add_Ok (u v w : list R) :
  row_add u v = Ok w <-> length u = length v /\ w = zip_with Rplus u v.
Proof.
  unfold row_add. destruct (Nat.eqb_spec (length u) (length v)); split.
  - intros [= <-]. auto.
  - intros [_ ->]. reflexivity.
  - discriminate.
  - intros [E _]. contradiction.
Qed.














(** ** What the other rules read and write *)

Section TabularInversions.
Context {S P : Type} `{Schedule nat S} `{Policy P}.
Variable mdp_info : MDPInfo.

Lemma DoubleQLearning_update_inv u k (ag ag' : @DoubleQLearning.agent S)
    s a r ns ab :
  DoubleQLearning._update mdp_info u k ag s a r ns ab = Ok ag' ->
  let i := DoubleQLearning.approximator_idx u in
  exists Qi Qi' alpha_i q_current q_nxt,
    member (DoubleQLearning.Q ag) i = Ok Qi /\
    member (DoubleQLearning.alpha ag) i = Ok alpha_i /\
    getitem Qi s a = Ok q_current /\
    DoubleQLearning.q_next ag i ns k ab = Ok q_nxt /\
    setitem Qi s a
      (q_current + fst (call alpha_i s a None None)
                   * (r + gamma mdp_info * q_nxt - q_current))
    = Ok Qi' /\
    DoubleQLearning.Q ag' = <[i := Qi']> (DoubleQLearning.Q ag).
Proof.
  intros Hu i. unfold DoubleQLearning._update in Hu. fold i in Hu.
  cbv zeta in Hu.
  inv_bind Hu. inv_bind Hu. inv_bind Hu. inv_bind Hu.
  destruct (call x2 s a None None) as [al alpha_i'] eqn:Hc.
  inv_bind Hu. injection Hu as <-. simpl.
  exists x, x3, x2, x0, x1. rewrite Hc. simpl. auto 10.
Qed.

Lemma SpeedyQLearning_update_inv (ag ag' : @SpeedyQLearning.agent S)
    s a r ns ab :
  SpeedyQLearning._update mdp_info ag s a r ns ab = Ok ag' ->
  exists max_q_cur max_q_old q_cur,
    SpeedyQLearning.max_q (SpeedyQLearning.Q ag) ns ab = Ok max_q_cur /\
    SpeedyQLearning.max_q (SpeedyQLearning.old_q ag) ns ab
    = Ok max_q_old /\
    getitem (SpeedyQLearning.Q ag) s a = Ok q_cur /\
    setitem (SpeedyQLearning.Q ag) s a
      (q_cur
       + fst (call (SpeedyQLearning.alpha ag) s a None None)
         * (r + gamma mdp_info * max_q_old - q_cur)
       + (1 - fst (call (SpeedyQLearning.alpha ag) s a None None))
         * (r + gamma mdp_info * max_q_cur
            - (r + gamma mdp_info * max_q_old)))
    = Ok (SpeedyQLearning.Q ag').
Proof.
  unfold SpeedyQLearning._update. intros Hu.
  inv_bind Hu. inv_bind Hu.
  destruct (call (SpeedyQLearning.alpha ag) s a None None)
    as [al alpha'].
  inv_bind Hu. inv_bind Hu. injection Hu as <-. simpl.
  exists x, x0, x1. auto.
Qed.

Lemma SARSALambdaDiscrete_update_inv
    (ag ag' : @SARSALambdaDiscrete.agent S P) s a r ns ab :
  SARSALambdaDiscrete._update mdp_info ag s a r ns ab = Ok ag' ->
  exists q_current q_nxt e1,
    getitem (SARSALambdaDiscrete.Q ag) s a = Ok q_current /\
    SARSALambdaDiscrete.q_next ag ns
      (fst (SARSALambdaDiscrete.draw_action ag ns)) ab = Ok q_nxt /\
    EligibilityTrace.update (SARSALambdaDiscrete.trace ag)
      (SARSALambdaDiscrete.e ag) s a = Ok e1 /\
    table_add (SARSALambdaDiscrete.Q ag)
      (table_scale
         (fst (call (SARSALambdaDiscrete.alpha ag) s a None None)
          * (r + gamma mdp_info * q_nxt - q_current)) e1)
    = Ok (SARSALambdaDiscrete.Q ag') /\
    SARSALambdaDiscrete.e ag'
    = table_scale (gamma mdp_info * SARSALambdaDiscrete._lambda ag) e1.
Proof.
  unfold SARSALambdaDiscrete._update. intros Hu. inv_bind Hu.
  destruct (SARSALambdaDiscrete.draw_action ag ns) as [na pi'].
  inv_bind Hu. inv_bind Hu.
  destruct (call (SARSALambdaDiscrete.alpha ag) s a None None)
    as [al alpha'].
  inv_bind Hu. injection Hu as <-. simpl.
  exists x, x0, x1. auto.
Qed.

Lemma RLearning_update_inv (ag ag' : @RLearning.agent S) s a r ns ab :
  RLearning._update ag s a r ns ab = Ok ag' ->
  exists q_current q_nxt,
    getitem (RLearning.Q ag) s a = Ok q_current /\
    RLearning.q_next ag ns ab = Ok q_nxt /\
    setitem (RLearning.Q ag) s a
      (q_current + fst (call (RLearning.alpha ag) s a None None)
                   * (r - RLearning._rho ag + q_nxt - q_current))
    = Ok (RLearning.Q ag').
Proof.
  unfold RLearning._update. intros Hu. inv_bind Hu. inv_bind Hu.
  destruct (call (RLearning.alpha ag) s a None None) as [al alpha'].
  inv_bind Hu. inv_bind Hu. inv_bind Hu.
  exists x, x0. repeat (split; [assumption|]). simpl.
  destruct (Req_dec_T _ _).
  - destruct (call (RLearning.beta ag) s a None None) as [b beta'].
    now injection Hu as <-.
  - now injection Hu as <-.
Qed.
End TabularInversions.

Section RegressorInversions.
Context {St S P : Type} `{Schedule St S} `{Approximator St}
        `{RegressorPolicy St P}.
Variable mdp_info : MDPInfo.

Lemma SARSALambdaContinuous_update_inv
    (ag ag' : @SARSALambdaContinuous.agent S P) (s : St) a r (ns : St) ab :
  SARSALambdaContinuous._update mdp_info ag s a r ns ab = Ok ag' ->
  let q_current := predict (SARSALambdaContinuous.weights ag) (phi s) a in
  let q_nxt :=
    SARSALambdaContinuous.q_next ag ns
      (fst (SARSALambdaContinuous.draw_action ag ns)) ab in
  exists e',
    np.add (np.scale (gamma mdp_info * SARSALambdaContinuous._lambda ag)
              (SARSALambdaContinuous.e ag))
           (diff (SARSALambdaContinuous.weights ag) (phi s) a) = Ok e' /\
    np.iadd (SARSALambdaContinuous.weights ag)
      (np.scale
         (fst (call (SARSALambdaContinuous.alpha ag) s a None None)
          * (r + gamma mdp_info * q_nxt - q_current)) e')
    = Ok (SARSALambdaContinuous.weights ag') /\
    SARSALambdaContinuous.e ag' = e'.
Proof.
  intros Hu q_current q_nxt. subst q_current q_nxt.
  unfold SARSALambdaContinuous._update in Hu. cbv zeta in Hu.
  destruct (call (SARSALambdaContinuous.alpha ag) s a None None)
    as [al alpha'].
  inv_bind Hu.
  destruct (SARSALambdaContinuous.draw_action ag ns) as [na pi'].
  inv_bind Hu. injection Hu as <-. simpl. eauto.
Qed.

Lemma TrueOnlineSARSALambda_update_inv
    (ag ag' : @TrueOnlineSARSALambda.agent S P) (s : St) a r (ns : St) ab :
  TrueOnlineSARSALambda._update mdp_info ag s a r ns ab = Ok ag' ->
  let phi_sa := get_action_features (phi s) a (n_actions mdp_info) in
  let q_current := predict (TrueOnlineSARSALambda.weights ag) (phi s) a in
  let q_old := match TrueOnlineSARSALambda._q_old ag with
               | Some q => q
               | None => q_current
               end in
  let al := fst (call (TrueOnlineSARSALambda.alpha ag) s a None None) in
  let gl := gamma mdp_info * TrueOnlineSARSALambda._lambda ag in
  let q_nxt :=
    TrueOnlineSARSALambda.q_next ag ns
      (fst (TrueOnlineSARSALambda.draw_action ag ns)) ab in
  exists e_phi e' step,
    np.dot (TrueOnlineSARSALambda.e ag) phi_sa = Ok e_phi /\
    np.add (np.scale gl (TrueOnlineSARSALambda.e ag))
           (np.scale (al * (1 - gl * e_phi)) phi_sa) = Ok e' /\
    np.add (np.scale (r + gamma mdp_info * q_nxt - q_old) e')
           (np.scale (al * (q_old - q_current)) phi_sa) = Ok step /\
    np.iadd (TrueOnlineSARSALambda.weights ag) step
    = Ok (TrueOnlineSARSALambda.weights ag') /\
    TrueOnlineSARSALambda._q_old ag' = Some q_nxt /\
    TrueOnlineSARSALambda.e ag' = e'.
Proof.
  intros Hu phi_sa q_current q_old al gl q_nxt.
  subst phi_sa q_current q_old al gl q_nxt.
  unfold TrueOnlineSARSALambda._update in Hu. cbv zeta in Hu.
  destruct (call (TrueOnlineSARSALambda.alpha ag) s a None None)
    as [al alpha'].
  inv_bind Hu. inv_bind Hu.
  destruct (TrueOnlineSARSALambda.draw_action ag ns) as [na pi'].
  inv_bind Hu. inv_bind Hu. injection Hu as <-. simpl. eauto 10.
Qed.
End RegressorInversions.

(** ** Absorbing transitions *)

(** C5, as the code has it.  On an absorbing transition the bootstrap term
    of every rule but RQ-Learning is 0 whatever the stores hold, and a
    completed update has written the value of the rule's formula with 0 in
    the place of the bootstrap term: Q-Learning, Double Q-Learning,
    Weighted Q-Learning, SARSA, Expected SARSA and R-Learning write the
    residual update with [q_next = 0]; Speedy Q-Learning uses 0 for both
    maxima; the two SARSA(lambda) rules and True Online SARSA(lambda) use
    the TD error computed with [q_next = 0], and True Online
    SARSA(lambda) keeps 0 as its previous Q.  RQ-Learning computes no
    bootstrap term on an absorbing transition: it leaves [Q_tilde] as it
    is and recomputes [Q(s,a)] as [R_tilde(s,a) + gamma * Q_tilde(s,a)]
    from the stored [Q_tilde(s,a)]. *)
Theorem absorbing_zero_bootstrap {St S P PW : Type} `{Schedule nat S}
    `{Schedule St S} `{Policy P} `{Approximator St}
    `{RegressorPolicy St PW} (mdp_info : MDPInfo)
    (s a : nat) (r : R) (ns : nat) (cs cns : St) :
  (* Q-Learning *)
  (forall ag : @QLearning.agent S,
     QLearning.q_next ag ns true = Ok 0 /\
     forall ag', QLearning._update mdp_info ag s a r ns true = Ok ag' ->
       exists q, getitem (QLearning.Q ag) s a = Ok q /\
         setitem (QLearning.Q ag) s a
           (q + fst (call (QLearning.alpha ag) s a None None)
                * (r + gamma mdp_info * 0 - q))
         = Ok (QLearning.Q ag')) /\
  (* Double Q-Learning *)
  (forall (ag : @DoubleQLearning.agent S) u k,
     let i := DoubleQLearning.approximator_idx u in
     DoubleQLearning.q_next ag i ns k true = Ok 0 /\
     forall ag',
       DoubleQLearning._update mdp_info u k ag s a r ns true = Ok ag' ->
       exists Qi Qi' alpha_i q,
         member (DoubleQLearning.Q ag) i = Ok Qi /\
         member (DoubleQLearning.alpha ag) i = Ok alpha_i /\
         getitem Qi s a = Ok q /\
         setitem Qi s a
           (q + fst (call alpha_i s a None None)
                * (r + gamma mdp_info * 0 - q)) = Ok Qi' /\
         DoubleQLearning.Q ag' = <[i := Qi']> (DoubleQLearning.Q ag)) /\
  (* Weighted Q-Learning *)
  (forall (ag : @WeightedQLearning.agent S) d,
     WeightedQLearning.q_next mdp_info d ag ns true = Ok (0, ag) /\
     forall ag',
       WeightedQLearning._update mdp_info d ag s a r ns true = Ok ag' ->
       exists q, getitem (WeightedQLearning.Q ag) s a = Ok q /\
         setitem (WeightedQLearning.Q ag) s a
           (q + fst (call (WeightedQLearning.alpha ag) s a None None)
                * (r + gamma mdp_info * 0 - q))
         = Ok (WeightedQLearning.Q ag')) /\
  (* Speedy Q-Learning *)
  (forall ag : @SpeedyQLearning.agent S,
     SpeedyQLearning.max_q (SpeedyQLearning.Q ag) ns true = Ok 0 /\
     SpeedyQLearning.max_q (SpeedyQLearning.old_q ag) ns true = Ok 0 /\
     forall ag', SpeedyQLearning._update mdp_info ag s a r ns true = Ok ag' ->
       exists q, getitem (SpeedyQLearning.Q ag) s a = Ok q /\
         setitem (SpeedyQLearning.Q ag) s a
           (q + fst (call (SpeedyQLearning.alpha ag) s a None None)
                * (r + gamma mdp_info * 0 - q)
            + (1 - fst (call (SpeedyQLearning.alpha ag) s a None None))
              * (r + gamma mdp_info * 0 - (r + gamma mdp_info * 0)))
         = Ok (SpeedyQLearning.Q ag')) /\
  (* SARSA *)
  (forall (ag : @SARSA.agent S P) na,
     SARSA.q_next ag ns na true = Ok 0 /\
     forall ag', SARSA._update mdp_info ag s a r ns true = Ok ag' ->
       exists q, getitem (SARSA.Q ag) s a = Ok q /\
         setitem (SARSA.Q ag) s a
           (q + fst (call (SARSA.alpha ag) s a None None)
                * (r + gamma mdp_info * 0 - q))
         = Ok (SARSA.Q ag')) /\
  (* SARSA(lambda), discrete *)
  (forall (ag : @SARSALambdaDiscrete.agent S P) na,
     SARSALambdaDiscrete.q_next ag ns na true = Ok 0 /\
     forall ag',
       SARSALambdaDiscrete._update mdp_info ag s a r ns true = Ok ag' ->
       exists q e1, getitem (SARSALambdaDiscrete.Q ag) s a = Ok q /\
         EligibilityTrace.update (SARSALambdaDiscrete.trace ag)
           (SARSALambdaDiscrete.e ag) s a = Ok e1 /\
         table_add (SARSALambdaDiscrete.Q ag)
           (table_scale
              (fst (call (SARSALambdaDiscrete.alpha ag) s a None None)
               * (r + gamma mdp_info * 0 - q)) e1)
         = Ok (SARSALambdaDiscrete.Q ag')) /\
  (* SARSA(lambda), continuous *)
  (forall (ag : @SARSALambdaContinuous.agent S PW) na,
     SARSALambdaContinuous.q_next ag cns na true = 0 /\
     forall ag',
       SARSALambdaContinuous._update mdp_info ag cs a r cns true = Ok ag' ->
       np.iadd (SARSALambdaContinuous.weights ag)
         (np.scale
            (fst (call (SARSALambdaContinuous.alpha ag) cs a None None)
             * (r + gamma mdp_info * 0
                - predict (SARSALambdaContinuous.weights ag) (phi cs) a))
            (SARSALambdaContinuous.e ag'))
       = Ok (SARSALambdaContinuous.weights ag')) /\
  (* Expected SARSA *)
  (forall ag : @ExpectedSARSA.agent S P,
     ExpectedSARSA.q_next ag ns true = Ok 0 /\
     forall ag', ExpectedSARSA._update mdp_info ag s a r ns true = Ok ag' ->
       exists q, getitem (ExpectedSARSA.Q ag) s a = Ok q /\
         setitem (ExpectedSARSA.Q ag) s a
           (q + fst (call (ExpectedSARSA.alpha ag) s a None None)
                * (r + gamma mdp_info * 0 - q))
         = Ok (ExpectedSARSA.Q ag')) /\
  (* True Online SARSA(lambda) *)
  (forall (ag : @TrueOnlineSARSALambda.agent S PW) na,
     TrueOnlineSARSALambda.q_next ag cns na true = 0 /\
     forall ag',
       TrueOnlineSARSALambda._update mdp_info ag cs a r cns true = Ok ag' ->
       let phi_sa := get_action_features (phi cs) a (n_actions mdp_info) in
       let q_current :=
         predict (TrueOnlineSARSALambda.weights ag) (phi cs) a in
       let q_old := match TrueOnlineSARSALambda._q_old ag with
                    | Some q => q
                    | None => q_current
                    end in
       let al :=
         fst (call (TrueOnlineSARSALambda.alpha ag) cs a None None) in
       TrueOnlineSARSALambda._q_old ag' = Some 0 /\
       exists step,
         np.add (np.scale (r + gamma mdp_info * 0 - q_old)
                   (TrueOnlineSARSALambda.e ag'))
                (np.scale (al * (q_old - q_current)) phi_sa) = Ok step /\
         np.iadd (TrueOnlineSARSALambda.weights ag) step
         = Ok (TrueOnlineSARSALambda.weights ag')) /\
  (* R-Learning *)
  (forall ag : @RLearning.agent S,
     RLearning.q_next ag ns true = Ok 0 /\
     forall ag', RLearning._update ag s a r ns true = Ok ag' ->
       exists q, getitem (RLearning.Q ag) s a = Ok q /\
         setitem (RLearning.Q ag) s a
           (q + fst (call (RLearning.alpha ag) s a None None)
                * (r - RLearning._rho ag + 0 - q))
         = Ok (RLearning.Q ag')) /\
  (* RQ-Learning *)
  (forall ag ag' : @RQLearning.agent S P,
     RQLearning._update mdp_info ag s a r ns true = Ok ag' ->
     RQLearning.Q_tilde ag' = RQLearning.Q_tilde ag /\
     exists rt qt,
       getitem (RQLearning.R_tilde ag') s a = Ok rt /\
       getitem (RQLearning.Q_tilde ag) s a = Ok qt /\
       setitem (RQLearning.Q ag) s a (rt + gamma mdp_info * qt)
       = Ok (RQLearning.Q ag')).
Proof.
  repeat apply conj.
  - intros ag. split; [reflexivity|]. intros ag' Hu.
    apply QLearning_update_inv in Hu as (q & qn & Hq & [= <-] & Hset & _).
    eauto.
  - intros ag u k i. split; [reflexivity|]. intros ag' Hu.
    apply DoubleQLearning_update_inv in Hu
      as (Qi & Qi' & al_i & q & qn & HQi & Hal & Hq & [= <-] & Hset & HQ).
    exists Qi, Qi', al_i, q. auto.
  - intros ag d. split; [reflexivity|]. intros ag' Hu.
    apply Weighted_update_inv in Hu
      as (q & qn & ag1 & Hq & [= <- <-] & Hset & _).
    eauto.
  - intros ag. split; [reflexivity|]. split; [reflexivity|]. intros ag' Hu.
    apply SpeedyQLearning_update_inv in Hu
      as (mc & mo & q & [= <-] & [= <-] & Hq & Hset).
    eauto.
  - intros ag na. split; [reflexivity|]. intros ag' Hu.
    apply SARSA_update_inv in Hu as (q & qn & Hq & [= <-] & Hset & _).
    eauto.
  - intros ag na. split; [reflexivity|]. intros ag' Hu.
    apply SARSALambdaDiscrete_update_inv in Hu
      as (q & qn & e1 & Hq & [= <-] & He1 & Hadd & _).
    eauto.
  - intros ag na. split; [reflexivity|]. intros ag' Hu.
    apply SARSALambdaContinuous_update_inv in Hu
      as (e' & _ & Hadd & ->).
    exact Hadd.
  - intros ag. split; [reflexivity|]. intros ag' Hu.
    apply ExpectedSARSA_update_inv in Hu as (q & qn & Hq & [= <-] & Hset).
    eauto.
  - intros ag na. split; [reflexivity|]. intros ag' Hu.
    apply TrueOnlineSARSALambda_update_inv in Hu
      as (e_phi & e' & step & _ & He' & Hstep & Hth & Hqo & He).
    split; [exact Hqo|]. rewrite He. exists step. auto.
  - intros ag. split; [reflexivity|]. intros ag' Hu.
    apply RLearning_update_inv in Hu as (q & qn & Hq & [= <-] & Hset).
    eauto.
  - intros ag ag' Hu.
    apply RQLearning_update_inv in Hu
      as (r0 & rt & qt & _ & _ & Hrt & Hqt & Hset & Hab).
    simpl in Hab. split; [exact Hab|]. rewrite Hab in Hqt. eauto.
Qed.

(** An absorbing Q-Learning update, which writes 2 + 0.5 * (1 - 2) = 1.5
    whatever the row of the next state holds, and an absorbing RQ-Learning
    update, which keeps [Q_tilde]. *)
Lemma absorbing_zero_bootstrap_witness :
  let mdp := {| size := (2%nat, 1%nat); gamma := 0.5 |} in
  let pi := {| fixed_action := 0; fixed_probs := [1] |} in
  let agq := {| QLearning.Q := [[2]; [40]]; QLearning.alpha := [0.5] |} in
  let agr := {| RQLearning.off_policy := true; RQLearning.delta := None;
                RQLearning.beta := Some [0.5];
                RQLearning.Q := [[1]; [2]];
                RQLearning.Q_tilde := [[2]; [0]];
                RQLearning.R_tilde := [[0]; [2]];
                RQLearning.alpha := [0.5]; RQLearning.policy := pi;
                RQLearning.next_action := None |} in
  (exists ag', QLearning._update mdp agq 0%nat 0%nat 1 1%nat true = Ok ag' /\
               getitem (QLearning.Q ag') 0%nat 0%nat = Ok 1.5) /\
  (exists ag', RQLearning._update mdp agr 0%nat 0%nat 0 1%nat true = Ok ag' /\
               RQLearning.Q_tilde ag' = [[2]; [0]] /\
               getitem (RQLearning.Q ag') 0%nat 0%nat = Ok 1).
Proof.
  intros mdp pi agq agr.
  pose proof (@absorbing_zero_bootstrap (list R) (list R) FixedPolicy
                FixedPolicy _ _ _ _ _ mdp 0%nat 0%nat) as Hthm.
  split.
  - destruct (Hthm 1 1%nat [] []) as (HQ & _).
    assert (Hu : exists ag',
               QLearning._update mdp agq 0%nat 0%nat 1 1%nat true = Ok ag')
      by (eexists; reflexivity).
    destruct Hu as [ag' Hu]. exists ag'. split; [exact Hu|].
    destruct (proj2 (HQ agq) ag' Hu) as (q & Hq & Hset).
    injection Hq as <-. apply getitem_setitem_eq in Hset.
    rewrite Hset. f_equal. simpl. lra.
  - destruct (Hthm 0 1%nat [] []) as (_ & _ & _ & _ & _ & _ & _ & _ & _ & _ & HRQ).
    assert (Hu : exists ag',
               RQLearning._update mdp agr 0%nat 0%nat 0 1%nat true = Ok ag')
      by (eexists; reflexivity).
    destruct Hu as [ag' Hu]. exists ag'. split; [exact Hu|].
    destruct (HRQ agr ag' Hu) as (HQt & rt & qt & Hrt & Hqt & Hset).
    split; [exact HQt|].
    injection Hqt as <-. apply getitem_setitem_eq in Hset.
    rewrite Hset. f_equal.
    assert (Hr : getitem (RQLearning.R_tilde ag') 0%nat 0%nat
                 = Ok (0 + 0.5 * (0 - 0))).
    { unfold RQLearning._update in Hu. simpl in Hu. injection Hu as <-.
      reflexivity. }
    rewrite Hr in Hrt. injection Hrt as <-. simpl. lra.
Defined.

(** C5 as stated fails for RQ-Learning.  An off-policy agent is built and
    run for two updates; from the state reached, the same transition is
    then given once as absorbing and once as not absorbing towards a state
    whose values are all 0, so that the bootstrap value of the second call
    is 0.  Were the bootstrap term of the absorbing call 0, the two calls
    would write the same value; the absorbing call writes
    [Q(0,0) = 1], built on the stored [Q_tilde(0,0) = 2], and the call with
    bootstrap value 0 writes [Q(0,0) = 0.5]. *)
Lemma rqlearning_absorbing_is_not_zero_bootstrap :
  let mdp := {| size := (3%nat, 1%nat); gamma := 0.5 |} in
  let pi := {| fixed_action := 0; fixed_probs := [1] |} in
  let history :=
    [ {| state := 1%nat; action := 0%nat; reward := 2;
         next_state := 1%nat; absorbing := true |};
      {| state := 0%nat; action := 0%nat; reward := 0;
         next_state := 1%nat; absorbing := false |} ] in
  exists ag0 ag ag_abs ag_zero : @RQLearning.agent (list R) FixedPolicy,
    RQLearning.__init__ mdp pi [1; 0.5; 0.5] true (Some [1; 0.5]) None
    = Ok ag0 /\
    run (RQLearning._update mdp) ag0 history = Ok ag /\
    RQLearning._next_q ag 2%nat = Ok (0, pi, None) /\
    RQLearning._update mdp ag 0%nat 0%nat 0 2%nat true = Ok ag_abs /\
    RQLearning._update mdp ag 0%nat 0%nat 0 2%nat false = Ok ag_zero /\
    getitem (RQLearning.Q_tilde ag_abs) 0%nat 0%nat = Ok 2 /\
    getitem (RQLearning.Q ag_abs) 0%nat 0%nat = Ok 1 /\
    getitem (RQLearning.Q ag_zero) 0%nat 0%nat = Ok 0.5.
Proof.
  intros mdp pi history. do 4 eexists.
  split; [reflexivity|]. split; [reflexivity|].
  split; [reflexivity|]. split; [reflexivity|]. split; [reflexivity|].
  simpl. repeat split; unfold getitem, getrow; simpl; f_equal; lra.
Qed.

(** ** Zero learning rate *)




(** * Further properties of the rules *)

(** ** Index errors *)

Lemma getitem_out_of_shape (shape : nat * nat) (T : Table) (s a : nat) :
  has_shape shape T ->
  ~ ((s < fst shape)%nat /\ (a < snd shape)%nat) ->
  getitem T s a = Raise IndexError.
Proof.
  intros [Hl Hr] Hout. unfold getitem, getrow.
  destruct (T !! s) as [row|] eqn:Hs; [|reflexivity]. simpl.
  destruct (row !! a) as [v|] eqn:Ha; [|reflexivity].
  exfalso. apply Hout. split.
  - rewrite <- Hl. eapply lookup_lt_Some; exact Hs.
  - rewrite <- (Forall_lookup_1 _ _ _ _ Hr Hs).
    eapply lookup_lt_Some; exact Ha.
Qed.

Lemma getrow_in_shape (shape : nat * nat) (T : Table) (s : nat) :
  has_shape shape T -> (s < fst shape)%nat ->
  exists row, getrow T s = Ok row /\ length row = snd shape.
Proof.
  intros [Hl Hr] Hs.
  destruct (lookup_lt_is_Some_2 T s) as [row Hrow]; [lia|].
  exists row. split; [now apply getrow_Ok|].
  exact (Forall_lookup_1 _ _ _ _ Hr Hrow).
Qed.

Lemma getrow_out_of_shape (shape : nat * nat) (T : Table) (s : nat) :
  has_shape shape T -> ~ (s < fst shape)%nat ->
  getrow T s = Raise IndexError.
Proof.
  intros [Hl _] Hout. unfold getrow.
  destruct (T !! s) as [row|] eqn:Hs; [|reflexivity].
  exfalso. apply Hout. rewrite <- Hl. eapply lookup_lt_Some; exact Hs.
Qed.

(** X1.  Q-Learning and the shape of its store.  On a store of the shape
    of the MDP, [_update] returns exactly when the pair [(state, action)]
    is inside the shape and, unless the transition is absorbing, the next
    state is too; in every other case it raises IndexError.  An absorbing
    transition never reads the next state. *)
Theorem qlearning_index_error {S : Type} `{Schedule nat S}
    (mdp_info : MDPInfo) (ag : @QLearning.agent S) (s a : nat) (r : R)
    (ns : nat) (ab : bool) :
  has_shape (size mdp_info) (QLearning.Q ag) ->
  let inside := (s < fst (size mdp_info))%nat /\
                (a < snd (size mdp_info))%nat /\
                (ab = false -> (ns < fst (size mdp_info))%nat) in
  (inside -> exists ag', QLearning._update mdp_info ag s a r ns ab = Ok ag') /\
  (~ inside -> QLearning._update mdp_info ag s a r ns ab = Raise IndexError).
Proof.
  intros Hshape inside. subst inside. split.
  - intros (Hs & Ha & Hns).
    destruct (getitem_in_shape _ _ s a Hshape Hs Ha) as [q Hq].
    assert (Hn : exists qn, QLearning.q_next ag ns ab = Ok qn).
    { unfold QLearning.q_next. destruct ab; simpl; [eauto|].
      destruct (getrow_in_shape _ _ ns Hshape (Hns eq_refl))
        as (row & -> & Hlen).
      simpl. apply np_max_total. intros ->. simpl in Hlen. lia. }
    destruct Hn as [qn Hn].
    eapply QLearning_update_total; eauto.
  - intros Hout. unfold QLearning._update.
    destruct (decide ((s < fst (size mdp_info))%nat
                      /\ (a < snd (size mdp_info))%nat)) as [[Hs Ha]|Hsa].
    + destruct (getitem_in_shape _ _ s a Hshape Hs Ha) as [q ->]. simpl.
      unfold QLearning.q_next. destruct ab; simpl.
      * exfalso. apply Hout. repeat split; auto. discriminate.
      * rewrite (getrow_out_of_shape _ _ ns Hshape); [reflexivity|].
        intros Hns. apply Hout. auto.
    + now rewrite (getitem_out_of_shape _ _ s a Hshape Hsa).
Qed.

Lemma qlearning_index_error_witness :
  let mdp := {| size := (2%nat, 2%nat); gamma := 0.9 |} in
  let ag := QLearning.__init__ mdp [0.5] in
  (exists ag', QLearning._update mdp ag 1%nat 0%nat 1 7%nat true = Ok ag') /\
  QLearning._update mdp ag 1%nat 0%nat 1 7%nat false = Raise IndexError /\
  QLearning._update mdp ag 1%nat 2%nat 1 0%nat false = Raise IndexError.
Proof.
  intros mdp ag.
  assert (Hshape : has_shape (size mdp) (QLearning.Q ag))
    by apply Table_new_shape.
  split; [|split].
  - apply (proj1 (qlearning_index_error mdp ag 1%nat 0%nat 1 7%nat true
                    Hshape)).
    simpl. repeat split; try lia; discriminate.
  - apply (proj2 (qlearning_index_error mdp ag 1%nat 0%nat 1 7%nat false
                    Hshape)).
    simpl. intros (_ & _ & Hns). specialize (Hns eq_refl). lia.
  - apply (proj2 (qlearning_index_error mdp ag 1%nat 2%nat 1 0%nat false
                    Hshape)).
    simpl. intros (_ & Ha & _). lia.
Defined.

(** ** Q-Learning along a run *)

Lemma table_Forall_getitem (P : R -> Prop) (T : Table) :
  Forall (Forall P) T <-> forall s a x, getitem T s a = Ok x -> P x.
Proof.
  rewrite Forall_lookup. split.
  - intros HT s a x (row & Hs & Ha)%getitem_Ok.
    specialize (HT s row Hs). rewrite Forall_lookup in HT. eauto.
  - intros HT s row Hs. apply Forall_lookup. intros a x Ha.
    apply (HT s a x), getitem_Ok. eauto.
Qed.

Lemma table_Forall_setitem (P : R -> Prop) (T T' : Table) (s a : nat)
    (v : R) :
  Forall (Forall P) T -> P v -> setitem T s a v = Ok T' ->
  Forall (Forall P) T'.
Proof.
  intros HT Hv (row & v0 & Hs & Ha & ->)%setitem_Ok.
  apply Forall_insert; [exact HT|].
  apply Forall_insert; [|exact Hv].
  rewrite Forall_lookup in HT. eauto.
Qed.

(** X2.  Q-Learning touches one entry per call.  Along a run of completed
    updates the store keeps the shape of the MDP, and an entry whose pair
    is the [(state, action)] of no sample of the run still holds the value
    it had before the run. *)
Theorem qlearning_run_frame {S : Type} `{Schedule nat S}
    (mdp_info : MDPInfo) (samples : list (Transition nat)) :
  forall ag ag' : @QLearning.agent S,
  run (QLearning._update mdp_info) ag samples = Ok ag' ->
  has_shape (size mdp_info) (QLearning.Q ag) ->
  has_shape (size mdp_info) (QLearning.Q ag') /\
  forall s a,
    Forall (fun tr => (state tr, action tr) <> (s, a)) samples ->
    getitem (QLearning.Q ag') s a = getitem (QLearning.Q ag) s a.
Proof.
  induction samples as [|tr rest IH]; simpl; intros ag ag' Hrun Hshape.
  - injection Hrun as <-. auto.
  - inv_bind Hrun.
    apply QLearning_update_inv in E as (q & qn & _ & _ & Hset & _).
    destruct (IH x ag' Hrun) as [Hshape' Hframe].
    { eapply setitem_shape; [exact Hshape | exact Hset]. }
    split; [exact Hshape'|]. intros s a Hall.
    inversion Hall as [|? ? Hne Hrest]; subst.
    rewrite (Hframe s a Hrest).
    eapply getitem_setitem_ne; [exact Hset|]. congruence.
Qed.

Lemma qlearning_run_frame_witness :
  let mdp := {| size := (2%nat, 2%nat); gamma := 0.5 |} in
  let samples :=
    [ {| state := 0%nat; action := 1%nat; reward := 1;
         next_state := 1%nat; absorbing := false |};
      {| state := 1%nat; action := 1%nat; reward := 2;
         next_state := 0%nat; absorbing := true |} ] in
  exists ag' : @QLearning.agent (list R),
    run (QLearning._update mdp) (QLearning.__init__ mdp [0.5; 0.5]) samples
    = Ok ag' /\
    getitem (QLearning.Q ag') 0%nat 0%nat = Ok 0 /\
    getitem (QLearning.Q ag') 1%nat 0%nat = Ok 0.
Proof.
  intros mdp samples.
  assert (Hrun : exists ag' : @QLearning.agent (list R),
             run (QLearning._update mdp) (QLearning.__init__ mdp [0.5; 0.5])
               samples = Ok ag') by (eexists; reflexivity).
  destruct Hrun as [ag' Hrun]. exists ag'. split; [exact Hrun|].
  destruct (qlearning_run_frame mdp samples _ ag' Hrun) as [_ Hframe].
  { apply Table_new_shape. }
  split; rewrite Hframe; try reflexivity;
    repeat constructor; simpl; congruence.
Defined.

Lemma bounded_getitem (B : R) (T : Table) :
  bounded B T <-> forall s a x, getitem T s a = Ok x -> - B <= x <= B.
Proof. apply table_Forall_getitem. Qed.

Lemma np_max_bounded (B : R) (row : list R) (m : R) :
  Forall (fun x => - B <= x <= B) row -> np.max row = Ok m ->
  - B <= m <= B.
Proof.
  intros Hrow [Hin _]%np_max_spec.
  rewrite Forall_forall in Hrow. auto.
Qed.

(** The residual update stays between the old value and the target. *)
Lemma residual_bounded (B q al t : R) :
  0 <= al <= 1 -> - B <= q <= B -> - B <= t <= B ->
  - B <= q + al * (t - q) <= B.
Proof. intros Hal Hq Ht. split; nra. Qed.

(** X3.  Q-Learning keeps its values bounded.  Let the discount factor be
    in [[0, 1]], the learning rates in [[0, 1]] and every reward of the run
    at most [(1 - gamma) * B] in absolute value.  If every entry of the
    store lies in [[-B, B]] before a run of completed updates, every entry
    lies in [[-B, B]] after it.  The bound is one of exact arithmetic, the
    reading of the numbers taken throughout: a floating-point update can
    leave [[-B, B]] by a rounding error. *)
Theorem qlearning_bounded {S : Type} `{Schedule nat S} (good : S -> Prop)
    (mdp_info : MDPInfo) (B : R) (samples : list (Transition nat)) :
  0 <= gamma mdp_info <= 1 ->
  unit_schedule good ->
  Forall (fun tr => - ((1 - gamma mdp_info) * B) <= reward tr
                    <= (1 - gamma mdp_info) * B) samples ->
  forall ag ag' : @QLearning.agent S,
  good (QLearning.alpha ag) ->
  bounded B (QLearning.Q ag) ->
  run (QLearning._update mdp_info) ag samples = Ok ag' ->
  bounded B (QLearning.Q ag') /\ good (QLearning.alpha ag').
Proof.
  intros Hg Hsch Hrew.
  induction Hrew as [|tr rest Hr Hrest IH]; simpl;
    intros ag ag' Hgood Hb Hrun.
  - injection Hrun as <-. auto.
  - inv_bind Hrun.
    apply QLearning_update_inv in E as (q & qn & Hq & Hn & Hset & Hal).
    destruct (Hsch (QLearning.alpha ag) (state tr) (action tr) None None
                Hgood) as [Hunit Hgood'].
    apply (IH x ag'); [congruence | | exact Hrun].
    eapply table_Forall_setitem; [exact Hb | | exact Hset].
    assert (HB : 0 <= B).
    { apply (proj1 (bounded_getitem B _)) with (x := q) in Hq; [lra|].
      exact Hb. }
    assert (Hqn : - B <= qn <= B).
    { unfold QLearning.q_next in Hn.
      destruct (absorbing tr); simpl in Hn.
      - injection Hn as <-. lra.
      - inv_bind Hn. eapply np_max_bounded; [|exact Hn].
        apply getrow_Ok in E. unfold bounded in Hb.
        rewrite Forall_lookup in Hb. eauto. }
    replace (q + fst (call (QLearning.alpha ag) (state tr) (action tr)
                        None None)
                 * (reward tr + gamma mdp_info * qn - q))
      with (q + fst (call (QLearning.alpha ag) (state tr) (action tr)
                       None None)
                * ((reward tr + gamma mdp_info * qn) - q)) by lra.
    apply residual_bounded; [exact Hunit | |].
    + eapply (proj1 (bounded_getitem B _)); [exact Hb | exact Hq].
    + split; nra.
Qed.

Lemma replay_schedule_unit {St : Type} :
  unit_schedule (St := St) (Forall (fun c : R => 0 <= c <= 1)).
Proof.
  intros st s a tg fc Hgood. destruct Hgood as [|c l Hc Hl]; simpl.
  - split; [lra | constructor].
  - auto.
Qed.

Lemma qlearning_bounded_witness :
  let mdp := {| size := (2%nat, 2%nat); gamma := 0.5 |} in
  let samples :=
    [ {| state := 0%nat; action := 1%nat; reward := 2;
         next_state := 1%nat; absorbing := false |};
      {| state := 1%nat; action := 1%nat; reward := -2;
         next_state := 0%nat; absorbing := false |} ] in
  exists ag' : @QLearning.agent (list R),
    run (QLearning._update mdp) (QLearning.__init__ mdp [1; 0.5]) samples
    = Ok ag' /\
    bounded 4 (QLearning.Q ag').
Proof.
  intros mdp samples.
  assert (Hrun : exists ag' : @QLearning.agent (list R),
             run (QLearning._update mdp) (QLearning.__init__ mdp [1; 0.5])
               samples = Ok ag') by (eexists; reflexivity).
  destruct Hrun as [ag' Hrun]. exists ag'. split; [exact Hrun|].
  refine (proj1 (qlearning_bounded (Forall (fun c : R => 0 <= c <= 1)) mdp 4
                   samples _ replay_schedule_unit _
                   (QLearning.__init__ mdp [1; 0.5]) ag' _ _ Hrun)).
  - simpl. lra.
  - repeat constructor; simpl; lra.
  - repeat constructor; simpl; lra.
  - repeat constructor; simpl; lra.
Defined.

(** ** How the rules relate to Q-Learning *)

Lemma setitem_det (T T1 T2 : Table) (s a : nat) (v1 v2 : R) :
  v1 = v2 -> setitem T s a v1 = Ok T1 -> setitem T s a v2 = Ok T2 ->
  T1 = T2.
Proof. intros -> H1 H2. congruence. Qed.

(** X4.  SARSA with a greedy next action is Q-Learning.  Let a SARSA agent
    and a Q-Learning agent hold the same store and the same schedule, and
    let the action that the agent's [draw_action] hands out at the next
    state (the recorded next action when there is one, the draw of the
    policy otherwise) attain the maximum of the row of the next state.
    Then one rule completes its update exactly when the other does, and
    the two updates leave the same store and the same schedule. *)
Theorem sarsa_greedy_is_qlearning {S P : Type} `{Schedule nat S}
    `{Policy P} (mdp_info : MDPInfo) (agq : @QLearning.agent S)
    (ags : @SARSA.agent S P) (s a : nat) (r : R) (ns : nat) (ab : bool) :
  SARSA.Q ags = QLearning.Q agq ->
  SARSA.alpha ags = QLearning.alpha agq ->
  (forall row m,
     getrow (SARSA.Q ags) ns = Ok row -> np.max row = Ok m ->
     row !! fst (SARSA.draw_action ags ns) = Some m) ->
  forall (Q' : Table) (alpha' : S),
    (exists agq', QLearning._update mdp_info agq s a r ns ab = Ok agq' /\
                  QLearning.Q agq' = Q' /\ QLearning.alpha agq' = alpha') <->
    (exists ags', SARSA._update mdp_info ags s a r ns ab = Ok ags' /\
                  SARSA.Q ags' = Q' /\ SARSA.alpha ags' = alpha').
Proof.
  intros HQ Hal Hgreedy Q' alpha'.
  assert (Hnext : forall v,
             QLearning.q_next agq ns ab = Ok v <->
             SARSA.q_next ags ns (fst (SARSA.draw_action ags ns)) ab
             = Ok v).
  { intros v. unfold QLearning.q_next, SARSA.q_next, getitem.
    rewrite <- HQ. destruct ab; simpl; [reflexivity|].
    destruct (getrow (SARSA.Q ags) ns) as [row|e] eqn:Hrow; simpl;
      [|split; discriminate].
    destruct (np.max row) as [m|e] eqn:Hm.
    - rewrite (Hgreedy row m eq_refl Hm). reflexivity.
    - destruct row; [|discriminate]. simpl. split; discriminate. }
  unfold QLearning._update, SARSA._update.
  rewrite HQ, Hal.
  destruct (getitem (QLearning.Q agq) s a) as [q|e]; simpl;
    [|split; intros (? & ? & _); discriminate].
  rewrite <- HQ.
  destruct (SARSA.draw_action ags ns) as [na pi'] eqn:Hdraw.
  simpl in Hnext. rewrite HQ in *.
  destruct (QLearning.q_next agq ns ab) as [qn|e] eqn:Hq.
  - rewrite (proj1 (Hnext qn) eq_refl). simpl.
    destruct (call (QLearning.alpha agq) s a None None) as [al al'].
    destruct (setitem (QLearning.Q agq) s a _) as [T|e]; simpl.
    + split; intros (ag' & [= <-] & <- & <-); eexists;
        (split; [reflexivity|]); auto.
    + split; intros (? & ? & _); discriminate.
  - simpl.
    destruct (SARSA.q_next ags ns na ab) as [qn|e'] eqn:Hq'.
    + destruct (Hnext qn) as [_ Hc]. discriminate (Hc eq_refl).
    + simpl. split; intros (? & ? & _); discriminate.
Qed.

Lemma sarsa_greedy_is_qlearning_witness :
  let mdp := {| size := (2%nat, 2%nat); gamma := 0.5 |} in
  let agq := {| QLearning.Q := [[2; 0]; [1; 4]];
                QLearning.alpha := [0.5] |} in
  let ags := {| SARSA.Q := [[2; 0]; [1; 4]]; SARSA.alpha := [0.5];
                SARSA.policy := {| fixed_action := 0; fixed_probs := [] |};
                SARSA.next_action := Some 1%nat |} in
  exists agq' ags',
    QLearning._update mdp agq 0%nat 0%nat 1 1%nat false = Ok agq' /\
    SARSA._update mdp ags 0%nat 0%nat 1 1%nat false = Ok ags' /\
    SARSA.Q ags' = QLearning.Q agq'.
Proof.
  intros mdp agq ags.
  assert (Hq : exists agq',
             QLearning._update mdp agq 0%nat 0%nat 1 1%nat false = Ok agq')
    by (eexists; reflexivity).
  destruct Hq as [agq' Hq].
  destruct (proj1 (sarsa_greedy_is_qlearning mdp agq ags 0%nat 0%nat 1
                     1%nat false eq_refl eq_refl
                     ltac:(intros row m [= <-] [= <-]; simpl;
                           f_equal; symmetry; apply Rmax_right; lra)
                     (QLearning.Q agq') (QLearning.alpha agq')))
    as (ags' & Hs & HQ & _).
  { exists agq'. auto. }
  exists agq', ags'. auto.
Defined.

(** ** The bootstrap value of Expected SARSA *)

Lemma np_dot_Ok (u v : list R) (x : R) :
  np.dot u v = Ok x <->
  length u = length v /\ x = np.sum (zip_with Rmult u v).
Proof.
  unfold np.dot. destruct (Nat.eqb_spec (length u) (length v)); split.
  - intros [= <-]. auto.
  - intros [_ ->]. reflexivity.
  - discriminate.
  - intros [E _]. contradiction.
Qed.

Lemma weighted_sum_le (hi : R) (row : list R) :
  forall p, length row = length p ->
  Forall (fun x => 0 <= x) p -> Forall (fun x => x <= hi) row ->
  np.sum (zip_with Rmult row p) <= hi * np.sum p.
Proof.
  unfold np.sum.
  induction row as [|x row IH]; intros [|y p] Hl Hp Hrow; simpl in *;
    try discriminate; [lra|].
  inversion Hp as [|? ? Hy Hp']; subst.
  inversion Hrow as [|? ? Hx Hrow']; subst.
  specialize (IH p ltac:(lia) Hp' Hrow'). nra.
Qed.

Lemma weighted_sum_ge (lo : R) (row : list R) :
  forall p, length row = length p ->
  Forall (fun x => 0 <= x) p -> Forall (fun x => lo <= x) row ->
  lo * np.sum p <= np.sum (zip_with Rmult row p).
Proof.
  unfold np.sum.
  induction row as [|x row IH]; intros [|y p] Hl Hp Hrow; simpl in *;
    try discriminate; [lra|].
  inversion Hp as [|? ? Hy Hp']; subst.
  inversion Hrow as [|? ? Hx Hrow']; subst.
  specialize (IH p ltac:(lia) Hp' Hrow'). nra.
Qed.

(** X5.  The bootstrap value of Expected SARSA is an average of the row of
    the next state.  When [policy(next_state)] is a probability vector,
    the bootstrap value of a non-absorbing transition is at most the
    maximum of the row, which is the bootstrap value of Q-Learning, and at
    least every lower bound of the row.  The bounds are those of exact
    arithmetic, the reading of the numbers taken throughout: a
    floating-point dot product can pass them by a rounding error. *)
Theorem expected_sarsa_bootstrap_bounds {S P : Type} `{Schedule nat S}
    `{Policy P} (ag : @ExpectedSARSA.agent S P) (ns : nat) (v : R) :
  prob_vector
    (policy_call (ExpectedSARSA.policy ag) (ExpectedSARSA.Q ag) ns) ->
  ExpectedSARSA.q_next ag ns false = Ok v ->
  exists row m,
    getrow (ExpectedSARSA.Q ag) ns = Ok row /\
    np.max row = Ok m /\ v <= m /\
    forall lo, Forall (fun x => lo <= x) row -> lo <= v.
Proof.
  intros [Hpos Hsum] Hv. unfold ExpectedSARSA.q_next in Hv. simpl in Hv.
  inv_bind Hv. apply np_dot_Ok in Hv as [Hlen ->].
  rename x into row. exists row.
  destruct (np_max_total row) as [m Hm].
  { intros ->.
    destruct (policy_call (ExpectedSARSA.policy ag) (ExpectedSARSA.Q ag) ns);
      [|discriminate].
    unfold np.sum in Hsum. simpl in Hsum. lra. }
  exists m. split; [exact E|]. split; [exact Hm|].
  destruct (np_max_spec _ _ Hm) as [_ Hub]. split.
  - assert (Hrow : Forall (fun x => x <= m) row)
      by (apply Forall_forall; auto).
    pose proof (weighted_sum_le m row _ Hlen Hpos Hrow) as Hhi.
    rewrite Hsum in Hhi. lra.
  - intros lo Hlo.
    pose proof (weighted_sum_ge lo row _ Hlen Hpos Hlo) as Hlow.
    rewrite Hsum in Hlow. lra.
Qed.

Lemma expected_sarsa_bootstrap_bounds_witness :
  let ag := {| ExpectedSARSA.Q := [[2; 0]; [6; 2]];
               ExpectedSARSA.alpha := [0.5];
               ExpectedSARSA.policy :=
                 {| fixed_action := 0; fixed_probs := [0.25; 0.75] |} |} in
  exists v m,
    ExpectedSARSA.q_next ag 1 false = Ok v /\
    np.max [6; 2] = Ok m /\ 2 <= v <= m.
Proof.
  intros ag.
  assert (Hv : exists v, ExpectedSARSA.q_next ag 1 false = Ok v)
    by (eexists; reflexivity).
  destruct Hv as [v Hv].
  destruct (expected_sarsa_bootstrap_bounds ag 1 v) as
    (row & m & Hrow & Hm & Hle & Hge).
  - split; [repeat constructor; simpl; lra|].
    unfold np.sum. simpl. lra.
  - exact Hv.
  - injection Hrow as <-. exists v, m. split; [exact Hv|].
    split; [exact Hm|]. split; [|exact Hle].
    apply Hge. repeat constructor; lra.
Defined.

Lemma sum_zip_zero (row : list R) :
  forall p, (forall i x, p !! i = Some x -> x = 0) ->
  np.sum (zip_with Rmult row p) = 0.
Proof.
  unfold np.sum.
  induction row as [|x row IH]; intros [|y p] Hz; simpl; try reflexivity.
  rewrite (Hz 0%nat y eq_refl), IH; [lra|].
  intros i z Hi. apply (Hz (Datatypes.S i) z Hi).
Qed.

Lemma dot_one_hot (row : list R) :
  forall p j, length row = length p -> one_hot p j ->
  exists x, row !! j = Some x /\ np.dot row p = Ok x.
Proof.
  induction row as [|x row IH]; intros [|y p] j Hl [Hj Hz]; simpl in Hl;
    try discriminate.
  destruct j as [|j].
  - injection Hj as ->. exists x. split; [reflexivity|].
    apply np_dot_Ok. split; [simpl; lia|].
    unfold np.sum. simpl. fold (np.sum (zip_with Rmult row p)).
    rewrite sum_zip_zero; [lra|].
    intros i z Hi. apply (Hz (Datatypes.S i) z); [lia | exact Hi].
  - destruct (IH p j) as (z & Hrow & Hdot); [lia | |].
    { split; [exact Hj|]. intros i w Hne Hi.
      apply (Hz (Datatypes.S i) w); [lia | exact Hi]. }
    exists z. split; [exact Hrow|].
    apply np_dot_Ok in Hdot as [_ ->].
    apply np_dot_Ok. split; [simpl; lia|].
    unfold np.sum. simpl.
    rewrite (Hz 0%nat y); [lra | lia | reflexivity].
Qed.

(** X6.  Expected SARSA under a deterministic policy is SARSA.  Let an
    Expected SARSA agent and a SARSA agent hold the same store, the same
    schedule and the same policy, and let [policy(next_state)] have the
    size of the row of the next state, with 1 at the action that the
    SARSA agent's [draw_action] hands out at the next state (the recorded
    next action when there is one, the draw of the policy otherwise) and
    0 elsewhere.  Then one rule completes its update exactly when the
    other does, and the two updates leave the same store and the same
    schedule. *)
Theorem expected_sarsa_one_hot_is_sarsa {S P : Type} `{Schedule nat S}
    `{Policy P} (mdp_info : MDPInfo) (age : @ExpectedSARSA.agent S P)
    (ags : @SARSA.agent S P) (s a : nat) (r : R) (ns : nat) (ab : bool) :
  SARSA.Q ags = ExpectedSARSA.Q age ->
  SARSA.alpha ags = ExpectedSARSA.alpha age ->
  SARSA.policy ags = ExpectedSARSA.policy age ->
  (forall row,
     getrow (SARSA.Q ags) ns = Ok row ->
     length row
     = length (policy_call (SARSA.policy ags) (SARSA.Q ags) ns) /\
     one_hot (policy_call (SARSA.policy ags) (SARSA.Q ags) ns)
       (fst (SARSA.draw_action ags ns))) ->
  forall (Q' : Table) (alpha' : S),
    (exists age', ExpectedSARSA._update mdp_info age s a r ns ab = Ok age' /\
                  ExpectedSARSA.Q age' = Q' /\
                  ExpectedSARSA.alpha age' = alpha') <->
    (exists ags', SARSA._update mdp_info ags s a r ns ab = Ok ags' /\
                  SARSA.Q ags' = Q' /\ SARSA.alpha ags' = alpha').
Proof.
  intros HQ Hal Hpi Hhot Q' alpha'.
  assert (Hnext : ExpectedSARSA.q_next age ns ab
                  = SARSA.q_next ags ns
                      (fst (SARSA.draw_action ags ns)) ab).
  { unfold ExpectedSARSA.q_next, SARSA.q_next, getitem.
    rewrite <- HQ, <- Hpi. destruct ab; simpl; [reflexivity|].
    destruct (getrow (SARSA.Q ags) ns) as [row|e] eqn:Hrow; simpl;
      [|reflexivity].
    destruct (Hhot row eq_refl) as [Hlen Hone].
    destruct (dot_one_hot row _ _ Hlen Hone) as (x & Hx & ->).
    now rewrite Hx. }
  unfold ExpectedSARSA._update, SARSA._update.
  rewrite Hnext, <- HQ, <- Hal.
  destruct (getitem (SARSA.Q ags) s a) as [q|e]; simpl;
    [|split; intros (? & ? & _); discriminate].
  destruct (SARSA.draw_action ags ns) as [na pi'] eqn:Hdraw. simpl.
  destruct (SARSA.q_next ags ns na ab) as [qn|e]; simpl;
    [|split; intros (? & ? & _); discriminate].
  destruct (call (SARSA.alpha ags) s a None None) as [al al'].
  destruct (setitem (SARSA.Q ags) s a _) as [T|e]; simpl.
  - split; intros (ag' & [= <-] & <- & <-); eexists;
      (split; [reflexivity|]); auto.
  - split; intros (? & ? & _); discriminate.
Qed.

Lemma expected_sarsa_one_hot_is_sarsa_witness :
  let mdp := {| size := (2%nat, 2%nat); gamma := 0.5 |} in
  let pi := {| fixed_action := 1; fixed_probs := [0; 1] |} in
  let age := {| ExpectedSARSA.Q := [[2; 0]; [6; 4]];
                ExpectedSARSA.alpha := [0.5];
                ExpectedSARSA.policy := pi |} in
  let ags := {| SARSA.Q := [[2; 0]; [6; 4]]; SARSA.alpha := [0.5];
                SARSA.policy := pi; SARSA.next_action := Some 1%nat |} in
  exists age' ags',
    ExpectedSARSA._update mdp age 0%nat 0%nat 1 1%nat false = Ok age' /\
    SARSA._update mdp ags 0%nat 0%nat 1 1%nat false = Ok ags' /\
    ExpectedSARSA.Q age' = SARSA.Q ags'.
Proof.
  intros mdp pi age ags.
  assert (Hs : exists ags',
             SARSA._update mdp ags 0%nat 0%nat 1 1%nat false = Ok ags')
    by (eexists; reflexivity).
  destruct Hs as [ags' Hs].
  assert (Hhot : forall row,
             getrow (SARSA.Q ags) 1 = Ok row ->
             length row
             = length (policy_call (SARSA.policy ags) (SARSA.Q ags) 1%nat) /\
             one_hot (policy_call (SARSA.policy ags) (SARSA.Q ags) 1%nat)
               (fst (SARSA.draw_action ags 1%nat))).
  { intros row [= <-]. split; [reflexivity|]. split; [reflexivity|].
    intros i x Hne Hi. simpl in Hne, Hi.
    destruct i as [|[|i]]; simpl in Hi; [congruence | lia | discriminate]. }
  destruct (proj2 (expected_sarsa_one_hot_is_sarsa mdp age ags 0%nat 0%nat 1
                     1%nat false eq_refl eq_refl eq_refl Hhot
                     (SARSA.Q ags') (SARSA.alpha ags')))
    as (age' & He & HQ & _).
  { exists ags'. auto. }
  exists age', ags'. auto.
Defined.

(** ** Speedy Q-Learning and its snapshot *)

(** X7.  Speedy Q-Learning with an up-to-date snapshot is Q-Learning.  Let
    a Speedy Q-Learning agent whose previous store equals its current
    store, as right after construction, and a Q-Learning agent hold the
    same store and the same schedule.  Then one rule completes its update
    exactly when the other does, and the two updates leave the same store
    and the same schedule. *)
Theorem speedy_fresh_snapshot_is_qlearning {S : Type} `{Schedule nat S}
    (mdp_info : MDPInfo) (agq : @QLearning.agent S)
    (ags : @SpeedyQLearning.agent S) (s a : nat) (r : R) (ns : nat)
    (ab : bool) :
  SpeedyQLearning.Q ags = QLearning.Q agq ->
  SpeedyQLearning.alpha ags = QLearning.alpha agq ->
  SpeedyQLearning.old_q ags = SpeedyQLearning.Q ags ->
  forall (Q' : Table) (alpha' : S),
    (exists agq', QLearning._update mdp_info agq s a r ns ab = Ok agq' /\
                  QLearning.Q agq' = Q' /\ QLearning.alpha agq' = alpha') <->
    (exists ags', SpeedyQLearning._update mdp_info ags s a r ns ab = Ok ags' /\
                  SpeedyQLearning.Q ags' = Q' /\
                  SpeedyQLearning.alpha ags' = alpha').
Proof.
  intros HQ Hal Hold Q' alpha'.
  unfold QLearning._update, SpeedyQLearning._update, QLearning.q_next,
    SpeedyQLearning.max_q, deepcopy.
  rewrite Hold, HQ, Hal.
  destruct (getitem (QLearning.Q agq) s a) as [q|e] eqn:Hq; simpl.
  - destruct (if negb ab
              then let* row := getrow (QLearning.Q agq) ns in np.max row
              else Ok 0) as [m|e2]; simpl.
    + destruct (call (QLearning.alpha agq) s a None None) as [al al'].
      simpl.
      replace (q + al * (r + gamma mdp_info * m - q)
               + (1 - al) * (r + gamma mdp_info * m
                             - (r + gamma mdp_info * m)))
        with (q + al * (r + gamma mdp_info * m - q)) by lra.
      destruct (setitem (QLearning.Q agq) s a _) as [T|e3]; simpl.
      * split; intros (ag' & [= <-] & <- & <-); eexists;
          (split; [reflexivity|]); auto.
      * split; intros (? & ? & _); discriminate.
    + split; intros (? & ? & _); discriminate.
  - destruct (if negb ab
              then let* row := getrow (QLearning.Q agq) ns in np.max row
              else Ok 0) as [m|e2]; simpl.
    + destruct (call (QLearning.alpha agq) s a None None) as [al al'].
      simpl. split; intros (? & ? & _); discriminate.
    + split; intros (? & ? & _); discriminate.
Qed.

(** The first update of a constructed Speedy Q-Learning agent against the
    first update of a constructed Q-Learning agent. *)
Lemma speedy_fresh_snapshot_is_qlearning_witness :
  let mdp := {| size := (2%nat, 2%nat); gamma := 0.5 |} in
  let agq := QLearning.__init__ mdp [0.5] in
  let ags := SpeedyQLearning.__init__ mdp [0.5] in
  exists agq' ags',
    QLearning._update mdp agq 0%nat 1%nat 3 1%nat false = Ok agq' /\
    SpeedyQLearning._update mdp ags 0%nat 1%nat 3 1%nat false = Ok ags' /\
    SpeedyQLearning.Q ags' = QLearning.Q agq'.
Proof.
  intros mdp agq ags.
  assert (Hq : exists agq',
             QLearning._update mdp agq 0%nat 1%nat 3 1%nat false = Ok agq')
    by (eexists; reflexivity).
  destruct Hq as [agq' Hq].
  destruct (proj1 (speedy_fresh_snapshot_is_qlearning mdp agq ags 0%nat
                     1%nat 3 1%nat false eq_refl eq_refl eq_refl
                     (QLearning.Q agq') (QLearning.alpha agq')))
    as (ags' & Hs & HQ & _).
  { exists agq'. auto. }
  exists agq', ags'. auto.
Defined.

(** ** Whole-store arithmetic, entry by entry *)

Lemma mapM_Ok_lookup {A B : Type} (f : A -> result B) (l : list A) :
  forall l', mapM f l = Ok l' ->
  length l' = length l /\
  forall i x, l !! i = Some x -> exists y, l' !! i = Some y /\ f x = Ok y.
Proof.
  induction l as [|x l IH]; simpl; intros l' Hm.
  - injection Hm as <-. split; [reflexivity|]. intros i x Hi.
    rewrite lookup_nil in Hi. discriminate.
  - inv_bind Hm. inv_bind Hm. injection Hm as <-.
    destruct (IH _ E0) as [Hlen Hlook]. split; [simpl; lia|].
    intros [|i] z Hi; simpl in Hi.
    + injection Hi as <-. exists x0. auto.
    + apply Hlook in Hi as (y & Hy & Hf). exists y. auto.
Qed.

Lemma mapM_total {A B : Type} (f : A -> result B) (l : list A) :
  (forall x, x ∈ l -> exists y, f x = Ok y) -> exists l', mapM f l = Ok l'.
Proof.
  induction l as [|x l IH]; simpl; intros Hf; [eauto|].
  destruct (Hf x) as [y ->]; [left|]. simpl.
  destruct IH as [l' ->]; [intros z Hz; apply Hf; now right|].
  simpl. eauto.
Qed.

Lemma getitem_table_scale (c : R) (T : Table) (s a : nat) (x : R) :
  getitem T s a = Ok x -> getitem (table_scale c T) s a = Ok (c * x).
Proof.
  intros (row & Hs & Ha)%getitem_Ok. apply getitem_Ok.
  exists (np.scale c row). split.
  - unfold table_scale. now rewrite list_lookup_fmap, Hs.
  - unfold np.scale. now rewrite list_lookup_fmap, Ha.
Qed.

Lemma table_scale_shape (shape : nat * nat) (c : R) (T : Table) :
  has_shape shape T -> has_shape shape (table_scale c T).
Proof.
  intros [Hl Hr]. split.
  - unfold table_scale. now rewrite length_map.
  - unfold table_scale. apply Forall_fmap.
    eapply Forall_impl; [exact Hr|]. intros row Hrow. simpl.
    unfold np.scale. now rewrite length_map.
Qed.

Lemma table_add_getitem (T U T' : Table) (s a : nat) (x y : R) :
  table_add T U = Ok T' ->
  getitem T s a = Ok x -> getitem U s a = Ok y ->
  getitem T' s a = Ok (x + y).
Proof.
  unfold table_add. destruct (Nat.eqb (length T) (length U)); [|discriminate].
  intros Hm (rt & Hs & Ha)%getitem_Ok (ru & Hs' & Ha')%getitem_Ok.
  destruct (mapM_Ok_lookup _ _ _ Hm) as [_ Hlook].
  destruct (Hlook s (rt, ru)) as (row & Hrow & Hadd).
  { apply lookup_zip_with_Some. eauto. }
  simpl in Hadd. apply row_add_Ok in Hadd as [_ ->].
  apply getitem_Ok. exists (zip_with Rplus rt ru). split; [exact Hrow|].
  apply lookup_zip_with_Some. eauto.
Qed.

Lemma table_add_shape (shape : nat * nat) (T U T' : Table) :
  has_shape shape T -> table_add T U = Ok T' -> has_shape shape T'.
Proof.
  unfold table_add.
  destruct (Nat.eqb_spec (length T) (length U)) as [Hlen|]; [|discriminate].
  intros [Hl Hr] Hm.
  destruct (mapM_Ok_lookup _ _ _ Hm) as [Hlen' Hlook].
  rewrite length_zip_with in Hlen'. split; [lia|].
  apply Forall_lookup. intros i row Hrow.
  destruct (lookup_lt_is_Some_2 T i) as [rt Hrt].
  { apply lookup_lt_Some in Hrow. lia. }
  destruct (lookup_lt_is_Some_2 U i) as [ru Hru].
  { apply lookup_lt_Some in Hrow. lia. }
  destruct (Hlook i (rt, ru)) as (row' & Hrow' & Hadd).
  { apply lookup_zip_with_Some. eauto. }
  simpl in Hadd. apply row_add_Ok in Hadd as [Hrl ->].
  assert (row = zip_with Rplus rt ru) as -> by congruence.
  rewrite length_zip_with.
  pose proof (Forall_lookup_1 _ _ _ _ Hr Hrt) as Hrtl. simpl in *. lia.
Qed.

Lemma table_add_total (shape : nat * nat) (T U : Table) :
  has_shape shape T -> has_shape shape U ->
  exists T', table_add T U = Ok T'.
Proof.
  intros [Hl Hr] [Hl' Hr']. unfold table_add.
  rewrite (proj2 (Nat.eqb_eq _ _)) by lia.
  apply mapM_total. intros [rt ru] Hin.
  apply list_elem_of_lookup in Hin as [i Hi].
  apply lookup_zip_with_Some in Hi as (rt' & ru' & [= <- <-] & Hrt & Hru).
  simpl. unfold row_add.
  rewrite (Forall_lookup_1 _ _ _ _ Hr Hrt), (Forall_lookup_1 _ _ _ _ Hr' Hru).
  rewrite Nat.eqb_refl. eauto.
Qed.

(** Two stores of one shape that agree on every read are equal. *)
Lemma table_ext (shape : nat * nat) (T1 T2 : Table) :
  has_shape shape T1 -> has_shape shape T2 ->
  (forall s a, getitem T1 s a = getitem T2 s a) -> T1 = T2.
Proof.
  intros [Hl1 Hr1] [Hl2 Hr2] Hget. apply list_eq_same_length with (fst shape);
    try assumption.
  intros s r1 r2 Hs H1 H2.
  apply list_eq_same_length with (snd shape).
  - exact (Forall_lookup_1 _ _ _ _ Hr2 H2).
  - exact (Forall_lookup_1 _ _ _ _ Hr1 H1).
  - intros a x y Ha Hx Hy.
    specialize (Hget s a). unfold getitem, getrow in Hget.
    rewrite H1, H2 in Hget. simpl in Hget. rewrite Hx, Hy in Hget.
    congruence.
Qed.

(** ** SARSA(lambda), discrete *)

Lemma EligibilityTrace_update_inv (kind : trace_kind) (e e1 : Table)
    (s a : nat) :
  EligibilityTrace.update kind e s a = Ok e1 ->
  exists t0,
    getitem e s a = Ok t0 /\
    getitem e1 s a
    = Ok (match kind with replacing => 1 | accumulating => t0 + 1 end) /\
    unchanged_except e e1 s a /\
    (forall shape, has_shape shape e -> has_shape shape e1).
Proof.
  destruct kind; simpl; intros Hu.
  - destruct (proj1 (setitem_Ok _ _ _ _ _) Hu) as (row & t0 & Hs & Ha & _).
    exists t0. split; [apply getitem_Ok; eauto|].
    split; [eapply getitem_setitem_eq; exact Hu|].
    split; [eapply setitem_unchanged_except; exact Hu|].
    intros shape Hsh. eapply setitem_shape; [exact Hsh | exact Hu].
  - inv_bind Hu. exists x. split; [exact E|].
    split; [eapply getitem_setitem_eq; exact Hu|].
    split; [eapply setitem_unchanged_except; exact Hu|].
    intros shape Hsh. eapply setitem_shape; [exact Hsh | exact Hu].
Qed.

(** X8.  SARSA(lambda) moves the whole store along the trace.  A completed
    update first marks the visited pair in the trace (1 for a replacing
    trace, one more than before for an accumulating one); it then adds to
    every entry of the store [alpha * delta] times the trace of that
    entry, with one TD error [delta = reward + gamma * q_next - Q(s,a)]
    for all entries, and multiplies every entry of the trace by
    [gamma * lambda]. *)
Theorem sarsa_lambda_entrywise {S P : Type} `{Schedule nat S} `{Policy P}
    (mdp_info : MDPInfo) (ag ag' : @SARSALambdaDiscrete.agent S P)
    (s a : nat) (r : R) (ns : nat) (ab : bool) :
  SARSALambdaDiscrete._update mdp_info ag s a r ns ab = Ok ag' ->
  exists q qn t0,
    getitem (SARSALambdaDiscrete.Q ag) s a = Ok q /\
    SARSALambdaDiscrete.q_next ag ns
      (fst (SARSALambdaDiscrete.draw_action ag ns)) ab = Ok qn /\
    getitem (SARSALambdaDiscrete.e ag) s a = Ok t0 /\
    let al := fst (call (SARSALambdaDiscrete.alpha ag) s a None None) in
    let delta := r + gamma mdp_info * qn - q in
    let gl := gamma mdp_info * SARSALambdaDiscrete._lambda ag in
    let t1 := match SARSALambdaDiscrete.trace ag with
              | replacing => 1
              | accumulating => t0 + 1
              end in
    getitem (SARSALambdaDiscrete.Q ag') s a = Ok (q + al * delta * t1) /\
    getitem (SARSALambdaDiscrete.e ag') s a = Ok (gl * t1) /\
    forall s' a' x t,
      (s', a') <> (s, a) ->
      getitem (SARSALambdaDiscrete.Q ag) s' a' = Ok x ->
      getitem (SARSALambdaDiscrete.e ag) s' a' = Ok t ->
      getitem (SARSALambdaDiscrete.Q ag') s' a' = Ok (x + al * delta * t) /\
      getitem (SARSALambdaDiscrete.e ag') s' a' = Ok (gl * t).
Proof.
  intros Hu.
  apply SARSALambdaDiscrete_update_inv in Hu
    as (q & qn & e1 & Hq & Hn & He1 & Hadd & He').
  apply EligibilityTrace_update_inv in He1 as (t0 & Ht0 & Ht1 & Hfr & _).
  exists q, qn, t0. repeat (split; [assumption|]). cbv zeta.
  split; [|split].
  - eapply table_add_getitem; [exact Hadd | exact Hq |].
    apply getitem_table_scale. exact Ht1.
  - rewrite He'. apply getitem_table_scale. exact Ht1.
  - intros s' a' x t Hne Hx Ht. rewrite <- (Hfr s' a' Hne) in Ht. split.
    + eapply table_add_getitem; [exact Hadd | exact Hx |].
      apply getitem_table_scale. exact Ht.
    + rewrite He'. apply getitem_table_scale. exact Ht.
Qed.

Lemma sarsa_lambda_entrywise_witness :
  let mdp := {| size := (1%nat, 2%nat); gamma := 0.5 |} in
  let ag := {| SARSALambdaDiscrete.Q := [[1; 2]];
               SARSALambdaDiscrete.alpha := [0.5];
               SARSALambdaDiscrete.policy :=
                 {| fixed_action := 1; fixed_probs := [] |};
               SARSALambdaDiscrete.next_action := None;
               SARSALambdaDiscrete._lambda := 0.5;
               SARSALambdaDiscrete.trace := accumulating;
               SARSALambdaDiscrete.e := [[1; 4]] |} in
  exists ag',
    SARSALambdaDiscrete._update mdp ag 0%nat 0%nat 2 0%nat false = Ok ag' /\
    getitem (SARSALambdaDiscrete.Q ag') 0%nat 0%nat = Ok 3 /\
    getitem (SARSALambdaDiscrete.Q ag') 0%nat 1%nat = Ok 6 /\
    getitem (SARSALambdaDiscrete.e ag') 0%nat 1%nat = Ok 1.
Proof.
  intros mdp ag.
  assert (Hu : exists ag',
             SARSALambdaDiscrete._update mdp ag 0%nat 0%nat 2 0%nat false
             = Ok ag') by (eexists; reflexivity).
  destruct Hu as [ag' Hu]. exists ag'. split; [exact Hu|].
  destruct (sarsa_lambda_entrywise mdp ag ag' _ _ _ _ _ Hu)
    as (q & qn & t0 & Hq & Hn & Ht0 & HQ & _ & Hothers).
  injection Hq as <-. injection Hn as <-. injection Ht0 as <-.
  destruct (Hothers 0%nat 1%nat 2 4) as [HQ1 He1];
    [congruence | reflexivity | reflexivity |].
  simpl in HQ, HQ1, He1.
  split; [rewrite HQ; f_equal; lra|].
  split; [rewrite HQ1; f_equal; lra | rewrite He1; f_equal; lra].
Defined.

Lemma SARSALambdaDiscrete_update_fields {S P : Type} `{Schedule nat S}
    `{Policy P} (mdp_info : MDPInfo)
    (ag ag' : @SARSALambdaDiscrete.agent S P) s a r ns ab :
  SARSALambdaDiscrete._update mdp_info ag s a r ns ab = Ok ag' ->
  SARSALambdaDiscrete._lambda ag' = SARSALambdaDiscrete._lambda ag /\
  SARSALambdaDiscrete.trace ag' = SARSALambdaDiscrete.trace ag /\
  SARSALambdaDiscrete.alpha ag'
  = snd (call (SARSALambdaDiscrete.alpha ag) s a None None).
Proof.
  unfold SARSALambdaDiscrete._update. intros Hu. inv_bind Hu.
  destruct (SARSALambdaDiscrete.draw_action ag ns) as [na pi'].
  inv_bind Hu. inv_bind Hu.
  destruct (call (SARSALambdaDiscrete.alpha ag) s a None None)
    as [al alpha'].
  inv_bind Hu. injection Hu as <-. simpl. auto.
Qed.

(** X9.  Trace decay.  Along a run of completed SARSA(lambda) updates none
    of which visits the pair [(s0, a0)], the trace of that pair is
    multiplied by [gamma * lambda] at each update: after [k] updates it is
    [(gamma * lambda) ^ k] times what it was. *)
Theorem sarsa_lambda_trace_decay {S P : Type} `{Schedule nat S} `{Policy P}
    (mdp_info : MDPInfo) (s0 a0 : nat) (samples : list (Transition nat)) :
  Forall (fun tr => (state tr, action tr) <> (s0, a0)) samples ->
  forall (ag ag' : @SARSALambdaDiscrete.agent S P) (t : R),
  run (SARSALambdaDiscrete._update mdp_info) ag samples = Ok ag' ->
  getitem (SARSALambdaDiscrete.e ag) s0 a0 = Ok t ->
  exists v,
    getitem (SARSALambdaDiscrete.e ag') s0 a0 = Ok v /\
    v = (gamma mdp_info * SARSALambdaDiscrete._lambda ag)
        ^ length samples * t.
Proof.
  intros Hall. induction Hall as [|tr rest Hne Hrest IH]; simpl;
    intros ag ag' t Hrun Ht.
  - injection Hrun as <-. exists t. split; [exact Ht | lra].
  - inv_bind Hrun. rename x into ag1.
    destruct (SARSALambdaDiscrete_update_fields _ _ _ _ _ _ _ _ E)
      as (Hlam & _ & _).
    apply SARSALambdaDiscrete_update_inv in E
      as (q & qn & e1 & _ & _ & He1 & _ & He').
    apply EligibilityTrace_update_inv in He1 as (t0 & _ & _ & Hfr & _).
    assert (Ht1 : getitem (SARSALambdaDiscrete.e ag1) s0 a0
                  = Ok (gamma mdp_info * SARSALambdaDiscrete._lambda ag * t)).
    { rewrite He'. apply getitem_table_scale.
      rewrite (Hfr s0 a0); [exact Ht | congruence]. }
    destruct (IH ag1 ag' _ Hrun Ht1) as (v & Hv & ->).
    exists ((gamma mdp_info * SARSALambdaDiscrete._lambda ag1) ^ length rest
            * (gamma mdp_info * SARSALambdaDiscrete._lambda ag * t)).
    split; [exact Hv|]. rewrite Hlam. simpl. lra.
Qed.

Lemma sarsa_lambda_trace_decay_witness :
  let mdp := {| size := (1%nat, 2%nat); gamma := 0.5 |} in
  let ag := {| SARSALambdaDiscrete.Q := [[1; 2]];
               SARSALambdaDiscrete.alpha := [0.5; 0.5];
               SARSALambdaDiscrete.policy :=
                 {| fixed_action := 1; fixed_probs := [] |};
               SARSALambdaDiscrete.next_action := None;
               SARSALambdaDiscrete._lambda := 0.5;
               SARSALambdaDiscrete.trace := replacing;
               SARSALambdaDiscrete.e := [[1; 16]] |} in
  let sample := {| state := 0%nat; action := 0%nat; reward := 2;
                   next_state := 0%nat; absorbing := false |} in
  exists ag',
    run (SARSALambdaDiscrete._update mdp) ag [sample; sample] = Ok ag' /\
    getitem (SARSALambdaDiscrete.e ag') 0%nat 1%nat = Ok 1.
Proof.
  intros mdp ag sample.
  assert (Hu : exists ag',
             run (SARSALambdaDiscrete._update mdp) ag [sample; sample]
             = Ok ag') by (eexists; reflexivity).
  destruct Hu as [ag' Hu]. exists ag'. split; [exact Hu|].
  destruct (sarsa_lambda_trace_decay mdp 0%nat 1%nat [sample; sample]
              ltac:(repeat constructor; simpl; congruence) ag ag' 16 Hu
              eq_refl) as (v & Hv & ->).
  rewrite Hv. f_equal. simpl. lra.
Defined.

Lemma getitem_Ok_in_shape (shape : nat * nat) (T : Table) (s a : nat)
    (x : R) :
  has_shape shape T -> getitem T s a = Ok x ->
  (s < fst shape)%nat /\ (a < snd shape)%nat.
Proof.
  intros [Hl Hr] (row & Hs & Ha)%getitem_Ok. split.
  - rewrite <- Hl. eapply lookup_lt_Some; exact Hs.
  - rewrite <- (Forall_lookup_1 _ _ _ _ Hr Hs).
    eapply lookup_lt_Some; exact Ha.
Qed.

Section FirstStep.
Context {S P : Type} `{Schedule nat S} `{Policy P}.
Variable mdp_info : MDPInfo.

Lemma SARSA_update_alpha (ag ag' : @SARSA.agent S P) s a r ns ab :
  SARSA._update mdp_info ag s a r ns ab = Ok ag' ->
  SARSA.alpha ag' = snd (call (SARSA.alpha ag) s a None None).
Proof.
  unfold SARSA._update. intros Hu. inv_bind Hu.
  destruct (SARSA.draw_action ag ns) as [na pi'].
  inv_bind Hu.
  destruct (call (SARSA.alpha ag) s a None None) as [al alpha'].
  inv_bind Hu. now injection Hu as <-.
Qed.

Lemma SARSALambdaDiscrete_update_total
    (ag : @SARSALambdaDiscrete.agent S P) s a r ns ab q qn :
  has_shape (size mdp_info) (SARSALambdaDiscrete.Q ag) ->
  has_shape (size mdp_info) (SARSALambdaDiscrete.e ag) ->
  getitem (SARSALambdaDiscrete.Q ag) s a = Ok q ->
  SARSALambdaDiscrete.q_next ag ns
    (fst (SARSALambdaDiscrete.draw_action ag ns)) ab = Ok qn ->
  exists ag', SARSALambdaDiscrete._update mdp_info ag s a r ns ab = Ok ag'.
Proof.
  intros HQ He Hq Hn. unfold SARSALambdaDiscrete._update.
  rewrite Hq. simpl.
  destruct (SARSALambdaDiscrete.draw_action ag ns) as [na pi'].
  simpl in Hn. rewrite Hn. simpl.
  destruct (getitem_Ok_in_shape _ _ _ _ _ HQ Hq) as [Hs Ha].
  destruct (getitem_in_shape _ _ s a He Hs Ha) as [t0 Ht0].
  assert (He1 : exists e1,
             EligibilityTrace.update (SARSALambdaDiscrete.trace ag)
               (SARSALambdaDiscrete.e ag) s a = Ok e1 /\
             has_shape (size mdp_info) e1).
  { destruct (SARSALambdaDiscrete.trace ag); simpl.
    - destruct (setitem_total _ s a t0 1 Ht0) as [e1 He1].
      exists e1. split; [exact He1|]. eapply setitem_shape; eauto.
    - rewrite Ht0. simpl.
      destruct (setitem_total _ s a t0 (t0 + 1) Ht0) as [e1 He1].
      exists e1. split; [exact He1|]. eapply setitem_shape; eauto. }
  destruct He1 as (e1 & -> & Hsh1). simpl.
  destruct (call (SARSALambdaDiscrete.alpha ag) s a None None)
    as [al alpha'].
  destruct (table_add_total (size mdp_info) (SARSALambdaDiscrete.Q ag)
              (table_scale (al * (r + gamma mdp_info * qn - q)) e1))
    as [Q' ->]; [exact HQ | now apply table_scale_shape |].
  simpl. eauto.
Qed.

(** What a completed update leaves in each entry of the store. *)
Lemma SARSALambdaDiscrete_update_entries
    (ag ag' : @SARSALambdaDiscrete.agent S P) s a r ns ab :
  SARSALambdaDiscrete._update mdp_info ag s a r ns ab = Ok ag' ->
  exists q qn t0 e1,
    getitem (SARSALambdaDiscrete.Q ag) s a = Ok q /\
    SARSALambdaDiscrete.q_next ag ns
      (fst (SARSALambdaDiscrete.draw_action ag ns)) ab = Ok qn /\
    getitem (SARSALambdaDiscrete.e ag) s a = Ok t0 /\
    getitem e1 s a
    = Ok (match SARSALambdaDiscrete.trace ag with
          | replacing => 1
          | accumulating => t0 + 1
          end) /\
    unchanged_except (SARSALambdaDiscrete.e ag) e1 s a /\
    table_add (SARSALambdaDiscrete.Q ag)
      (table_scale
         (fst (call (SARSALambdaDiscrete.alpha ag) s a None None)
          * (r + gamma mdp_info * qn - q)) e1)
    = Ok (SARSALambdaDiscrete.Q ag').
Proof.
  intros Hu.
  apply SARSALambdaDiscrete_update_inv in Hu
    as (q & qn & e1 & Hq & Hn & He1 & Hadd & _).
  apply EligibilityTrace_update_inv in He1 as (t0 & Ht0 & Ht1 & Hfr & _).
  exists q, qn, t0, e1. auto 10.
Qed.

(** Two agents with the same store, policy and recorded next action draw
    the same action. *)
Lemma sarsa_lambda_draw_action_same
    (agl : @SARSALambdaDiscrete.agent S P) (ags : @SARSA.agent S P) ns :
  SARSA.Q ags = SARSALambdaDiscrete.Q agl ->
  SARSA.policy ags = SARSALambdaDiscrete.policy agl ->
  SARSA.next_action ags = SARSALambdaDiscrete.next_action agl ->
  SARSA.draw_action ags ns = SARSALambdaDiscrete.draw_action agl ns.
Proof.
  unfold SARSA.draw_action, SARSALambdaDiscrete.draw_action.
  now intros -> -> ->.
Qed.

(** After [episode_start] the two rules agree on what they write. *)
Lemma sarsa_lambda_first_step_same
    (agl agl' : @SARSALambdaDiscrete.agent S P) (ags ags' : @SARSA.agent S P)
    s a r ns ab :
  has_shape (size mdp_info) (SARSALambdaDiscrete.Q agl) ->
  SARSALambdaDiscrete.e agl = Table_new (size mdp_info) 0 ->
  SARSA.Q ags = SARSALambdaDiscrete.Q agl ->
  SARSA.alpha ags = SARSALambdaDiscrete.alpha agl ->
  SARSA.policy ags = SARSALambdaDiscrete.policy agl ->
  SARSA.next_action ags = SARSALambdaDiscrete.next_action agl ->
  SARSALambdaDiscrete._update mdp_info agl s a r ns ab = Ok agl' ->
  SARSA._update mdp_info ags s a r ns ab = Ok ags' ->
  SARSALambdaDiscrete.Q agl' = SARSA.Q ags' /\
  SARSALambdaDiscrete.alpha agl' = SARSA.alpha ags'.
Proof.
  intros HshQ He HQ Hal Hpi Hna Hul Hus.
  pose proof (sarsa_lambda_draw_action_same agl ags ns HQ Hpi Hna) as Hdraw.
  destruct (SARSALambdaDiscrete_update_fields _ _ _ _ _ _ _ _ Hul)
    as (_ & _ & Hal').
  pose proof (SARSA_update_alpha _ _ _ _ _ _ _ Hus) as Has'.
  split; [|rewrite Hal', Has', Hal; reflexivity].
  apply SARSALambdaDiscrete_update_entries in Hul
    as (q & qn & t0 & e1 & Hq & Hn & Ht0 & Ht1 & Hfr & Hadd).
  rewrite He in Ht0. apply getitem_Table_new_inv in Ht0. subst t0.
  assert (HQsa : getitem (SARSALambdaDiscrete.Q agl') s a
                 = Ok (q + fst (call (SARSALambdaDiscrete.alpha agl) s a
                                  None None)
                          * (r + gamma mdp_info * qn - q)
                          * match SARSALambdaDiscrete.trace agl with
                            | replacing => 1
                            | accumulating => 0 + 1
                            end)).
  { eapply table_add_getitem; [exact Hadd | exact Hq |].
    apply getitem_table_scale. exact Ht1. }
  assert (Hothers : forall s' a' x,
             (s', a') <> (s, a) ->
             getitem (SARSALambdaDiscrete.Q agl) s' a' = Ok x ->
             getitem (SARSALambdaDiscrete.e agl) s' a' = Ok 0 ->
             getitem (SARSALambdaDiscrete.Q agl') s' a'
             = Ok (x + fst (call (SARSALambdaDiscrete.alpha agl) s a
                              None None)
                       * (r + gamma mdp_info * qn - q) * 0)).
  { intros s' a' x Hne Hx Ht. rewrite <- (Hfr s' a' Hne) in Ht.
    eapply table_add_getitem; [exact Hadd | exact Hx |].
    apply getitem_table_scale. exact Ht. }
  apply SARSA_update_inv in Hus as (qs & qns & Hqs & Hns & Hset & _).
  rewrite Hdraw in Hns. rewrite HQ, Hal in *.
  assert (qs = q) as -> by congruence.
  assert (qns = qn) as ->.
  { unfold SARSA.q_next in Hns. unfold SARSALambdaDiscrete.q_next in Hn.
    rewrite HQ in Hns. congruence. }
  apply table_ext with (size mdp_info).
  - eapply table_add_shape; [exact HshQ | exact Hadd].
  - eapply setitem_shape; [exact HshQ | exact Hset].
  - intros s' a'. destruct (decide ((s', a') = (s, a))) as [[= -> ->]|Hne].
    + rewrite HQsa, (getitem_setitem_eq _ _ _ _ _ Hset). f_equal.
      destruct (SARSALambdaDiscrete.trace agl); lra.
    + rewrite (getitem_setitem_ne _ _ _ _ _ _ _ Hset Hne).
      destruct (decide ((s' < fst (size mdp_info))%nat
                        /\ (a' < snd (size mdp_info))%nat)) as [[Hs Ha]|Hout].
      * destruct (getitem_in_shape _ _ s' a' HshQ Hs Ha) as [x Hx].
        rewrite (Hothers s' a' x Hne Hx).
        { rewrite Hx. f_equal. lra. }
        rewrite He. now apply getitem_Table_new.
      * rewrite (getitem_out_of_shape _ _ s' a' HshQ Hout).
        apply getitem_out_of_shape with (size mdp_info); [|exact Hout].
        eapply table_add_shape; [exact HshQ | exact Hadd].
Qed.
End FirstStep.

(** X10.  The first SARSA(lambda) update of an episode is a SARSA update.
    Let a SARSA(lambda) agent whose trace is zero everywhere, as
    [episode_start] leaves it, and a SARSA agent hold the same store, of
    the shape of the MDP, the same schedule, the same policy and the same
    recorded next action ([episode_start] keeps the record).  Then one
    rule completes its update exactly when the other does, and the two
    updates leave the same store and the same schedule, for both kinds of
    trace. *)
Theorem sarsa_lambda_first_step_is_sarsa {S P : Type} `{Schedule nat S}
    `{Policy P} (mdp_info : MDPInfo)
    (agl : @SARSALambdaDiscrete.agent S P) (ags : @SARSA.agent S P)
    (s a : nat) (r : R) (ns : nat) (ab : bool) :
  has_shape (size mdp_info) (SARSALambdaDiscrete.Q agl) ->
  SARSA.Q ags = SARSALambdaDiscrete.Q agl ->
  SARSA.alpha ags = SARSALambdaDiscrete.alpha agl ->
  SARSA.policy ags = SARSALambdaDiscrete.policy agl ->
  SARSA.next_action ags = SARSALambdaDiscrete.next_action agl ->
  let agl0 := SARSALambdaDiscrete.episode_start mdp_info agl in
  forall (Q' : Table) (alpha' : S),
    (exists agl', SARSALambdaDiscrete._update mdp_info agl0 s a r ns ab
                  = Ok agl' /\
                  SARSALambdaDiscrete.Q agl' = Q' /\
                  SARSALambdaDiscrete.alpha agl' = alpha') <->
    (exists ags', SARSA._update mdp_info ags s a r ns ab = Ok ags' /\
                  SARSA.Q ags' = Q' /\ SARSA.alpha ags' = alpha').
Proof.
  intros HshQ HQ Hal Hpi Hna agl0 Q' alpha'.
  pose proof (sarsa_lambda_draw_action_same agl0 ags ns HQ Hpi Hna)
    as Hdraw.
  assert (Hsame : forall agl' ags',
             SARSALambdaDiscrete._update mdp_info agl0 s a r ns ab = Ok agl' ->
             SARSA._update mdp_info ags s a r ns ab = Ok ags' ->
             SARSALambdaDiscrete.Q agl' = SARSA.Q ags' /\
             SARSALambdaDiscrete.alpha agl' = SARSA.alpha ags').
  { intros agl' ags'.
    apply sarsa_lambda_first_step_same; auto. }
  split.
  - intros (agl' & Hul & <- & <-).
    pose proof Hul as Hinv.
    apply SARSALambdaDiscrete_update_inv in Hinv
      as (q & qn & e1 & Hq & Hn & _).
    destruct (SARSA_update_total mdp_info ags s a r ns ab q qn) as [ags' Hus].
    { rewrite HQ. exact Hq. }
    { rewrite Hdraw. unfold SARSA.q_next.
      unfold SARSALambdaDiscrete.q_next in Hn. rewrite HQ. exact Hn. }
    exists ags'. split; [exact Hus|].
    destruct (Hsame agl' ags' Hul Hus) as [-> ->]. auto.
  - intros (ags' & Hus & <- & <-).
    pose proof Hus as Hinv.
    apply SARSA_update_inv in Hinv as (q & qn & Hq & Hn & _).
    destruct (SARSALambdaDiscrete_update_total mdp_info agl0 s a r ns ab q qn)
      as [agl' Hul].
    { exact HshQ. }
    { apply Table_new_shape. }
    { simpl. rewrite <- HQ. exact Hq. }
    { rewrite <- Hdraw. unfold SARSALambdaDiscrete.q_next.
      unfold SARSA.q_next in Hn. simpl. rewrite <- HQ. exact Hn. }
    exists agl'. split; [exact Hul|].
    destruct (Hsame agl' ags' Hul Hus) as [-> ->]. auto.
Qed.

Lemma sarsa_lambda_first_step_is_sarsa_witness :
  let mdp := {| size := (1%nat, 2%nat); gamma := 0.5 |} in
  let pi := {| fixed_action := 1; fixed_probs := [] |} in
  let agl := {| SARSALambdaDiscrete.Q := [[1; 2]];
                SARSALambdaDiscrete.alpha := [0.5];
                SARSALambdaDiscrete.policy := pi;
                SARSALambdaDiscrete.next_action := Some 0%nat;
                SARSALambdaDiscrete._lambda := 0.5;
                SARSALambdaDiscrete.trace := accumulating;
                SARSALambdaDiscrete.e := [[3; 4]] |} in
  let ags := {| SARSA.Q := [[1; 2]]; SARSA.alpha := [0.5];
                SARSA.policy := pi; SARSA.next_action := Some 0%nat |} in
  exists agl' ags',
    SARSALambdaDiscrete._update mdp
      (SARSALambdaDiscrete.episode_start mdp agl) 0%nat 0%nat 2 0%nat false
    = Ok agl' /\
    SARSA._update mdp ags 0%nat 0%nat 2 0%nat false = Ok ags' /\
    SARSALambdaDiscrete.Q agl' = SARSA.Q ags'.
Proof.
  intros mdp pi agl ags.
  assert (Hs : exists ags',
             SARSA._update mdp ags 0%nat 0%nat 2 0%nat false = Ok ags')
    by (eexists; reflexivity).
  destruct Hs as [ags' Hs].
  destruct (proj2 (sarsa_lambda_first_step_is_sarsa mdp agl ags 0%nat 0%nat
                     2 0%nat false
                     ltac:(split; [reflexivity | repeat constructor])
                     eq_refl eq_refl eq_refl eq_refl
                     (SARSA.Q ags') (SARSA.alpha ags')))
    as (agl' & Hl & HQ & _).
  { exists ags'. auto. }
  exists agl', ags'. auto.
Defined.

(** ** The statistics kept by Weighted Q-Learning *)

Section WeightedStatistics.
Context {S : Type} `{Schedule nat S}.
Variable mdp_info : MDPInfo.

Lemma Weighted_q_next_statistics d (ag ag1 : @WeightedQLearning.agent S)
    ns ab q :
  WeightedQLearning.q_next mdp_info d ag ns ab = Ok (q, ag1) ->
  WeightedQLearning._n_updates ag1 = WeightedQLearning._n_updates ag /\
  WeightedQLearning._Q ag1 = WeightedQLearning._Q ag /\
  WeightedQLearning._Q2 ag1 = WeightedQLearning._Q2 ag /\
  WeightedQLearning._weights_var ag1 = WeightedQLearning._weights_var ag.
Proof.
  unfold WeightedQLearning.q_next, WeightedQLearning._next_q.
  destruct ab; simpl.
  - intros [= _ <-]. auto.
  - intros Hn. inv_bind Hn. inv_bind Hn. inv_bind Hn. inv_bind Hn.
    injection Hn as _ <-. simpl. auto.
Qed.

(** The counters, the accumulator and the deviation after a completed
    update. *)
Lemma Weighted_update_statistics d (ag ag' : @WeightedQLearning.agent S)
    s a r ns ab :
  WeightedQLearning._update mdp_info d ag s a r ns ab = Ok ag' ->
  exists n0 wv0,
    getitem (WeightedQLearning._n_updates ag) s a = Ok n0 /\
    setitem (WeightedQLearning._n_updates ag) s a (n0 + 1)
    = Ok (WeightedQLearning._n_updates ag') /\
    getitem (WeightedQLearning._weights_var ag) s a = Ok wv0 /\
    setitem (WeightedQLearning._weights_var ag) s a
      ((1 - fst (call (WeightedQLearning.alpha ag) s a None None)) ^ 2 * wv0
       + fst (call (WeightedQLearning.alpha ag) s a None None) ^ 2)
    = Ok (WeightedQLearning._weights_var ag') /\
    WeightedQLearning.alpha ag'
    = snd (call (WeightedQLearning.alpha ag) s a None None) /\
    (~ 1 < n0 + 1 ->
     WeightedQLearning._sigma ag' = WeightedQLearning._sigma ag) /\
    unchanged_except (WeightedQLearning._sigma ag)
      (WeightedQLearning._sigma ag') s a.
Proof.
  unfold WeightedQLearning._update. intros Hu.
  inv_bind Hu. inv_bind Hu. destruct x0 as [q_nxt ag1].
  destruct (Weighted_bootstrap_frame _ _ _ _ _ _ _ E0)
    as (HQ & Hal & Hsg & _).
  destruct (Weighted_q_next_statistics _ _ _ _ _ _ E0)
    as (HN & HM & HM2 & HWV).
  cbn [fst snd] in Hu. rewrite HQ, Hal, Hsg, HN, HM, HM2, HWV in Hu.
  destruct (call (WeightedQLearning.alpha ag) s a None None)
    as [al alpha'].
  do 10 inv_bind Hu. inv_bind Hu. injection Hu as <-. simpl.
  pose proof (getitem_setitem_eq _ _ _ _ _ E3) as Hn.
  assert (x3 = x1 + 1) as -> by congruence.
  exists x1, x8. repeat (split; [assumption || reflexivity|]).
  destruct (Rlt_dec 1 (x1 + 1)) as [Hlt|Hge].
  - inv_bind E11. inv_bind E11. inv_bind E11. split; [contradiction|].
    eapply setitem_unchanged_except; exact E11.
  - injection E11 as <-. split; [reflexivity|].
    apply unchanged_except_refl.
Qed.
End WeightedStatistics.

Section WeightedCounts.
Context {S : Type} `{Schedule nat S}.
Variable mdp_info : MDPInfo.

Lemma Weighted_run_counts (s a : nat)
    (steps : list (Draws * Transition nat)) :
  forall (ag ag' : @WeightedQLearning.agent S) (n : R),
  weighted_run mdp_info ag steps = Ok ag' ->
  getitem (WeightedQLearning._n_updates ag) s a = Ok n ->
  exists v, getitem (WeightedQLearning._n_updates ag') s a = Ok v /\
            v = n + INR (visits s a steps).
Proof.
  induction steps as [|[d tr] rest IH]; simpl; intros ag ag' n Hrun Hn.
  - injection Hrun as <-. exists n. split; [exact Hn | lra].
  - inv_bind Hrun. rename x into ag1.
    apply Weighted_update_statistics in E
      as (n0 & wv0 & Hn0 & HsetN & _).
    destruct (Nat.eqb_spec (state tr) s) as [Hs|Hs];
      destruct (Nat.eqb_spec (action tr) a) as [Ha|Ha]; cbn [andb].
    + subst s a. assert (n0 = n) as -> by congruence.
      destruct (IH ag1 ag' (n + 1) Hrun) as (v & Hv & ->).
      { eapply getitem_setitem_eq; exact HsetN. }
      exists (n + 1 + INR (visits (state tr) (action tr) rest)).
      split; [exact Hv|]. rewrite plus_INR. change (INR 1) with 1. lra.
    + destruct (IH ag1 ag' n Hrun) as (v & Hv & ->).
      { rewrite (getitem_setitem_ne _ _ _ _ _ _ _ HsetN); [exact Hn|].
        congruence. }
      exists (n + INR (visits s a rest)).
      split; [exact Hv | rewrite plus_INR; change (INR 0) with 0; lra].
    + destruct (IH ag1 ag' n Hrun) as (v & Hv & ->).
      { rewrite (getitem_setitem_ne _ _ _ _ _ _ _ HsetN); [exact Hn|].
        congruence. }
      exists (n + INR (visits s a rest)).
      split; [exact Hv | rewrite plus_INR; change (INR 0) with 0; lra].
    + destruct (IH ag1 ag' n Hrun) as (v & Hv & ->).
      { rewrite (getitem_setitem_ne _ _ _ _ _ _ _ HsetN); [exact Hn|].
        congruence. }
      exists (n + INR (visits s a rest)).
      split; [exact Hv | rewrite plus_INR; change (INR 0) with 0; lra].
Qed.

Lemma Weighted_run_sigma_kept (s a : nat)
    (steps : list (Draws * Transition nat)) :
  forall (ag ag' : @WeightedQLearning.agent S) (n : R),
  weighted_run mdp_info ag steps = Ok ag' ->
  getitem (WeightedQLearning._n_updates ag) s a = Ok n ->
  0 <= n -> n + INR (visits s a steps) <= 1 ->
  getitem (WeightedQLearning._sigma ag') s a
  = getitem (WeightedQLearning._sigma ag) s a.
Proof.
  induction steps as [|[d tr] rest IH]; simpl; intros ag ag' n Hrun Hn H0 H1.
  - now injection Hrun as <-.
  - inv_bind Hrun. rename x into ag1.
    apply Weighted_update_statistics in E
      as (n0 & wv0 & Hn0 & HsetN & _ & _ & _ & Hkeep & Hfr).
    rewrite plus_INR in H1.
    pose proof (pos_INR (visits s a rest)) as Hpos.
    destruct (Nat.eqb_spec (state tr) s) as [Hs|Hs];
      destruct (Nat.eqb_spec (action tr) a) as [Ha|Ha]; simpl in H1.
    + subst s a. assert (n0 = n) as -> by congruence.
      rewrite (IH ag1 ag' (n + 1) Hrun); try lra.
      * rewrite Hkeep; [reflexivity | lra].
      * eapply getitem_setitem_eq; exact HsetN.
    + rewrite (IH ag1 ag' n Hrun); try lra.
      * apply Hfr. congruence.
      * rewrite (getitem_setitem_ne _ _ _ _ _ _ _ HsetN); [exact Hn|].
        congruence.
    + rewrite (IH ag1 ag' n Hrun); try lra.
      * apply Hfr. congruence.
      * rewrite (getitem_setitem_ne _ _ _ _ _ _ _ HsetN); [exact Hn|].
        congruence.
    + rewrite (IH ag1 ag' n Hrun); try lra.
      * apply Hfr. congruence.
      * rewrite (getitem_setitem_ne _ _ _ _ _ _ _ HsetN); [exact Hn|].
        congruence.
Qed.
End WeightedCounts.

(** X11.  Weighted Q-Learning counts the updates of each pair.  After a
    run of completed updates that starts at a constructed agent, the entry
    of the update counter at a pair inside the shape of the MDP is the
    number of steps of the run that updated this pair. *)
Theorem weighted_n_updates_counts_visits {S : Type} `{Schedule nat S}
    (mdp_info : MDPInfo) (learning_rate : S) sampling precision
    weighted_policy (ag0 ag : @WeightedQLearning.agent S)
    (steps : list (Draws * Transition nat)) (s a : nat) :
  WeightedQLearning.__init__ mdp_info learning_rate sampling precision
    weighted_policy = Ok ag0 ->
  weighted_run mdp_info ag0 steps = Ok ag ->
  (s < fst (size mdp_info))%nat -> (a < snd (size mdp_info))%nat ->
  exists v, getitem (WeightedQLearning._n_updates ag) s a = Ok v /\
            v = INR (visits s a steps).
Proof.
  intros Hinit Hrun Hs Ha. injection Hinit as <-.
  destruct (Weighted_run_counts mdp_info s a steps _ ag 0 Hrun)
    as (v & Hv & ->).
  { simpl. now apply getitem_Table_new. }
  exists (0 + INR (visits s a steps)). split; [exact Hv | lra].
Qed.

(** X12.  The deviation of a pair keeps its initial value until the second
    update of the pair.  After a run of completed updates that starts at a
    constructed agent and updates a pair inside the shape of the MDP at
    most once, the [sigma] entry of this pair is still 1e10. *)
Theorem weighted_sigma_initial_until_second_update {S : Type}
    `{Schedule nat S} (mdp_info : MDPInfo) (learning_rate : S) sampling
    precision weighted_policy (ag0 ag : @WeightedQLearning.agent S)
    (steps : list (Draws * Transition nat)) (s a : nat) :
  WeightedQLearning.__init__ mdp_info learning_rate sampling precision
    weighted_policy = Ok ag0 ->
  weighted_run mdp_info ag0 steps = Ok ag ->
  (s < fst (size mdp_info))%nat -> (a < snd (size mdp_info))%nat ->
  (visits s a steps <= 1)%nat ->
  getitem (WeightedQLearning._sigma ag) s a = Ok 1e10.
Proof.
  intros Hinit Hrun Hs Ha Hv. injection Hinit as <-.
  rewrite (Weighted_run_sigma_kept mdp_info s a steps _ ag 0 Hrun).
  - simpl. now apply getitem_Table_new.
  - simpl. now apply getitem_Table_new.
  - lra.
  - apply le_INR in Hv. simpl in Hv. lra.
Qed.

Lemma weighted_counts_witness_run :
  let mdp := {| size := (1%nat, 2%nat); gamma := 0.5 |} in
  let d := {| normal := fun _ _ => 0; choice := 0%nat |} in
  let steps :=
    [ (d, {| state := 0%nat; action := 0%nat; reward := 1;
             next_state := 0%nat; absorbing := true |});
      (d, {| state := 0%nat; action := 1%nat; reward := 1;
             next_state := 0%nat; absorbing := true |});
      (d, {| state := 0%nat; action := 0%nat; reward := 3;
             next_state := 0%nat; absorbing := true |}) ] in
  exists ag0 ag : @WeightedQLearning.agent (list R),
    WeightedQLearning.__init__ mdp [0.5; 0.5; 0.5] true 2 false = Ok ag0 /\
    weighted_run mdp ag0 steps = Ok ag.
Proof.
  intros mdp d steps. eexists. eexists. split; [reflexivity|].
  unfold steps, weighted_run, fit, WeightedQLearning._update,
    WeightedQLearning.q_next.
  repeat (simpl;
          match goal with
          | |- context [Rlt_dec ?x ?y] =>
              destruct (Rlt_dec x y); [try lra | try lra]
          end).
  reflexivity.
Qed.

Lemma weighted_n_updates_counts_visits_witness :
  let mdp := {| size := (1%nat, 2%nat); gamma := 0.5 |} in
  let d := {| normal := fun _ _ => 0; choice := 0%nat |} in
  let steps :=
    [ (d, {| state := 0%nat; action := 0%nat; reward := 1;
             next_state := 0%nat; absorbing := true |});
      (d, {| state := 0%nat; action := 1%nat; reward := 1;
             next_state := 0%nat; absorbing := true |});
      (d, {| state := 0%nat; action := 0%nat; reward := 3;
             next_state := 0%nat; absorbing := true |}) ] in
  exists (ag0 ag : @WeightedQLearning.agent (list R)) v,
    WeightedQLearning.__init__ mdp [0.5; 0.5; 0.5] true 2 false = Ok ag0 /\
    weighted_run mdp ag0 steps = Ok ag /\
    getitem (WeightedQLearning._n_updates ag) 0%nat 0%nat = Ok v /\ v = 2.
Proof.
  intros mdp d steps.
  destruct weighted_counts_witness_run as (ag0 & ag & Hinit & Hrun).
  destruct (weighted_n_updates_counts_visits mdp [0.5; 0.5; 0.5] true 2%nat
              false ag0 ag steps 0%nat 0%nat Hinit Hrun)
    as (v & Hv & Hval); [simpl; lia | simpl; lia |].
  exists ag0, ag, v. split; [exact Hinit|]. split; [exact Hrun|].
  split; [exact Hv|]. rewrite Hval. simpl. lra.
Defined.

Lemma weighted_sigma_initial_until_second_update_witness :
  let mdp := {| size := (1%nat, 2%nat); gamma := 0.5 |} in
  let d := {| normal := fun _ _ => 0; choice := 0%nat |} in
  let steps :=
    [ (d, {| state := 0%nat; action := 0%nat; reward := 1;
             next_state := 0%nat; absorbing := true |});
      (d, {| state := 0%nat; action := 1%nat; reward := 1;
             next_state := 0%nat; absorbing := true |});
      (d, {| state := 0%nat; action := 0%nat; reward := 3;
             next_state := 0%nat; absorbing := true |}) ] in
  exists ag0 ag : @WeightedQLearning.agent (list R),
    WeightedQLearning.__init__ mdp [0.5; 0.5; 0.5] true 2 false = Ok ag0 /\
    weighted_run mdp ag0 steps = Ok ag /\
    getitem (WeightedQLearning._sigma ag) 0%nat 1%nat = Ok 1e10.
Proof.
  intros mdp d steps.
  destruct weighted_counts_witness_run as (ag0 & ag & Hinit & Hrun).
  exists ag0, ag. split; [exact Hinit|]. split; [exact Hrun|].
  apply (weighted_sigma_initial_until_second_update mdp [0.5; 0.5; 0.5] true
           2%nat false ag0 ag steps 0%nat 1%nat Hinit Hrun);
    simpl; lia.
Defined.

(** X13.  The squared-weight accumulator stays in [[0, 1]].  With learning
    rates in [[0, 1]], a run of completed Weighted Q-Learning updates that
    starts with every entry of the accumulator in [[0, 1]], as at
    construction, ends with every entry in [[0, 1]]. *)
Theorem weighted_weights_var_unit {S : Type} `{Schedule nat S}
    (good : S -> Prop) (mdp_info : MDPInfo)
    (steps : list (Draws * Transition nat)) :
  unit_schedule good ->
  forall ag ag' : @WeightedQLearning.agent S,
  good (WeightedQLearning.alpha ag) ->
  in_unit_interval (WeightedQLearning._weights_var ag) ->
  weighted_run mdp_info ag steps = Ok ag' ->
  in_unit_interval (WeightedQLearning._weights_var ag') /\
  good (WeightedQLearning.alpha ag').
Proof.
  intros Hsch.
  induction steps as [|[d tr] rest IH]; simpl; intros ag ag' Hgood Hu Hrun.
  - injection Hrun as <-. auto.
  - inv_bind Hrun. rename x into ag1.
    apply Weighted_update_statistics in E
      as (n0 & wv0 & _ & _ & Hwv0 & HsetWV & Hal & _).
    destruct (Hsch (WeightedQLearning.alpha ag) (state tr) (action tr)
                None None Hgood) as [Hunit Hgood'].
    pose proof (proj1 (table_Forall_getitem (fun x => 0 <= x <= 1) _)
                  Hu _ _ _ Hwv0) as Hw.
    simpl in Hw.
    apply (IH ag1 ag'); [rewrite Hal; exact Hgood' | | exact Hrun].
    refine (table_Forall_setitem (fun x => 0 <= x <= 1) _ _ _ _ _
              Hu _ HsetWV).
    set (al := fst (call (WeightedQLearning.alpha ag) (state tr)
                      (action tr) None None)) in *.
    assert (H1 : 0 <= (1 - al) ^ 2 <= 1) by (split; nra).
    assert (H2 : 0 <= al ^ 2) by nra.
    assert (H3 : (1 - al) ^ 2 * wv0 <= (1 - al) ^ 2) by nra.
    assert (H4 : (1 - al) ^ 2 + al ^ 2 <= 1) by nra.
    split; [nra | lra].
Qed.

Lemma weighted_weights_var_unit_witness :
  let mdp := {| size := (1%nat, 2%nat); gamma := 0.5 |} in
  let d := {| normal := fun _ _ => 0; choice := 0%nat |} in
  let steps :=
    [ (d, {| state := 0%nat; action := 0%nat; reward := 1;
             next_state := 0%nat; absorbing := true |});
      (d, {| state := 0%nat; action := 1%nat; reward := 1;
             next_state := 0%nat; absorbing := true |});
      (d, {| state := 0%nat; action := 0%nat; reward := 3;
             next_state := 0%nat; absorbing := true |}) ] in
  exists ag0 ag : @WeightedQLearning.agent (list R),
    WeightedQLearning.__init__ mdp [0.5; 0.5; 0.5] true 2 false = Ok ag0 /\
    weighted_run mdp ag0 steps = Ok ag /\
    in_unit_interval (WeightedQLearning._weights_var ag).
Proof.
  intros mdp d steps.
  destruct weighted_counts_witness_run as (ag0 & ag & Hinit & Hrun).
  exists ag0, ag. split; [exact Hinit|]. split; [exact Hrun|].
  refine (proj1 (weighted_weights_var_unit
                   (Forall (fun c : R => 0 <= c <= 1)) mdp steps
                   replay_schedule_unit ag0 ag _ _ Hrun)).
  - injection Hinit as <-. repeat constructor; simpl; lra.
  - injection Hinit as <-. repeat constructor; simpl; lra.
Defined.

(** ** The first update of an episode with a regressor *)




Section RegressorFirstStep.
Context {St S P : Type} `{Schedule St S} `{Approximator St}
        `{RegressorPolicy St P}.
Variable mdp_info : MDPInfo.


End RegressorFirstStep.



(** ** RQ-Learning with a [delta] schedule that returns 1 *)

(** X15.  RQ-Learning with [delta = 1] makes the temporal-difference
    step.  Let the three stores satisfy [Q = R_tilde + gamma * Q_tilde],
    let the agent use a [delta] schedule that returns 1 at this call, and
    let the transition be not absorbing.  Then a completed update writes
    [Q[s, a] + alpha * (reward + gamma * q_next - Q[s, a])] to [Q[s, a]],
    where [q_next] is the value of [_next_q]: the maximum of the row in
    the off-policy setting, the entry of the action handed out by the
    agent's [draw_action] otherwise.  The equality is one of exact
    arithmetic, the reading of the numbers taken throughout: the code
    computes [R_tilde[s, a] + gamma * Q_tilde[s, a]], which in floating
    point can differ from the temporal-difference expression by a rounding
    error. *)
Theorem rqlearning_unit_delta_is_td_step {S P : Type} `{Schedule nat S}
    `{Policy P} (mdp_info : MDPInfo) (ag ag' : @RQLearning.agent S P)
    (s a : nat) (r : R) (ns : nat) (d : S) (nq : R * P * option nat)
    (q : R) :
  rq_invariant mdp_info ag ->
  RQLearning._update mdp_info ag s a r ns false = Ok ag' ->
  let al := fst (call (RQLearning.alpha ag) s a (Some r) None) in
  let q_nxt := fst (fst nq) in
  RQLearning.delta ag = Some d ->
  RQLearning._next_q ag ns = Ok nq ->
  fst (call d s a (Some q_nxt) (Some al)) = 1 ->
  getitem (RQLearning.Q ag) s a = Ok q ->
  getitem (RQLearning.Q ag') s a
  = Ok (q + al * (r + gamma mdp_info * q_nxt - q)).
Proof.
  intros (_ & _ & _ & Hid) Hu al q_nxt Hd Hnq Hone Hq.
  apply RQLearning_update_inv in Hu
    as (r0 & rt & qt & Hr0 & HsetR & Hrt & Hqt & HsetQ & Hab).
  destruct Hab as (nq' & rate & q0 & Hnq' & Hrate & Hq0 & HsetQt).
  fold al in HsetR, Hrate.
  assert (nq' = nq) as -> by congruence. fold q_nxt in Hrate, HsetQt.
  unfold RQLearning.rate in Hrate. rewrite Hd in Hrate.
  destruct (call d s a (Some q_nxt) (Some al)) as [x d'] eqn:Hc.
  injection Hrate as <-. cbn [fst snd] in *. subst x.
  apply getitem_setitem_eq in HsetR, HsetQt, HsetQ.
  assert (rt = r0 + al * (r - r0)) as -> by congruence.
  assert (qt = q0 + al * 1 * (q_nxt - q0)) as -> by congruence.
  rewrite HsetQ. f_equal.
  rewrite (Hid s a q q0 r0 Hq Hq0 Hr0). ring.
Qed.

Lemma rqlearning_unit_delta_is_td_step_witness :
  let mdp := {| size := (1%nat, 2%nat); gamma := 0.5 |} in
  let pi := {| fixed_action := 1; fixed_probs := [] |} in
  let ag : @RQLearning.agent (list R) FixedPolicy :=
    {| RQLearning.off_policy := false;
       RQLearning.delta := Some [1]; RQLearning.beta := None;
       RQLearning.Q := [[0; 0.5]]; RQLearning.Q_tilde := [[0; 0]];
       RQLearning.R_tilde := [[0; 0.5]];
       RQLearning.alpha := [0.5]; RQLearning.policy := pi;
       RQLearning.next_action := Some 1%nat |} in
  exists ag',
    RQLearning._update mdp ag 0%nat 0%nat 2 0%nat false = Ok ag' /\
    getitem (RQLearning.Q ag') 0%nat 0%nat = Ok 1.125.
Proof.
  intros mdp pi ag.
  assert (Hu : exists ag',
             RQLearning._update mdp ag 0%nat 0%nat 2 0%nat false = Ok ag')
    by (eexists; reflexivity).
  destruct Hu as [ag' Hu]. exists ag'. split; [exact Hu|].
  assert (Hinv : rq_invariant mdp ag).
  { repeat split; simpl; repeat constructor.
    intros s a q qt rt Hq Hqt Hrt.
    destruct s as [|s]; [|discriminate].
    destruct a as [|[|a]]; try discriminate;
      injection Hq as <-; injection Hqt as <-; injection Hrt as <-; lra. }
  rewrite (rqlearning_unit_delta_is_td_step mdp ag ag' 0%nat 0%nat 2 0%nat
             [1] (0.5, pi, Some 1%nat) 0 Hinv Hu eq_refl eq_refl eq_refl
             eq_refl).
  simpl. f_equal. lra.
Defined.

(** ** Double Q-Learning on two equal stores *)

(** X16.  With two equal stores Double Q-Learning makes the Q-Learning
    update.  When both members of the ensemble hold the same values, as
    right after construction, the value read from the other member at the
    drawn maximising action is the row maximum, whichever tie is drawn:
    a completed update leaves in the selected member the store, and in
    its schedule the state, that Q-Learning leaves from the common store
    and the selected schedule, and the other member is the common store
    still. *)
Theorem double_q_equal_stores_is_qlearning {S : Type} `{Schedule nat S}
    (mdp_info : MDPInfo) (u : R) (k : nat)
    (ag ag' : @DoubleQLearning.agent S) (agq : @QLearning.agent S)
    (s a : nat) (r : R) (ns : nat) (ab : bool) :
  let i := DoubleQLearning.approximator_idx u in
  DoubleQLearning.Q ag = [QLearning.Q agq; QLearning.Q agq] ->
  member (DoubleQLearning.alpha ag) i = Ok (QLearning.alpha agq) ->
  DoubleQLearning._update mdp_info u k ag s a r ns ab = Ok ag' ->
  exists agq',
    QLearning._update mdp_info agq s a r ns ab = Ok agq' /\
    member (DoubleQLearning.Q ag') i = Ok (QLearning.Q agq') /\
    member (DoubleQLearning.Q ag') (1 - i) = Ok (QLearning.Q agq) /\
    member (DoubleQLearning.alpha ag') i = Ok (QLearning.alpha agq').
Proof.
  intros i HQ Hal Hu.
  unfold DoubleQLearning._update in Hu. cbv zeta in Hu. fold i in Hu.
  assert (Hi : i = 0%nat \/ i = 1%nat).
  { destruct (approximator_idx_cases u) as [[E _]|[E _]]; auto. }
  assert (HQi : member (DoubleQLearning.Q ag) i = Ok (QLearning.Q agq)).
  { rewrite HQ. destruct Hi as [-> | ->]; reflexivity. }
  assert (HQo : member (DoubleQLearning.Q ag) (1 - i)
                = Ok (QLearning.Q agq)).
  { rewrite HQ. destruct Hi as [-> | ->]; reflexivity. }
  rewrite HQi, Hal in Hu. cbn [bind] in Hu.
  inv_bind Hu. rename x into q_current.
  inv_bind Hu. rename x into q_nxt.
  cbn [bind] in Hu.
  destruct (call (QLearning.alpha agq) s a None None)
    as [al alpha'] eqn:Hc.
  inv_bind Hu. rename x into Qi'. injection Hu as <-.
  assert (Hn : QLearning.q_next agq ns ab = Ok q_nxt).
  { unfold DoubleQLearning.q_next in E0. unfold QLearning.q_next.
    destruct ab; simpl in *; [exact E0|].
    inv_bind E0. rename x into an. rewrite HQo in E0. cbn [bind] in E0.
    unfold DoubleQLearning.a_n, DoubleQLearning.candidates in E2.
    rewrite HQi in E2. cbn [bind] in E2.
    inv_bind E2. inv_bind E3. inv_bind E3. injection E3 as <-.
    rename x0 into row, x1 into m.
    rewrite E4. cbn [bind]. rewrite E5. f_equal.
    unfold np.random_choice in E2.
    destruct (np.argwhere_eq row m !! k) as [an'|] eqn:Hk;
      [|discriminate].
    injection E2 as ->.
    apply list_elem_of_lookup_2, argwhere_eq_elem in Hk.
    apply getitem_Ok in E0 as (row' & Hrow' & Han).
    apply getrow_Ok in E4. congruence. }
  unfold QLearning._update. rewrite E, Hn. cbn [bind]. rewrite Hc, E1.
  cbn [bind]. eexists. split; [reflexivity|]. simpl.
  assert (Hai : member (<[i := alpha']> (DoubleQLearning.alpha ag)) i
                = Ok alpha').
  { unfold member in *.
    destruct (DoubleQLearning.alpha ag !! i) eqn:Hl; [|discriminate].
    rewrite list_lookup_insert_eq; [reflexivity|].
    eapply lookup_lt_Some; eauto. }
  rewrite HQ. split; [|split; [|exact Hai]].
  - destruct Hi as [-> | ->]; reflexivity.
  - destruct Hi as [-> | ->]; reflexivity.
Qed.

Lemma double_q_equal_stores_is_qlearning_witness :
  let mdp := {| size := (1%nat, 2%nat); gamma := 0.5 |} in
  let ag := {| DoubleQLearning.Q := [[[1; 1]]; [[1; 1]]];
               DoubleQLearning.alpha := [[0.5]; [0.5]] |} in
  let agq := {| QLearning.Q := [[1; 1]]; QLearning.alpha := [0.5] |} in
  exists ag' agq',
    DoubleQLearning._update mdp 0.25 1 ag 0%nat 0%nat 2 0%nat false
    = Ok ag' /\
    QLearning._update mdp agq 0%nat 0%nat 2 0%nat false = Ok agq' /\
    member (DoubleQLearning.Q ag') 0 = Ok (QLearning.Q agq').
Proof.
  intros mdp ag agq.
  assert (Hi : DoubleQLearning.approximator_idx 0.25 = 0%nat).
  { unfold DoubleQLearning.approximator_idx.
    destruct (Rlt_dec 0.25 (1 / 2)) as [_|Hn]; [reflexivity | lra]. }
  assert (Hu : exists ag',
             DoubleQLearning._update mdp 0.25 1 ag 0%nat 0%nat 2 0%nat false
             = Ok ag').
  { unfold DoubleQLearning._update. rewrite Hi.
    unfold DoubleQLearning.q_next, DoubleQLearning.a_n,
      DoubleQLearning.candidates, np.argwhere_eq. simpl.
    rewrite Rmax_left by lra. simpl.
    destruct (Req_dec_T 1 1) as [_|Hne]; [|lra]. simpl.
    eexists. reflexivity. }
  destruct Hu as [ag' Hu].
  destruct (double_q_equal_stores_is_qlearning mdp 0.25 1 ag ag' agq
              0%nat 0%nat 2 0%nat false)
    as (agq' & Hq & Hm & _).
  - reflexivity.
  - rewrite Hi. reflexivity.
  - exact Hu.
  - rewrite Hi in Hm. exists ag', agq'. auto.
Defined.

(** ** The weights of the weighted estimator *)

Lemma np_sum_app (u v : list R) : np.sum (u ++ v) = np.sum u + np.sum v.
Proof.
  unfold np.sum. induction u as [|x u IH]; simpl; [lra|]. rewrite IH. lra.
Qed.

Lemma sum_zip_comm (u : list R) :
  forall v, np.sum (zip_with Rmult u v) = np.sum (zip_with Rmult v u).
Proof.
  unfold np.sum.
  induction u as [|x u IH]; intros [|y v]; simpl; try reflexivity.
  rewrite IH. lra.
Qed.

Lemma count_below_S (l : list nat) (n : nat) :
  length (List.filter (fun j => j <? Datatypes.S n) l)
  = (length (List.filter (fun j => j <? n) l)
     + count_occ Nat.eq_dec l n)%nat.
Proof.
  induction l as [|x l IH]; simpl; [reflexivity|].
  destruct (Nat.ltb_spec x (Datatypes.S n)), (Nat.ltb_spec x n),
    (Nat.eq_dec x n); simpl; lia.
Qed.

Lemma count_below_all (l : list nat) (n : nat) :
  Forall (fun j => (j < n)%nat) l ->
  List.filter (fun j => j <? n) l = l.
Proof.
  induction 1 as [|x l Hx Hl IH]; simpl; [reflexivity|].
  destruct (Nat.ltb_spec x n); [now rewrite IH | lia].
Qed.

(** The counts of the values below [n], each divided by [c], sum to the
    number of these values divided by [c]. *)
Lemma sum_counts (l : list nat) (c : R) (n : nat) :
  np.sum (map (fun a => INR (count_occ Nat.eq_dec l a) / c) (seq 0 n))
  = INR (length (List.filter (fun j => j <? n) l)) / c.
Proof.
  induction n as [|n IH].
  - simpl. replace (List.filter (fun j => j <? 0) l) with (@nil nat).
    + simpl. lra.
    + induction l as [|x l IHl]; simpl; [reflexivity | exact IHl].
  - rewrite seq_S, map_app, np_sum_app, IH, count_below_S, plus_INR.
    unfold np.sum. simpl. lra.
Qed.

Lemma np_argmax_lt (v : list R) (i : nat) :
  np.argmax v = Ok i -> (i < length v)%nat.
Proof.
  unfold np.argmax. intros Hm. inv_bind Hm. rename x into m.
  destruct (np.argwhere_eq v m) as [|j js] eqn:Hw; [discriminate|].
  injection Hm as ->.
  assert (Hin : i ∈ np.argwhere_eq v m) by (rewrite Hw; left).
  apply argwhere_eq_elem in Hin. eapply lookup_lt_Some; eauto.
Qed.

Lemma length_normal_row (means sigmas : list R) (z : nat -> R) :
  length means = length sigmas ->
  length (WeightedQLearning.normal_row means sigmas z) = length means.
Proof.
  intros Hl. unfold WeightedQLearning.normal_row. rewrite length_imap, length_zip_with. lia.
Qed.

(** The weights form a probability vector over the actions. *)
Lemma Weighted_weights_prob_vector (d : Draws) (precision : nat)
    (means sigmas w : list R) :
  (0 < precision)%nat ->
  WeightedQLearning.weights d precision means sigmas = Ok w ->
  length w = length means /\ means <> [] /\ prob_vector w.
Proof.
  intros Hp. unfold WeightedQLearning.weights.
  destruct (Nat.eqb_spec (length means) (length sigmas)) as [Hl|_];
    [|discriminate]. cbn [negb].
  destruct (existsb _ sigmas); [discriminate|].
  intros Hw. inv_bind Hw. rename x into max_idx. injection Hw as <-.
  destruct (mapM_Ok_lookup _ _ _ E) as [Hlen Hlook].
  rewrite length_seq in Hlen.
  assert (Hall : Forall (fun j => (j < length means)%nat) max_idx).
  { apply Forall_lookup. intros i j Hi.
    assert (Hi' : (i < precision)%nat).
    { rewrite <- Hlen. eapply lookup_lt_Some; eauto. }
    destruct (Hlook i i) as (y & Hy & Harg).
    { apply lookup_seq. lia. }
    assert (y = j) as -> by congruence.
    apply np_argmax_lt in Harg.
    now rewrite length_normal_row in Harg. }
  assert (HP : 0 < INR precision) by (apply lt_0_INR; lia).
  split; [now rewrite length_map, length_seq|]. split.
  - intros ->. destruct max_idx as [|j js]; [simpl in Hlen; lia|].
    inversion Hall as [|? ? Hj _]; subst. simpl in Hj. lia.
  - split.
    + apply Forall_fmap, Forall_forall. intros a _. simpl.
      apply Rmult_le_pos; [apply pos_INR|].
      left. now apply Rinv_0_lt_compat.
    + rewrite sum_counts, count_below_all, Hlen by exact Hall.
      field. lra.
Qed.

(** X17.  The weighted estimator is an average of the row.  With a
    positive number of samples, a completed [_next_q] records in [_w] a
    probability vector over the actions of the row [Q[next_state, :]],
    and the value it returns lies between the entries of the row: it
    never exceeds the maximum of the row, and it is at least every lower
    bound of the row. *)
Theorem weighted_next_q_is_average {S : Type} `{Schedule nat S}
    (mdp_info : MDPInfo) (d : Draws) (ag ag1 : @WeightedQLearning.agent S)
    (ns : nat) (q : R) :
  (0 < WeightedQLearning._precision ag)%nat ->
  WeightedQLearning._next_q mdp_info d ag ns = Ok (q, ag1) ->
  exists row m w,
    getrow (WeightedQLearning.Q ag) ns = Ok row /\
    np.max row = Ok m /\
    WeightedQLearning._w ag1 = Some w /\
    length w = length row /\ prob_vector w /\
    q <= m /\
    forall lo, Forall (fun x => lo <= x) row -> lo <= q.
Proof.
  intros Hp Hn. unfold WeightedQLearning._next_q in Hn.
  inv_bind Hn. rename x into means.
  inv_bind Hn. rename x into sigmas.
  inv_bind Hn. rename x into w.
  inv_bind Hn. injection Hn as -> <-. simpl.
  destruct (WeightedQLearning._sampling ag); [|discriminate].
  destruct (Weighted_weights_prob_vector _ _ _ _ _ Hp E1)
    as (Hlen & Hne & Hnn & Hsum).
  destruct (np_max_total means Hne) as [m Hm].
  apply np_dot_Ok in E2 as [_ ->].
  exists means, m, w. repeat (split; [assumption || reflexivity|]).
  split; [split; assumption|].
  rewrite sum_zip_comm. split.
  - replace m with (m * np.sum w) by (rewrite Hsum; lra).
    apply weighted_sum_le; [lia | exact Hnn |].
    apply Forall_forall. intros y Hy.
    now apply (proj2 (np_max_spec _ _ Hm)).
  - intros lo Hlo. replace lo with (lo * np.sum w) by (rewrite Hsum; lra).
    apply weighted_sum_ge; [lia | exact Hnn | exact Hlo].
Qed.

Lemma weighted_next_q_is_average_witness :
  let mdp := {| size := (1%nat, 2%nat); gamma := 0.5 |} in
  let d := {| normal := fun j a => match j, a with
                                   | 0%nat, 0%nat => 5
                                   | _, _ => 0
                                   end;
              choice := 0%nat |} in
  let ag : @WeightedQLearning.agent (list R) :=
    {| WeightedQLearning.Q := [[1; 3]];
       WeightedQLearning.alpha := [0.5];
       WeightedQLearning._sampling := true;
       WeightedQLearning._precision := 2;
       WeightedQLearning._n_updates := [[0; 0]];
       WeightedQLearning._sigma := [[1; 1]];
       WeightedQLearning._Q := [[0; 0]];
       WeightedQLearning._Q2 := [[0; 0]];
       WeightedQLearning._weights_var := [[0; 0]];
       WeightedQLearning._use_weighted_policy := false;
       WeightedQLearning._w := None;
       WeightedQLearning.next_action := None |} in
  exists q ag1,
    WeightedQLearning._next_q mdp d ag 0%nat = Ok (q, ag1) /\ q <= 3.
Proof.
  intros mdp d ag.
  assert (Hn : exists q ag1,
             WeightedQLearning._next_q mdp d ag 0%nat = Ok (q, ag1)).
  { eexists. eexists.
    unfold WeightedQLearning._next_q, WeightedQLearning.weights,
      WeightedQLearning.normal_row, np.argmax, np.argwhere_eq.
    repeat (simpl;
            match goal with
            | |- context [Rlt_dec ?x ?y] =>
                destruct (Rlt_dec x y); [try lra | try lra]
            | |- context [Rmax ?x ?y] =>
                first [ rewrite (Rmax_left x y) by lra
                      | rewrite (Rmax_right x y) by lra ]
            | |- context [Req_dec_T ?x ?y] =>
                destruct (Req_dec_T x y); [try lra | try lra]
            end).
    reflexivity. }
  destruct Hn as (q & ag1 & Hn). exists q, ag1. split; [exact Hn|].
  destruct (weighted_next_q_is_average mdp d ag ag1 0%nat q)
    as (row & m & w & Hrow & Hm & _ & _ & _ & Hle & _).
  - simpl. lia.
  - exact Hn.
  - injection Hrow as <-. simpl in Hm. rewrite Rmax_right in Hm by lra.
    injection Hm as <-. exact Hle.
Defined.

(** ** R-Learning and undiscounted Q-Learning *)

(** X18.  The store update of R-Learning is the undiscounted Q-Learning
    update on the reward reduced by [rho].  Let the discount of the MDP be
    1, and let a Q-Learning agent hold the store and the schedule of an
    R-Learning agent.  Then the R-Learning update on the reward [r]
    completes exactly when the Q-Learning update on the reward
    [r - rho] does, and both leave the same store and the same schedule;
    the condition on [rho] never makes R-Learning fail. *)
Theorem rlearning_store_is_undiscounted_qlearning {S : Type}
    `{Schedule nat S} (mdp_info : MDPInfo)
    (agr : @RLearning.agent S) (agq : @QLearning.agent S)
    (s a : nat) (r : R) (ns : nat) (ab : bool) :
  gamma mdp_info = 1 ->
  QLearning.Q agq = RLearning.Q agr ->
  QLearning.alpha agq = RLearning.alpha agr ->
  forall (Q' : Table) (alpha' : S),
    (exists agr', RLearning._update agr s a r ns ab = Ok agr' /\
                  RLearning.Q agr' = Q' /\ RLearning.alpha agr' = alpha') <->
    (exists agq', QLearning._update mdp_info agq s a
                    (r - RLearning._rho agr) ns ab = Ok agq' /\
                  QLearning.Q agq' = Q' /\ QLearning.alpha agq' = alpha').
Proof.
  intros Hg HQ Hal Q' alpha'.
  unfold RLearning._update, QLearning._update, RLearning.q_next,
    QLearning.q_next.
  rewrite HQ, Hal, Hg.
  destruct (getitem (RLearning.Q agr) s a) as [q|err] eqn:Hq; cbn [bind];
    [|split; intros (ag' & Hf & _); discriminate].
  destruct (if negb ab
            then let* row := getrow (RLearning.Q agr) ns in np.max row
            else Ok 0) as [qn|err]; cbn [bind];
    [|split; intros (ag' & Hf & _); discriminate].
  destruct (call (RLearning.alpha agr) s a None None) as [al alpha1].
  replace (q + al * (r - RLearning._rho agr + 1 * qn - q))
    with (q + al * (r - RLearning._rho agr + qn - q)) by lra.
  destruct (setitem (RLearning.Q agr) s a
              (q + al * (r - RLearning._rho agr + qn - q)))
    as [Q1|err] eqn:Hset; cbn [bind];
    [|split; intros (ag' & Hf & _); discriminate].
  destruct (getrow_setitem_eq _ _ _ _ _ Hset) as (row & _ & -> & Ha).
  cbn [bind].
  destruct (np_max_total
              (<[a := q + al * (r - RLearning._rho agr + qn - q)]> row))
    as [m ->].
  { intros E. apply (f_equal length) in E.
    rewrite length_insert in E. simpl in E. lia. }
  cbn [bind].
  destruct (Req_dec_T _ m);
    [destruct (call (RLearning.beta agr) s a None None) as [b beta']|];
    (split; intros (ag' & [= <-] & <- & <-); eexists;
     (split; [reflexivity|]); simpl; auto).
Qed.

Lemma rlearning_store_is_undiscounted_qlearning_witness :
  let mdp := {| size := (1%nat, 2%nat); gamma := 1 |} in
  let agr := {| RLearning.Q := [[0; 0.5]]; RLearning.alpha := [0.5];
                RLearning._rho := 0.25; RLearning.beta := [0.1] |} in
  exists agr',
    RLearning._update agr 0%nat 0%nat 1 0%nat false = Ok agr' /\
    RLearning.Q agr' = [[0.625; 0.5]] /\ RLearning.alpha agr' = [].
Proof.
  intros mdp agr.
  apply (proj2 (rlearning_store_is_undiscounted_qlearning mdp agr
                  {| QLearning.Q := [[0; 0.5]]; QLearning.alpha := [0.5] |}
                  0%nat 0%nat 1 0%nat false eq_refl eq_refl eq_refl
                  [[0.625; 0.5]] [])).
  eexists. split; [reflexivity|]. simpl. split; [|reflexivity].
  rewrite Rmax_right by lra. do 2 f_equal. lra.
Defined.
